(** * mclazy: a shallow embedding of [mclazy.py]

    The script walks over the configured GNOME modules and, for each one,
    takes a per-package lock file, resolves the newest upstream version
    accepted by the branch's glob, rewrites the RPM spec file and drives
    [fedpkg]/[git].  Python strings are Rocq [string]s, integers are [Z],
    and the body of the [for module, pkg, release_version in modules] loop
    is a program in a small state/exit/exception monad over an explicit
    record of everything the script observes from the outside world. *)

From Stdlib Require Import String Ascii List ZArith Bool Arith Lia.
Import ListNotations.
Open Scope string_scope.

Set Implicit Arguments.

(** ** Python string primitives *)

Module Py.

Definition is_digit (c : ascii) : bool :=
  (48 <=? nat_of_ascii c)%nat && (nat_of_ascii c <=? 57)%nat.

Definition newline : ascii := ascii_of_nat 10.
Definition tab : ascii := ascii_of_nat 9.

(** [span p s]: the longest prefix of [s] whose characters satisfy [p],
    and what follows it. *)
Fixpoint span (p : ascii -> bool) (s : string) : string * string :=
  match s with
  | String c t =>
      if p c then let (a, b) := span p t in (String c a, b) else ("", s)
  | EmptyString => ("", "")
  end.

Fixpoint take (n : nat) (s : string) : string :=
  match n, s with
  | S n', String c t => String c (take n' t)
  | _, _ => ""
  end.

Fixpoint drop (n : nat) (s : string) : string :=
  match n, s with
  | S n', String _ t => drop n' t
  | _, _ => s
  end.

(** [strip_prefix p s = Some r] when [s = p ++ r]. *)
Fixpoint strip_prefix (p s : string) : option string :=
  match p, s with
  | EmptyString, _ => Some s
  | String a p', String b s' =>
      if Ascii.eqb a b then strip_prefix p' s' else None
  | String _ _, EmptyString => None
  end.

(** [s.startswith(p)] *)
Definition startswith (s p : string) : bool :=
  match strip_prefix p s with
  | Some _ => true
  | None => false
  end.

(** [c in s] for a one-character [c] *)
Fixpoint contains_char (c : ascii) (s : string) : bool :=
  match s with
  | EmptyString => false
  | String a t => Ascii.eqb a c || contains_char c t
  end.

(** [sub in s] *)
Fixpoint contains (sub s : string) : bool :=
  startswith s sub ||
  match s with
  | EmptyString => false
  | String _ t => contains sub t
  end.

(** [s.split(c)] for a one-character separator: every occurrence cuts,
    empty pieces are kept, the result is never empty. *)
Fixpoint split (c : ascii) (s : string) : list string :=
  match s with
  | EmptyString => [""]
  | String a t =>
      if Ascii.eqb a c then "" :: split c t
      else match split c t with
           | x :: r => String a x :: r
           | [] => [String a ""]
           end
  end.

(** [s.rsplit(c, 1)] when [c] occurs in [s]: the text before the last
    occurrence and the text after it; [None] when [c] does not occur
    (Python then returns the one-element list [[s]]). *)
Fixpoint rsplit1 (c : ascii) (s : string) : option (string * string) :=
  match s with
  | EmptyString => None
  | String a t =>
      match rsplit1 c t with
      | Some (pre, post) => Some (String a pre, post)
      | None => if Ascii.eqb a c then Some ("", t) else None
      end
  end.

End Py.

(** ** The pre-release regular expressions

    [re.sub('([0-9]+).(alpha|beta|rc)', r'\1~\2', v)] (lines 285 and 306)
    and [re.sub('([0-9]+)~(alpha|beta|rc)', r'\1.\2', v)] (line 243) differ
    only in which character the middle atom accepts and which character the
    replacement puts there, so the matcher is written once over [sep]
    (the middle atom) and [rep] (the replacement character). *)

Module Re.
Import Py.

Definition prerelease : list string := ["alpha"; "beta"; "rc"].

(** The alternation [(alpha|beta|rc)], tried left to right. *)
Fixpoint first_word (ws : list string) (s : string) : option (string * string) :=
  match ws with
  | [] => None
  | w :: ws' =>
      match strip_prefix w s with
      | Some r => Some (w, r)
      | None => first_word ws' s
      end
  end.

(** What must follow the digits: one [sep] character and a word. *)
Definition match_tail (sep : ascii -> bool) (s : string) : option (string * string) :=
  match s with
  | String c t => if sep c then first_word prerelease t else None
  | EmptyString => None
  end.

(** The greedy group [([0-9]+)]: it first takes [n] digits and gives them
    back one at a time, never going below one digit. *)
Fixpoint backtrack (sep : ascii -> bool) (n : nat) (s : string)
  : option (string * string * string) :=
  match n with
  | 0 => None
  | S n' =>
      match match_tail sep (drop n s) with
      | Some (w, r) => Some (take n s, w, r)
      | None => backtrack sep n' s
      end
  end.

(** A match anchored at the start of [s]: the digits, the word and the
    text after the match. *)
Definition match_at (sep : ascii -> bool) (s : string)
  : option (string * string * string) :=
  backtrack sep (String.length (fst (span is_digit s))) s.

(** [re.sub]: leftmost non-overlapping matches, each replaced by
    [\1 rep \2]; the scan resumes after the match.  Every step consumes at
    least one character, so [length s] steps are enough. *)
Fixpoint sub_fuel (sep : ascii -> bool) (rep : ascii) (fuel : nat) (s : string)
  : string :=
  match fuel with
  | 0 => s
  | S f =>
      match s with
      | EmptyString => EmptyString
      | String c t =>
          match match_at sep s with
          | Some (ds, w, r) => ds ++ String rep (w ++ sub_fuel sep rep f r)
          | None => String c (sub_fuel sep rep f t)
          end
      end
  end.

Definition sub (sep : ascii -> bool) (rep : ascii) (s : string) : string :=
  sub_fuel sep rep (String.length s) s.

(** The atom [.]: any character but a newline. *)
Definition any_char (c : ascii) : bool := negb (Ascii.eqb c newline).
Definition is_tilde (c : ascii) : bool := Ascii.eqb c "~".

End Re.

(** [remote_ver_tilde] / [newest_remote_version_tilde] (lines 285, 306) *)
Definition tilde (v : string) : string := Re.sub Re.any_char "~" v.

(** [version_dot] (line 243) *)
Definition version_dot_of (v : string) : string := Re.sub Re.is_tilde "." v.


(** ** Vocabulary for the regular-expression facts *)

Module ReSpec.
Import Py.

Fixpoint all (p : ascii -> bool) (s : string) : bool :=
  match s with
  | EmptyString => true
  | String c t => p c && all p t
  end.

(** [s] has a match of [([0-9]+) sep (alpha|beta|rc)] anchored at its
    start, for some way of cutting it. *)
Definition matches (sep : ascii -> bool) (s : string) : Prop :=
  exists ds c w r,
    s = ds ++ String c (w ++ r) /\ ds <> "" /\ all is_digit ds = true /\
    sep c = true /\ In w Re.prerelease.

(** [soften sep rep s s']: [s'] is [s] where some characters accepted by
    [sep] were overwritten with [rep]. *)
Inductive soften (sep : ascii -> bool) (rep : ascii) : string -> string -> Prop :=
| soften_nil : soften sep rep "" ""
| soften_keep c s s' :
    soften sep rep s s' -> soften sep rep (String c s) (String c s')
| soften_over c s s' :
    sep c = true -> soften sep rep s s' ->
    soften sep rep (String c s) (String rep s').

End ReSpec.

(** ** Library functions the script calls

    [fnmatch], [rpm] and [re] are not part of the repository; the script
    is modelled over any implementation of the three entry points it uses.
    (The two fixed pre-release patterns above are the exception: they are
    small enough to be written out.) *)

Inductive Exn : Type :=
| UnboundLocalError   (* a local read before any assignment *)
| KeyError            (* [d[k]] with [k] missing *)
| IndexError          (* [l[i]] out of range *)
| ReError             (* [re.error]: the pattern does not compile *)
| UnicodeDecodeError. (* a text file with bytes that do not decode *)

Class Extern : Type := {
  (** [fnmatch.fnmatch(name, pat)] *)
  fnmatch : string -> string -> bool;
  (** [rpm.labelCompare((None, a, None), (None, b, None))] *)
  labelCompare : string -> string -> Z;
  (** [re.sub(pattern, repl, s)] for a pattern built at run time *)
  re_sub : string -> string -> string -> Exn + string
}.

(** ** [replace_spec_value], [majorminor] and the spec-file rewrite *)

(** [s.rsplit(c, 1)[0]]: the text before the last [c], or all of [s]. *)
Definition rsplit1_head (c : ascii) (s : string) : string :=
  match Py.rsplit1 c s with
  | Some (pre, _) => pre
  | None => s
  end.

Definition replace_spec_value (line replace : string) : string :=
  if Py.contains_char " " line then
    rsplit1_head " " line ++ String " " replace
  else if Py.contains_char Py.tab line then
    rsplit1_head Py.tab line ++ String Py.tab replace
  else line.

(** [majorminor]: [None] is the [IndexError] of [v[1]] on a version
    without a dot. *)
Definition majorminor (ver : string) : option string :=
  match Py.split "." ver with
  | v0 :: rest =>
      if String.eqb v0 "40" || String.eqb v0 "41" || String.eqb v0 "42"
      then Some v0
      else match rest with
           | v1 :: _ => Some (v0 ++ "." ++ v1)
           | [] => None
           end
  | [] => None
  end.

Definition nl : string := String Py.newline "".

(** A line of the spec file begins with a key the rewrite looks at. *)
Definition recognized (line : string) : bool :=
  Py.startswith line "Version:" || Py.startswith line "Release:" ||
  Py.startswith line "Source:" || Py.startswith line "Source0:".

(** The body of [for line in f] (lines 376-383): the line that is written
    to the temporary file, or the exception that ends the program. *)
Definition rewrite_line `{Extern}
  (version_dot new_version new_version_tilde line : string) : Exn + string :=
  if Py.startswith line "Version:" then
    inr (replace_spec_value line (new_version_tilde ++ nl))
  else if Py.startswith line "Release:" && negb (Py.contains "autorelease" line) then
    inr (replace_spec_value line ("0%{?dist}" ++ nl))
  else if Py.startswith line "Source:" || Py.startswith line "Source0:" then
    match majorminor version_dot with
    | None => inl IndexError
    | Some old =>
        match majorminor new_version with
        | None => inl IndexError
        | Some new => re_sub ("/" ++ old ++ "/") ("/" ++ new ++ "/") line
        end
    end
  else inr line.

Fixpoint rewrite_spec `{Extern}
  (version_dot new_version new_version_tilde : string) (lines : list string)
  : Exn + list string :=
  match lines with
  | [] => inr []
  | line :: rest =>
      match rewrite_line version_dot new_version new_version_tilde line with
      | inl e => inl e
      | inr line' =>
          match rewrite_spec version_dot new_version new_version_tilde rest with
          | inl e => inl e
          | inr rest' => inr (line' :: rest')
          end
      end
  end.

(** What has been written to the temporary file when [rewrite_spec]
    fails: the lines before the one that raises. *)
Fixpoint rewritten_before_failure `{Extern}
  (version_dot new_version new_version_tilde : string) (lines : list string)
  : list string :=
  match lines with
  | [] => []
  | line :: rest =>
      match rewrite_line version_dot new_version new_version_tilde line with
      | inl _ => []
      | inr line' =>
          line' :: rewritten_before_failure version_dot new_version
                     new_version_tilde rest
      end
  end.

(** ** The text layer

    [open(spec_filename, 'r')] reads with universal newlines: [\r\n] and
    a [\r] alone are given to the program as [\n].  [for line in f]
    yields the text up to and including each [\n], and what follows the
    last one if it is not empty.  [open(..., 'w')] writes a [\n] as it is
    (on POSIX), so the file that is written is the lines one after the
    other. *)

Definition carriage_return : ascii := ascii_of_nat 13.

Fixpoint universal_newlines (s : string) : string :=
  match s with
  | EmptyString => EmptyString
  | String c t =>
      if Ascii.eqb c carriage_return then
        match t with
        | String c' t' =>
            if Ascii.eqb c' Py.newline
            then String Py.newline (universal_newlines t')
            else String Py.newline (universal_newlines t)
        | EmptyString => String Py.newline EmptyString
        end
      else String c (universal_newlines t)
  end.

Fixpoint file_lines (s : string) : list string :=
  match s with
  | EmptyString => []
  | String c t =>
      if Ascii.eqb c Py.newline then String c "" :: file_lines t
      else match file_lines t with
           | l :: r => String c l :: r
           | [] => [String c ""]
           end
  end.

(** The lines that [for line in f] yields for a file with the text [text]. *)
Definition read_lines (text : string) : list string :=
  file_lines (universal_newlines text).

(** Lines 373-385 on the text of the spec file: the text of the file that
    replaces it. *)
Definition rewrite_file `{Extern}
  (version_dot new_version new_version_tilde text : string) : Exn + string :=
  match rewrite_spec version_dot new_version new_version_tilde (read_lines text) with
  | inr out => inr (String.concat "" out)
  | inl e => inl e
  end.

(** ** Integers and text *)

(** [c.isspace()] on the first 256 code points *)
Definition is_space (c : ascii) : bool :=
  let n := nat_of_ascii c in
  (n =? 32)%nat || ((9 <=? n) && (n <=? 13))%nat || ((28 <=? n) && (n <=? 31))%nat ||
  (n =? 133)%nat || (n =? 160)%nat.

Fixpoint rev_string (acc s : string) : string :=
  match s with
  | EmptyString => acc
  | String c t => rev_string (String c acc) t
  end.

(** [s.strip()] *)
Definition strip (s : string) : string :=
  let s1 := snd (Py.span is_space s) in
  rev_string "" (snd (Py.span is_space (rev_string "" s1))).

(** Decimal digits with single underscores between them. *)
Fixpoint parse_digits (acc : Z) (after_digit : bool) (s : string) : option Z :=
  match s with
  | EmptyString => if after_digit then Some acc else None
  | String c t =>
      if Py.is_digit c then
        parse_digits (10 * acc + Z.of_nat (nat_of_ascii c - 48)) true t
      else if Ascii.eqb c "_" then
        if after_digit then parse_digits acc false t else None
      else None
  end.

(** The white space that [int] skips at both ends, on the first 256 code
    points: the space, [\t] to [\r], U+0085 and U+00A0.  The separators
    [\x1c] to [\x1f], which [str.strip] takes off, are not among them:
    [int('\x1c12')] is a [ValueError]. *)
Definition is_int_space (c : ascii) : bool :=
  let n := nat_of_ascii c in
  (n =? 32)%nat || ((9 <=? n) && (n <=? 13))%nat ||
  (n =? 133)%nat || (n =? 160)%nat.

Definition int_strip (s : string) : string :=
  let s1 := snd (Py.span is_int_space s) in
  rev_string "" (snd (Py.span is_int_space (rev_string "" s1))).

Fixpoint count_digits (s : string) : Z :=
  match s with
  | EmptyString => 0
  | String c t => (if Py.is_digit c then 1 else 0) + count_digits t
  end.

(** [sys.int_info.default_max_str_digits]: a decimal string with more
    digits is refused, whatever its value (signs, underscores and white
    space are not counted). *)
Definition int_max_str_digits : Z := 4300.

(** [int(s)] for a string: [None] is [ValueError]. *)
Definition py_int (s : string) : option Z :=
  let t := int_strip s in
  if (int_max_str_digits <? count_digits t)%Z then None else
  match t with
  | String "-" t' => option_map Z.opp (parse_digits 0 false t')
  | String "+" t' => parse_digits 0 false t'
  | _ => parse_digits 0 false t
  end.

Fixpoint digits_of_pos (fuel : nat) (n : Z) (acc : string) : string :=
  match fuel with
  | 0 => acc
  | S f =>
      let acc' := String (ascii_of_nat (48 + Z.to_nat (n mod 10))) acc in
      if (n <? 10)%Z then acc' else digits_of_pos f (n / 10) acc'
  end.

(** ["%s" % n] for an integer *)
Definition str_of_int (n : Z) : string :=
  let fuel := S (S (Z.to_nat (Z.log2 (Z.abs n)))) in
  if (n <? 0)%Z then String "-" (digits_of_pos fuel (- n) "")
  else digits_of_pos fuel n "".

(** ** Arguments, configuration and the outside world *)

Record Args : Type := {
  fedora_branch : string;
  simulate : bool;
  check_installed : bool;
  relax_version_checks : bool;
  no_build : bool;
  no_mockbuild : bool;
  no_rawhide_sync : bool;
  cache : string;
  buildone : option string;
  buildroot : option string
}.

(** Modelled from the spec: an entry of [ModulesXml(...).items], whose
    module [modules] is not in the sources (§3 and §6: upstream module
    name, downstream package name, a mapping from branch name to
    acceptance pattern, and a flag that excludes the entry). *)
Record Item : Type := {
  name : string;
  pkgname : string;
  release_glob : list (string * string);
  disabled : bool
}.

(** [cache.json] once parsed: what the script reads from [j[1][module]]
    and [j[2][module]]; a missing key is [None]. *)
Record Json : Type := {
  j_tarxz : string -> option string;     (* j[1][module][v]['tar.xz'] *)
  j_versions : option (list string)      (* j[2][module], in file order *)
}.

(** Everything one turn of the package loop observes from outside.

    [w_pid] is what [os.getpid] returns, a [pid_t]: a 32-bit integer.

    [w_spec_text] is the text of the spec file as the codec of the locale
    decodes it, with the line ends of the file.  When the file has bytes
    that do not decode, [w_spec_decode_error] is set and [w_spec_text] is
    the text of the lines that [for line in f] yields before it raises. *)
Record World : Type := {
  w_pid : Z;                          (* os.getpid() *)
  w_pid_bound : (Z.abs w_pid <? 2 ^ 31)%Z = true;   (* a [pid_t] *)
  w_proc_alive : Z -> bool;           (* os.path.isdir("/proc/%i" % pid) *)
  w_checked_out : bool;               (* os.path.isdir(cache/pkg) *)
  w_rc : nat -> list string -> Z;     (* exit status of the n-th command *)
  w_spec_exists : bool;               (* os.path.exists(spec_filename) *)
  w_spec_version : option string;     (* None: rpm.spec raises ValueError *)
  w_fetch_ok : nat -> bool;           (* does try i of cache.json succeed *)
  w_json : option Json;               (* None: json.loads raises *)
  w_installed : option string;        (* installed_pkgs.get(pkg) *)
  w_tarball_present : bool;           (* os.path.exists(pkg/dest_tarball) *)
  w_tarball_ok : bool;                (* the tarball download succeeds *)
  w_spec_text : string;               (* the spec file as it decodes, see below *)
  w_spec_decode_error : bool;         (* reading it ends in UnicodeDecodeError *)
  w_mock_results : bool               (* glob.glob(resultsglob) is not empty *)
}.

Inductive Level : Type := Debug | Info | Fail.

Inductive Arg : Type :=
| AStr (s : string)
| AInt (z : Z).

(** What the script does to the outside, in order. *)
Inductive Event : Type :=
| ELog (lvl : Level) (fmt : string) (args : list Arg)
| ECmd (cwd : string) (argv : list string) (rc : Z)
| ELockWrite (path content : string)
| ELockUnlink (path : string)
| EJson (url dest : string) (ok : bool)        (* urlretrieve of cache.json *)
| ETarball (url dest : string) (ok : bool)     (* urlretrieve of the tarball *)
| ESpecWrite (path : string) (lines : list string).
    (* the lines written to [path]: the new spec file, or the [.tmp] left behind *)

(** The lock files that exist, with their contents; the local variable
    [pid] of [main], which survives from one package to the next; the
    number of commands run for the current package; the events so far. *)
Record St : Type := {
  locks : list (string * string);
  pid_var : option Z;
  ncmd : nat;
  trace : list Event
}.

Fixpoint lookup (k : string) (m : list (string * string)) : option string :=
  match m with
  | [] => None
  | (k', v) :: r => if String.eqb k k' then Some v else lookup k r
  end.

Fixpoint remove (k : string) (m : list (string * string)) : list (string * string) :=
  match m with
  | [] => []
  | (k', v) :: r => if String.eqb k k' then remove k r else (k', v) :: remove k r
  end.

(** ** The monad of the loop body

    [Next] is Python's [continue] of the package loop, [Raise] an uncaught
    exception, which ends the program. *)

Inductive Res (A : Type) : Type :=
| Val (a : A)
| Next
| Raise (e : Exn).

Arguments Val {A} a.
Arguments Next {A}.
Arguments Raise {A} e.

Definition M (A : Type) : Type := St -> Res A * St.

Definition ret {A : Type} (x : A) : M A := fun st => (Val x, st).

Definition bind {A B : Type} (m : M A) (k : A -> M B) : M B :=
  fun st =>
    match m st with
    | (Val x, st') => k x st'
    | (Next, st') => (Next, st')
    | (Raise e, st') => (Raise e, st')
    end.

Declare Scope mclazy_scope.
Delimit Scope mclazy_scope with mclazy.
Notation "x <- m ;; k" := (bind m (fun x => k))
  (at level 61, m at next level, right associativity) : mclazy_scope.
Notation "m ;; k" := (bind m (fun _ => k))
  (at level 61, right associativity) : mclazy_scope.
Open Scope mclazy_scope.

Definition continue {A : Type} : M A := fun st => (Next, st).
Definition raise {A : Type} (e : Exn) : M A := fun st => (Raise e, st).

Definition emit (e : Event) : M unit :=
  fun st => (Val tt, {| locks := locks st; pid_var := pid_var st;
                        ncmd := ncmd st; trace := trace st ++ [e] |}).

(** Modelled from the spec: [print_debug], [print_info] and [print_fail]
    come from the module [log], which is not in the sources; §1 leaves the
    console out of scope, so a call is recorded as an event that keeps
    the format string and the values formatted into it. *)
Definition print_debug (fmt : string) (args : list Arg) : M unit :=
  emit (ELog Debug fmt args).
Definition print_info (fmt : string) (args : list Arg) : M unit :=
  emit (ELog Info fmt args).
Definition print_fail (fmt : string) (args : list Arg) : M unit :=
  emit (ELog Fail fmt args).

Definition lock_content (path : string) : M (option string) :=
  fun st => (Val (lookup path (locks st)), st).

Definition assign_pid (p : Z) : M unit :=
  fun st => (Val tt, {| locks := locks st; pid_var := Some p;
                        ncmd := ncmd st; trace := trace st |}).

(** Reading [pid]: [UnboundLocalError] when it was never assigned. *)
Definition read_pid : M Z :=
  fun st => match pid_var st with
            | Some p => (Val p, st)
            | None => (Raise UnboundLocalError, st)
            end.

(** [with open(lock_filename, 'w') as f: f.write(content)] *)
Definition write_lock (path content : string) : M unit :=
  fun st => (Val tt, {| locks := (path, content) :: remove path (locks st);
                        pid_var := pid_var st; ncmd := ncmd st;
                        trace := trace st ++ [ELockWrite path content] |}).

Definition unlock_file (lock_filename : string) : M unit :=
  fun st =>
    match lookup lock_filename (locks st) with
    | Some _ =>
        (Val tt, {| locks := remove lock_filename (locks st);
                    pid_var := pid_var st; ncmd := ncmd st;
                    trace := trace st ++ [ELockUnlink lock_filename] |})
    | None => (Val tt, st)
    end.

(** Lines 44-51: the command is started and waited for, and its exit
    status is returned.  [subprocess.Popen] raises when the program or
    the directory is missing, and [communicate] when the output does not
    decode; these exceptions are not modelled: every command of the
    script is taken to start and to end with a status. *)
Definition run_command (w : World) (cwd : string) (argv : list string) : M Z :=
  fun st =>
    let rc := w_rc w (ncmd st) argv in
    (Val rc, {| locks := locks st; pid_var := pid_var st;
                ncmd := S (ncmd st); trace := trace st ++ [ECmd cwd argv rc] |}).

Definition start_package : M unit :=
  fun st => (Val tt, {| locks := locks st; pid_var := pid_var st;
                        ncmd := 0; trace := trace st |}).

(** Truth value of a string in an [if]. *)
Definition truthy (s : string) : bool := negb (String.eqb s "").

Fixpoint ends_with_slash (s : string) : bool :=
  match s with
  | EmptyString => false
  | String c EmptyString => Ascii.eqb c "/"
  | String _ t => ends_with_slash t
  end.

(** [os.path.join(a, b)] on POSIX *)
Definition path_join (a b : string) : string :=
  if Py.startswith b "/" then b
  else if String.eqb a "" || ends_with_slash a then a ++ b
  else a ++ "/" ++ b.

(** ** The functions of the script *)

Definition gnome_ftp : string := "https://download.gnome.org/sources".
Definition lockfile : string := "mclazy.lock".

Section Script.
Context `{Extern}.
Variable args : Args.
Variable w : World.

Definition switch_branch_and_reset (pkg_cache branch_name : string) : M Z :=
  rc <- run_command w pkg_cache ["git"; "clean"; "-dffx"] ;;
  if negb (rc =? 0)%Z then ret rc else
  rc <- run_command w pkg_cache ["git"; "reset"; "--hard"; "HEAD"] ;;
  if negb (rc =? 0)%Z then ret rc else
  rc <- run_command w pkg_cache ["git"; "checkout"; branch_name] ;;
  if negb (rc =? 0)%Z then ret rc else
  rc <- run_command w pkg_cache ["git"; "reset"; "--hard"; "origin/" ++ branch_name] ;;
  if negb (rc =? 0)%Z then ret rc else
  ret 0%Z.

(** Every [return] of the Python function is a plain [ret tt] here: the
    caller goes on whatever happened. *)
Definition sync_to_rawhide_branch (pkg_cache : string) : M unit :=
  rc <- switch_branch_and_reset pkg_cache "rawhide" ;;
  if negb (rc =? 0)%Z then print_fail "switch to 'rawhide' branch" [] else
  rc <- run_command w pkg_cache ["git"; "merge"; "--ff-only"; fedora_branch args] ;;
  picked <-
    (if negb (rc =? 0)%Z then
       print_info "No fast-forward merge possible" [] ;;
       rc <- run_command w pkg_cache ["git"; "cherry-pick"; fedora_branch args] ;;
       if negb (rc =? 0)%Z then
         run_command w pkg_cache ["git"; "cherry-pick"; "--abort"] ;;
         print_fail "cherry-pick" [] ;;
         ret false
       else ret true
     else ret true) ;;
  if negb picked then ret tt else
  rc <- run_command w pkg_cache ["git"; "push"] ;;
  if negb (rc =? 0)%Z then print_fail "push" [] else
  rc <- run_command w pkg_cache ["fedpkg"; "build"; "--nowait"] ;;
  if negb (rc =? 0)%Z then print_fail "build" [] else
  ret tt.

(** Lines 186-206: the lock file. *)
Definition acquire (lock_filename : string) : M unit :=
  existing <- lock_content lock_filename ;;
  (match existing with
   | Some content =>
       is_still_running <-
         (match py_int content with
          | Some p => assign_pid p ;; ret (w_proc_alive w p)
          | None => ret false
          end) ;;
       if is_still_running then
         p <- read_pid ;;
         print_info "Ignoring as another process (PID %i) has this" [AInt p] ;;
         continue
       else
         p <- read_pid ;;
         print_fail "Process with PID %i locked but did not release" [AInt p]
   | None => ret tt
   end) ;;
  write_lock lock_filename (str_of_int (w_pid w)).

(** Lines 211-228: the checkout and the branch. *)
Definition checkout (pkg lock_filename pkg_cache : string) : M unit :=
  (if negb (w_checked_out w) then
     rc <- run_command w (cache args) ["fedpkg"; "co"; pkg] ;;
     if negb (rc =? 0)%Z then
       print_fail "Checkout %s" [AStr pkg] ;;
       unlock_file lock_filename ;; continue
     else ret tt
   else
     rc <- run_command w pkg_cache ["git"; "fetch"] ;;
     if negb (rc =? 0)%Z then
       print_fail "Update repo %s" [AStr pkg] ;;
       unlock_file lock_filename ;; continue
     else ret tt) ;;
  rc <- switch_branch_and_reset pkg_cache (fedora_branch args) ;;
  if negb (rc =? 0)%Z then
    print_fail "Switch branch" [] ;;
    unlock_file lock_filename ;; continue
  else ret tt.

(** Lines 231-248: the version of the spec file. *)
Definition current_version (lock_filename : string) : M string :=
  if negb (w_spec_exists w) then
    print_fail "No spec file" [] ;;
    unlock_file lock_filename ;; continue
  else
    match w_spec_version w with
    | None =>
        print_fail "Can't parse spec file" [] ;;
        unlock_file lock_filename ;; continue
    | Some version =>
        print_debug "Current version is %s" [AStr version] ;;
        ret version
    end.

(** Lines 252-258: [for i in range (1, 20)] with its [break]. *)
Fixpoint fetch_json (url dest : string) (tries : list nat) : M bool :=
  match tries with
  | [] => ret false
  | i :: rest =>
      if w_fetch_ok w i then
        emit (EJson url dest true) ;; ret true
      else
        emit (EJson url dest false) ;;
        print_fail "Failed to get JSON on try %i: %s" [AInt (Z.of_nat i); AStr "IOError"] ;;
        fetch_json url dest rest
  end.

(** [range(1, 20)] *)
Definition range_1_20 : list nat := seq 1 (20 - 1).

(** Lines 286-290: does some alternative of the glob accept [remote_ver]. *)
Definition version_valid (gnome_branch remote_ver : string) : bool :=
  existsb (fun b => fnmatch remote_ver b) (Py.split "," gnome_branch).

(** Lines 284-297: the loop over [j[2][module]].  The [continue] of line
    293 belongs to this loop: the next remote version is looked at, after
    [unlock_file] has run. *)
Fixpoint newest_loop (lock_filename gnome_branch : string) (vs : list string)
  (newest : string * string) : M (string * string) :=
  match vs with
  | [] => ret newest
  | remote_ver :: rest =>
      let remote_ver_tilde := tilde remote_ver in
      if negb (version_valid gnome_branch remote_ver) then
        unlock_file lock_filename ;;
        newest_loop lock_filename gnome_branch rest newest
      else
        let rc := labelCompare remote_ver_tilde (snd newest) in
        if (rc >? 0)%Z then
          newest_loop lock_filename gnome_branch rest (remote_ver, remote_ver_tilde)
        else
          newest_loop lock_filename gnome_branch rest newest
  end.

(** What the rest of the body reads once the versions are known. *)
Record Decision : Type := {
  d_version : string;                      (* version *)
  d_version_dot : string;                  (* version_dot *)
  d_json : Json;                           (* j *)
  d_newest : string;                       (* newest_remote_version *)
  d_newest_tilde : string;                 (* newest_remote_version_tilde *)
  d_new : option (string * string)         (* new_version, new_version_tilde *)
}.

(** Lines 281-302: the newest remote version the glob accepts. *)
Definition find_newest (lock_filename gnome_branch : string) (vs : list string)
  : M string :=
  newest <- newest_loop lock_filename gnome_branch vs ("0", "0") ;;
  if String.eqb (fst newest) "0" then
    print_fail "No remote versions matching the gnome branch %s" [AStr gnome_branch] ;;
    print_fail "Check modules.xml is looking at the correct branch" [] ;;
    unlock_file lock_filename ;; continue
  else ret (fst newest).

(** Lines 180-312: from the lock to the decision. *)
Definition resolve (it : Item) : M Decision :=
  let module := name it in
  let pkg := pkgname it in
  start_package ;;
  print_info "Loading %s" [AStr module] ;;
  print_debug "Package name: %s" [AStr pkg] ;;
  gnome_branch <-
    (match lookup (fedora_branch args) (release_glob it) with
     | Some g => ret g
     | None => raise KeyError
     end) ;;
  print_debug "Version glob: %s" [AStr gnome_branch] ;;
  let lock_filename := cache args ++ "/" ++ pkg ++ "-" ++ lockfile in
  acquire lock_filename ;;
  let pkg_cache := path_join (cache args) pkg in
  checkout pkg lock_filename pkg_cache ;;
  version <- current_version lock_filename ;;
  let version_dot := version_dot_of version in
  let local_json_file := cache args ++ "/" ++ pkg ++ "/cache.json" in
  success <- fetch_json (gnome_ftp ++ "/" ++ module ++ "/cache.json")
                        local_json_file range_1_20 ;;
  (if negb success then unlock_file lock_filename ;; continue else ret tt) ;;
  j <-
    (match w_json w with
     | None =>
         print_fail "Failed to read JSON at %s: %s"
                    [AStr local_json_file; AStr "Exception"] ;;
         unlock_file lock_filename ;; continue
     | Some j => ret j
     end) ;;
  vs <-
    (match j_versions j with
     | Some vs => ret vs
     | None => raise KeyError
     end) ;;
  newest_remote_version <- find_newest lock_filename gnome_branch vs ;;
  let newest_remote_version_tilde := tilde newest_remote_version in
  let rc := labelCompare newest_remote_version_tilde version in
  ret {| d_version := version;
         d_version_dot := version_dot;
         d_json := j;
         d_newest := newest_remote_version;
         d_newest_tilde := newest_remote_version_tilde;
         d_new :=
           if (rc >? 0)%Z
           then Some (newest_remote_version, newest_remote_version_tilde)
           else None |}.

(** Lines 315-327: the installed version. *)
Definition installed_check (lock_filename : string) (d : Decision) : M unit :=
  if check_installed args then
    match w_installed w with
    | Some installed_ver =>
        if String.eqb installed_ver (d_newest d) then
          print_debug "installed version is up to date" []
        else
          print_debug "installed version is %s" [AStr installed_ver] ;;
          let rc := labelCompare installed_ver (d_newest_tilde d) in
          if (rc >? 0)%Z then
            print_fail "installed version is newer than gnome branch version" [] ;;
            print_fail "check modules.xml is looking at the correct branch" [] ;;
            unlock_file lock_filename ;; continue
          else ret tt
    | None => ret tt
    end
  else ret tt.

(** Lines 330-333: nothing to do. *)
Definition need_update (lock_filename : string) (d : Decision) : M (string * string) :=
  match d_new d with
  | Some new => ret new
  | None =>
      print_debug "No updates available" [] ;;
      unlock_file lock_filename ;; continue
  end.

(** [s.split('.')[0]] *)
Definition major (s : string) : string := hd "" (Py.split "." s).

(** Lines 336-342: never update a major version number. *)
Definition major_guard (lock_filename : string) (d : Decision) (new_version : string)
  : M unit :=
  if truthy new_version then
    if relax_version_checks args then
      print_debug "Updating major version number, but ignoring" []
    else if negb (String.eqb (major new_version) (major (d_version_dot d))) then
      print_fail "Cannot update major version numbers" [] ;;
      unlock_file lock_filename ;; continue
    else ret tt
  else ret tt.

(** Lines 349-369: the tarball. *)
Definition fetch_tarball (module pkg lock_filename pkg_cache : string)
  (d : Decision) (new_version : string) : M unit :=
  if truthy new_version then
    tarball <-
      (match j_tarxz (d_json d) new_version with
       | Some t => ret t
       | None => raise KeyError
       end) ;;
    dest_tarball <-
      (match nth_error (Py.split "/" tarball) 1 with
       | Some t => ret t
       | None => raise IndexError
       end) ;;
    if w_tarball_present w then
      print_debug "Source %s already exists" [AStr dest_tarball]
    else
      let tarball_url := gnome_ftp ++ "/" ++ module ++ "/" ++ tarball in
      print_debug "Download %s" [AStr tarball_url] ;;
      let dest := cache args ++ "/" ++ pkg ++ "/" ++ dest_tarball in
      (if w_tarball_ok w then emit (ETarball tarball_url dest true)
       else
         emit (ETarball tarball_url dest false) ;;
         print_fail "Failed to get tarball: %s" [AStr "IOError"] ;;
         unlock_file lock_filename ;; continue) ;;
      if negb (simulate args) then
        rc <- run_command w pkg_cache ["fedpkg"; "new-sources"; dest_tarball] ;;
        if negb (rc =? 0)%Z then
          print_fail "Upload new sources for %s" [AStr pkg] ;;
          unlock_file lock_filename ;; continue
        else ret tt
      else ret tt
  else ret tt.

(** Lines 372-385: the spec file is rewritten line by line into
    [spec_filename.tmp], which then replaces it.  When a line raises, or
    the file does not decode to its end, the two [with] close the files
    and the exception goes on: the temporary file stays behind with the
    lines written so far, and the spec file is not replaced. *)
Definition prep_spec (spec_filename : string) (d : Decision)
  (new_version new_version_tilde : string) : M unit :=
  if truthy new_version then
    let lines := read_lines (w_spec_text w) in
    match rewrite_spec (d_version_dot d) new_version new_version_tilde lines with
    | inr out =>
        if w_spec_decode_error w then
          emit (ESpecWrite (spec_filename ++ ".tmp") out) ;;
          raise UnicodeDecodeError
        else emit (ESpecWrite spec_filename out)
    | inl e =>
        emit (ESpecWrite (spec_filename ++ ".tmp")
                (rewritten_before_failure (d_version_dot d) new_version
                   new_version_tilde lines)) ;;
        raise e
    end
  else ret tt.

(** Lines 437-450 and 468-481: the two chains of [elif]. *)
Definition release_tag (branch : string) : option string :=
  if String.eqb branch "f39" then Some "fc39"
  else if String.eqb branch "f40" then Some "fc40"
  else if String.eqb branch "f41" then Some "fc41"
  else if String.eqb branch "f42" then Some "fc42"
  else if String.eqb branch "rawhide" then Some "fc43"
  else None.

Definition build_branch (branch : string) : option string :=
  if String.eqb branch "f39" then Some "f39-build"
  else if String.eqb branch "f40" then Some "f40-build"
  else if String.eqb branch "f41" then Some "f41-build"
  else if String.eqb branch "f42" then Some "f42-build"
  else if String.eqb branch "rawhide" then Some "f43-build"
  else None.

(** Lines 388-487: bump, test build, commit, push, build. *)
Definition publish (pkg lock_filename pkg_cache : string) (d : Decision)
  (new_version new_version_tilde : string) : M unit :=
  let comment := "Update to " ++ new_version in
  run_command w pkg_cache
    ["rpmdev-bumpspec"; "--legacy-datestamp"; "--comment=" ++ comment; pkg ++ ".spec"] ;;
  rc <- run_command w pkg_cache ["fedpkg"; "prep"] ;;
  (if negb (rc =? 0)%Z then
     print_fail "to build %s as patches did not apply" [AStr pkg] ;;
     unlock_file lock_filename ;; continue
   else ret tt) ;;
  (if negb (no_mockbuild args) then
     rc <- run_command w pkg_cache ["fedpkg"; "mockbuild"] ;;
     (if negb (rc =? 0)%Z then
        print_fail "package %s failed mock test build" [AStr pkg] ;;
        unlock_file lock_filename ;; continue
      else ret tt) ;;
     if negb (w_mock_results w) then
       print_fail "package %s failed mock test build: no results" [AStr pkg] ;;
       unlock_file lock_filename ;; continue
     else ret tt
   else ret tt) ;;
  rc <- run_command w pkg_cache ["git"; "commit"; "-a"; "--message=" ++ comment] ;;
  (if negb (rc =? 0)%Z then
     print_fail "commit" [] ;;
     unlock_file lock_filename ;; continue
   else ret tt) ;;
  (if simulate args then
     print_debug "Not pushing as simulating" [] ;;
     unlock_file lock_filename ;; continue
   else ret tt) ;;
  rc <- run_command w pkg_cache ["git"; "push"] ;;
  (if negb (rc =? 0)%Z then
     print_fail "push" [] ;;
     unlock_file lock_filename ;; continue
   else ret tt) ;;
  (if negb (no_rawhide_sync args) && negb (String.eqb (fedora_branch args) "rawhide") then
     sync_to_rawhide_branch pkg_cache ;;
     run_command w pkg_cache ["git"; "checkout"; fedora_branch args] ;;
     ret tt
   else ret tt) ;;
  pkg_release_tag <-
    (match release_tag (fedora_branch args) with
     | Some t => ret t
     | None =>
         print_fail "Failed to get release tag for" [AStr (fedora_branch args)] ;;
         unlock_file lock_filename ;; continue
     end) ;;
  (if negb (no_build args) then
     (if truthy new_version_tilde then
        print_info "Building %s-%s-1.%s"
                   [AStr pkg; AStr new_version_tilde; AStr pkg_release_tag]
      else
        print_info "Building %s-%s-1.%s"
                   [AStr pkg; AStr (d_version d); AStr pkg_release_tag]) ;;
     rc <-
       (match buildroot args with
        | Some target =>
            if truthy target then
              run_command w pkg_cache ["fedpkg"; "build"; "--nowait"; "--target"; target]
            else run_command w pkg_cache ["fedpkg"; "build"; "--nowait"]
        | None => run_command w pkg_cache ["fedpkg"; "build"; "--nowait"]
        end) ;;
     if negb (rc =? 0)%Z then
       print_fail "Build" [] ;;
       unlock_file lock_filename ;; continue
     else ret tt
   else ret tt) ;;
  (match build_branch (fedora_branch args) with
   | Some _ => ret tt
   | None =>
       print_fail ("Failed to get repo branch tag for" ++ fedora_branch args) [] ;;
       unlock_file lock_filename ;; continue
   end) ;;
  print_info "Done" [] ;;
  unlock_file lock_filename.

(** Lines 344-487: the update itself. *)
Definition apply_update (it : Item) (d : Decision)
  (new_version new_version_tilde : string) : M unit :=
  let module := name it in
  let pkg := pkgname it in
  let lock_filename := cache args ++ "/" ++ pkg ++ "-" ++ lockfile in
  let pkg_cache := path_join (cache args) pkg in
  let spec_filename := cache args ++ "/" ++ pkg ++ "/" ++ pkg ++ ".spec" in
  (if truthy new_version then
     print_debug "Need to update from %s to %s"
                 [AStr (d_version d); AStr new_version_tilde]
   else ret tt) ;;
  fetch_tarball module pkg lock_filename pkg_cache d new_version ;;
  prep_spec spec_filename d new_version new_version_tilde ;;
  publish pkg lock_filename pkg_cache d new_version new_version_tilde.

(** Lines 329-487: what follows the check of the installed version. *)
Definition after_installed_check (it : Item) (d : Decision) : M unit :=
  let lock_filename := cache args ++ "/" ++ pkgname it ++ "-" ++ lockfile in
  new <- need_update lock_filename d ;;
  major_guard lock_filename d (fst new) ;;
  apply_update it d (fst new) (snd new).

(** Lines 314-487: what follows the decision. *)
Definition after_decision (it : Item) (d : Decision) : M unit :=
  let lock_filename := cache args ++ "/" ++ pkgname it ++ "-" ++ lockfile in
  installed_check lock_filename d ;;
  after_installed_check it d.

(** The body of [for module, pkg, release_version in modules]. *)
Definition package_body (it : Item) : M unit :=
  d <- resolve it ;;
  after_decision it d.

End Script.

(** Lines 159-172: the entries the run looks at. *)
Definition selected (args : Args) (it : Item) : bool :=
  negb (disabled it) &&
  match buildone args with
  | None => true
  | Some one => String.eqb one (name it)
  end.

(** The package loop: an exception ends it, anything else moves on.  Each
    package comes with what the outside world answers during its turn. *)
Fixpoint package_loop `{Extern} (args : Args) (todo : list (Item * World))
  (st : St) : option Exn * St :=
  match todo with
  | [] => (None, st)
  | (it, w) :: rest =>
      if selected args it then
        match package_body args w it st with
        | (Raise e, st') => (Some e, st')
        | (_, st') => package_loop args rest st'
        end
      else package_loop args rest st
  end.

Definition initial : St :=
  {| locks := []; pid_var := None; ncmd := 0; trace := [] |}.

(** ** One implementation of the library functions

    Used to run the script on concrete inputs. *)

Module Model.

(** Modelled from the spec: the glob matching of [fnmatch] (§4.2,
    "each independently globbed"), which is not in the repository.  [*]
    stands for any text and [?] for any one character; every other
    character stands for itself, so the model agrees with [fnmatch] on
    patterns without a bracket expression. *)
Fixpoint glob (pat : string) : string -> bool :=
  match pat with
  | EmptyString => fun s => String.eqb s ""
  | String c pat' =>
      if Ascii.eqb c "*" then
        fix star (s : string) : bool :=
          glob pat' s ||
          match s with
          | EmptyString => false
          | String _ t => star t
          end
      else if Ascii.eqb c "?" then
        fun s => match s with
                 | EmptyString => false
                 | String _ t => glob pat' t
                 end
      else
        fun s => match s with
                 | EmptyString => false
                 | String x t => Ascii.eqb x c && glob pat' t
                 end
  end.

Definition is_alpha (c : ascii) : bool :=
  let n := nat_of_ascii c in
  ((65 <=? n) && (n <=? 90))%nat || ((97 <=? n) && (n <=? 122))%nat.

Definition is_separator (c : ascii) : bool :=
  negb (is_alpha c || Py.is_digit c || Ascii.eqb c "~" || Ascii.eqb c "^").

Definition is_zero (c : ascii) : bool := Ascii.eqb c "0".

(** [strcmp], as a sign. *)
Fixpoint strcmp (a b : string) : Z :=
  match a, b with
  | EmptyString, EmptyString => 0
  | EmptyString, String _ _ => -1
  | String _ _, EmptyString => 1
  | String x a', String y b' =>
      if (nat_of_ascii x <? nat_of_ascii y)%nat then -1
      else if (nat_of_ascii y <? nat_of_ascii x)%nat then 1
      else strcmp a' b'
  end.

Definition starts_with_char (c : ascii) (s : string) : bool :=
  match s with
  | String x _ => Ascii.eqb x c
  | EmptyString => false
  end.

Definition is_empty (s : string) : bool :=
  match s with
  | EmptyString => true
  | String _ _ => false
  end.

(** Modelled from the spec: the version ordering of [rpm] (§4.2
    [compare]), which is not in the repository: segments of digits or of
    letters, digits compared as numbers, letters as text, a digit segment
    above a letter segment, [~] below everything, the longer version above
    when one runs out. *)
Fixpoint vercmp (fuel : nat) (a b : string) : Z :=
  match fuel with
  | 0 => 0
  | S f =>
      let one := snd (Py.span is_separator a) in
      let two := snd (Py.span is_separator b) in
      if starts_with_char "~" one || starts_with_char "~" two then
        if negb (starts_with_char "~" one) then 1
        else if negb (starts_with_char "~" two) then -1
        else vercmp f (Py.drop 1 one) (Py.drop 1 two)
      else if starts_with_char "^" one || starts_with_char "^" two then
        if is_empty one then -1
        else if is_empty two then 1
        else if negb (starts_with_char "^" one) then 1
        else if negb (starts_with_char "^" two) then -1
        else vercmp f (Py.drop 1 one) (Py.drop 1 two)
      else if is_empty one && is_empty two then 0
      else if is_empty one then -1
      else if is_empty two then 1
      else
        let isnum := match one with
                     | String c _ => Py.is_digit c
                     | EmptyString => false
                     end in
        let p := if isnum then Py.is_digit else is_alpha in
        let (seg1, rest1) := Py.span p one in
        let (seg2, rest2) := Py.span p two in
        if is_empty seg2 then (if isnum then 1 else -1)
        else
          let n1 := if isnum then snd (Py.span is_zero seg1) else seg1 in
          let n2 := if isnum then snd (Py.span is_zero seg2) else seg2 in
          if isnum && (String.length n2 <? String.length n1)%nat then 1
          else if isnum && (String.length n1 <? String.length n2)%nat then -1
          else
            let rc := strcmp n1 n2 in
            if negb (rc =? 0)%Z then rc else vercmp f rest1 rest2
  end.

Definition rpmvercmp (a b : string) : Z :=
  if String.eqb a b then 0
  else vercmp (S (String.length a + String.length b)) a b.

(** A pattern in which only [.] is special, matched at the start of [s]:
    what follows the match. *)
Fixpoint match_prefix (pat s : string) : option string :=
  match pat with
  | EmptyString => Some s
  | String p pat' =>
      match s with
      | EmptyString => None
      | String c t =>
          if (Ascii.eqb p "." && Re.any_char c) || Ascii.eqb p c
          then match_prefix pat' t
          else None
      end
  end.

(** Modelled from the spec: the substitution of the path segment in a
    [Source:] line (§4.4), done by [re.sub], which is not in the
    repository.  [skip] counts the characters of a match still to be
    dropped.  The model agrees with [re.sub] when [.] is the only special
    character of the pattern and the replacement has no backslash. *)
Fixpoint sub_from (pat repl : string) (skip : nat) (s : string) : string :=
  match s with
  | EmptyString => EmptyString
  | String c t =>
      match skip with
      | S k => sub_from pat repl k t
      | 0 =>
          match match_prefix pat s with
          | Some _ => repl ++ sub_from pat repl (String.length pat - 1) t
          | None => String c (sub_from pat repl 0 t)
          end
      end
  end.

Definition sub_plain (pat repl s : string) : Exn + string :=
  inr (sub_from pat repl 0 s).

Definition extern : Extern := {|
  fnmatch := fun name pat => glob pat name;
  labelCompare := rpmvercmp;
  re_sub := sub_plain
|}.

End Model.

(** ** Vocabulary for the properties of a run *)

Definition lock_path (args : Args) (it : Item) : string :=
  cache args ++ "/" ++ pkgname it ++ "-" ++ lockfile.

(** The command lines that change the package: everything the script runs
    except the checkout and the branch switch. *)
Definition updating_argv (argv : list string) : bool :=
  match argv with
  | prog :: sub :: _ =>
      (String.eqb prog "fedpkg" && negb (String.eqb sub "co")) ||
      (String.eqb prog "git" &&
         (String.eqb sub "commit" || String.eqb sub "push" ||
          String.eqb sub "merge" || String.eqb sub "cherry-pick")) ||
      String.eqb prog "rpmdev-bumpspec"
  | _ => false
  end.

(** Events of an update: the tarball download, the upload of the new
    sources, the rewrite of the spec file, the bump, the builds, the
    commit and the push. *)
Definition updating (e : Event) : bool :=
  match e with
  | ETarball _ _ _ => true
  | ESpecWrite _ _ => true
  | ECmd _ argv _ => updating_argv argv
  | _ => false
  end.

Definition quiet (e : Event) : bool := negb (updating e).

Definition is_cmd (prog sub : string) (e : Event) : bool :=
  match e with
  | ECmd _ (p :: s :: _) _ => String.eqb p prog && String.eqb s sub
  | _ => false
  end.

(** Events that are kept from the network: anything but the upload of new
    sources and a push. *)
Definition local_only (e : Event) : bool :=
  negb (is_cmd "fedpkg" "new-sources" e || is_cmd "git" "push" e).

Definition is_spec_write (e : Event) : bool :=
  match e with ESpecWrite _ _ => true | _ => false end.

Definition is_json_fetch (e : Event) : bool :=
  match e with EJson _ _ _ => true | _ => false end.

(** A call of [print_fail] with the format [fmt]. *)
Definition is_failure (fmt : string) (e : Event) : bool :=
  match e with ELog Fail f _ => String.eqb f fmt | _ => false end.

Definition is_lock_write (path : string) (e : Event) : bool :=
  match e with ELockWrite p _ => String.eqb p path | _ => false end.

(** The events that follow the first removal of the lock file [path]. *)
Fixpoint after_unlink (path : string) (tr : list Event) : list Event :=
  match tr with
  | [] => []
  | ELockUnlink p :: r => if String.eqb p path then r else after_unlink path r
  | _ :: r => after_unlink path r
  end.

(** [st'] is [st] with more events, all of them accepted by [P]. *)
Definition extends_by (P : Event -> bool) (st st' : St) : Prop :=
  exists evs, trace st' = (trace st ++ evs)%list /\ forallb P evs = true.

(** A computation that only produces events accepted by [P]. *)
Definition emits {A : Type} (P : Event -> bool) (m : M A) : Prop :=
  forall st, extends_by P st (snd (m st)).

(** The message of line 199: another process holds the lock. *)
Definition is_ignoring (e : Event) : bool :=
  match e with
  | ELog Info f _ => String.eqb f "Ignoring as another process (PID %i) has this"
  | _ => false
  end.

(** A computation whose every [continue] comes with the lock file [path]
    removed, or after the message that a live process holds it. *)
Definition releases {A : Type} (path : string) (m : M A) : Prop :=
  forall st,
    fst (m st) = Next ->
    lookup path (locks (snd (m st))) = None \/
    existsb is_ignoring (trace (snd (m st))) = true.

(** A computation that, when it runs to its end, leaves no lock file
    [path]. *)
Definition finishes_unlocked {A : Type} (path : string) (m : M A) : Prop :=
  forall st x, fst (m st) = Val x -> lookup path (locks (snd (m st))) = None.

(** On the strings of [cs], the comparison is reflexive and a version at
    most [b] is at most anything above [b]. *)
Definition consistent_on `{Extern} (cs : list string) : bool :=
  forallb (fun x => (labelCompare x x <=? 0)%Z) cs &&
  forallb (fun x =>
    forallb (fun y =>
      forallb (fun z =>
        implb ((labelCompare x y <=? 0)%Z && (labelCompare z y >? 0)%Z)
              (labelCompare x z <=? 0)%Z) cs) cs) cs.

(** The remote versions the glob accepts, in the normalised form that is
    compared, with the initial ['0']. *)
Definition candidates `{Extern} (gnome_branch : string) (vs : list string)
  : list string :=
  "0" :: map tilde (filter (version_valid gnome_branch) vs).

(** The pair the loop of lines 284-297 ends with, without its effects. *)
Fixpoint newest_of `{Extern} (gnome_branch : string) (vs : list string)
  (newest : string * string) : string * string :=
  match vs with
  | [] => newest
  | remote_ver :: rest =>
      if version_valid gnome_branch remote_ver &&
         (labelCompare (tilde remote_ver) (snd newest) >? 0)%Z
      then newest_of gnome_branch rest (remote_ver, tilde remote_ver)
      else newest_of gnome_branch rest newest
  end.

(** ** Concrete runs *)

Module Scenario.

Definition args_with (simulate check_installed relax : bool) : Args :=
  {| fedora_branch := "rawhide";
     simulate := simulate;
     check_installed := check_installed;
     relax_version_checks := relax;
     no_build := false;
     no_mockbuild := false;
     no_rawhide_sync := false;
     cache := "cache";
     buildone := None;
     buildroot := None |}.

(** The defaults of the command line. *)
Definition args : Args := args_with false false false.

Definition item (glob : string) : Item :=
  {| name := "gnome-shell";
     pkgname := "gnome-shell";
     release_glob := [("rawhide", glob)];
     disabled := false |}.

Definition json (dir : string) (versions : list string) : Json :=
  {| j_tarxz := fun v => Some (dir ++ "/gnome-shell-" ++ v ++ ".tar.xz");
     j_versions := Some versions |}.

Definition spec_lines (dir version : string) : list string :=
  ["Name:           gnome-shell" ++ nl;
   "Version:        " ++ version ++ nl;
   "Release:" ++ String Py.tab ("1%{?dist}" ++ nl);
   "Source0: https://download.gnome.org/sources/gnome-shell/" ++ dir ++
     "/%{name}-%{version}.tar.xz" ++ nl;
   "%description" ++ nl].

(** A world in which every command and every download succeeds, but for
    the tries of [cache.json] that [fetch_ok] refuses. *)
Definition world (dir version : string) (versions : list string)
  (installed : option string) (fetch_ok : nat -> bool) : World :=
  {| w_pid := 4242;
     w_pid_bound := eq_refl;
     w_proc_alive := fun _ => false;
     w_checked_out := true;
     w_rc := fun _ _ => 0%Z;
     w_spec_exists := true;
     w_spec_version := Some version;
     w_fetch_ok := fetch_ok;
     w_json := Some (json dir versions);
     w_installed := installed;
     w_tarball_present := false;
     w_tarball_ok := true;
     w_spec_text := String.concat "" (spec_lines dir version);
     w_spec_decode_error := false;
     w_mock_results := true |}.

Definition always (i : nat) : bool := true.

(** Two packages whose lock files were left behind: the first one by a
    process 999 that is gone, the second one with no number in it. *)
Definition item_a : Item :=
  {| name := "glib"; pkgname := "glib2";
     release_glob := [("rawhide", "2.80.*")]; disabled := false |}.
Definition item_b : Item :=
  {| name := "gtk"; pkgname := "gtk4";
     release_glob := [("rawhide", "4.14.*")]; disabled := false |}.
Definition world_a : World := world "2.80" "2.80.0" ["2.80.0"] None always.
Definition world_b : World := world "4.14" "4.14.0" ["4.14.0"] None always.
Definition two_locks : St :=
  {| locks := [("cache/glib2-mclazy.lock", "999");
               ("cache/gtk4-mclazy.lock", "locked")];
     pid_var := None; ncmd := 0; trace := [] |}.

(** §8 of the design: the spec file is at 3.44.0, upstream has published
    3.44.0, 3.44.1 and 3.45.0, the branch accepts [3.44.*]. *)
Definition item_344 : Item := item "3.44.*".
Definition world_344 : World :=
  world "3.44" "3.44.0" ["3.44.0"; "3.44.1"; "3.45.0"] None always.

(** The same, with 3.44.1 installed. *)
Definition world_344_installed : World :=
  world "3.44" "3.44.0" ["3.44.0"; "3.44.1"; "3.45.0"] (Some "3.44.1") always.

(** The same, with a newer version installed than the branch accepts. *)
Definition world_344_ahead : World :=
  world "3.44" "3.44.0" ["3.44.0"; "3.44.1"; "3.45.0"] (Some "3.45.0") always.

(** The same, on a network that only answers from the twentieth try. *)
Definition world_344_slow : World :=
  world "3.44" "3.44.0" ["3.44.0"; "3.44.1"; "3.45.0"] None
        (fun i => (20 <=? i)%nat).

(** A lock file left behind with something else than a number in it. *)
Definition garbage_lock : St :=
  {| locks := [("cache/gnome-shell-mclazy.lock", "locked")];
     pid_var := None; ncmd := 0; trace := [] |}.

(** The spec file is at the release candidate of GNOME 40 and upstream
    has published 40.0. *)
Definition item_40 : Item := item "40.*".
Definition world_40 : World := world "40" "40~rc" ["40.rc"; "40.0"] None always.

(** The spec file is at 3.9.0 and the branch accepts 4.0.0. *)
Definition item_4 : Item := item "4.*".
Definition world_4 : World := world "4.0" "3.9.0" ["3.9.0"; "4.0.0"] None always.

Definition decision_4 : Decision :=
  {| d_version := "3.9.0";
     d_version_dot := "3.9.0";
     d_json := json "4.0" ["3.9.0"; "4.0.0"];
     d_newest := "4.0.0";
     d_newest_tilde := "4.0.0";
     d_new := Some ("4.0.0", "4.0.0") |}.

Definition decision_344 : Decision :=
  {| d_version := "3.44.0";
     d_version_dot := "3.44.0";
     d_json := json "3.44" ["3.44.0"; "3.44.1"; "3.45.0"];
     d_newest := "3.44.1";
     d_newest_tilde := "3.44.1";
     d_new := Some ("3.44.1", "3.44.1") |}.

End Scenario.


(** ** Vocabulary for further properties *)

(** The exit statuses of the commands that run when a sequence of
    commands stops at the first one that fails. *)
Fixpoint until_failure (rcs : list Z) : list Z :=
  match rcs with
  | [] => []
  | rc :: rest => if (rc =? 0)%Z then rc :: until_failure rest else [rc]
  end.

(** The events of commands run in [cwd], as many as there are statuses. *)
Definition cmd_events (cwd : string) (argvs : list (list string)) (rcs : list Z)
  : list Event :=
  map (fun p => ECmd cwd (fst p) (snd p)) (combine argvs rcs).

Fixpoint argv_eqb (a b : list string) : bool :=
  match a, b with
  | [], [] => true
  | x :: a', y :: b' => String.eqb x y && argv_eqb a' b'
  | _, _ => false
  end.

(** The command [argv] was run; it was run and succeeded. *)
Definition ran (argv : list string) (e : Event) : bool :=
  match e with
  | ECmd _ a _ => argv_eqb a argv
  | _ => false
  end.

Definition ran_ok (argv : list string) (e : Event) : bool :=
  match e with
  | ECmd _ a rc => argv_eqb a argv && (rc =? 0)%Z
  | _ => false
  end.

(** Every event accepted by [p] comes after an event accepted by [g];
    [seen] tells that one was met already. *)
Fixpoint preceded_by (g p : Event -> bool) (seen : bool) (tr : list Event) : bool :=
  match tr with
  | [] => true
  | e :: r => (negb (p e) || seen) && preceded_by g p (seen || g e) r
  end.

(** The command [prog sub ...] was run and succeeded. *)
Definition is_cmd_ok (prog sub : string) (e : Event) : bool :=
  match e with
  | ECmd _ (p :: s :: _) rc => String.eqb p prog && String.eqb s sub && (rc =? 0)%Z
  | _ => false
  end.

Definition is_command (e : Event) : bool :=
  match e with ECmd _ _ _ => true | _ => false end.

(** A computation whose new events are accepted by [P] up to some point,
    and go on beyond it only after an event accepted by [G]. *)
Definition gated {A : Type} (P G : Event -> bool) (m : M A) : Prop :=
  forall st, exists a b,
    trace (snd (m st)) = (trace st ++ a ++ b)%list /\
    forallb P a = true /\ (b = [] \/ existsb G a = true).

(** The tries of the loop of lines 252-258 that fail before it stops. *)
Fixpoint failed_tries (ok : nat -> bool) (tries : list nat) : list nat :=
  match tries with
  | [] => []
  | i :: rest => if ok i then [] else i :: failed_tries ok rest
  end.

(** What one failed try leaves in the trace (lines 254 and 258). *)
Definition failed_try (url dest : string) (i : nat) : list Event :=
  [EJson url dest false;
   ELog Fail "Failed to get JSON on try %i: %s" [AInt (Z.of_nat i); AStr "IOError"]].

(** A line of the spec file whose path the rewrite updates (line 380). *)
Definition is_source_line (line : string) : bool :=
  Py.startswith line "Source:" || Py.startswith line "Source0:".

(** The failure message of line 479, which has the branch appended. *)
Definition is_repo_branch_failure (e : Event) : bool :=
  match e with
  | ELog Fail f _ => Py.startswith f "Failed to get repo branch tag for"
  | _ => false
  end.

(** ** [get_modules]

    Lines 64-70: the generator over the lines of the modules file, given
    here the lines as [for line in f] yields them. *)
Fixpoint get_modules (lines : list string) : list string :=
  match lines with
  | [] => []
  | line :: rest =>
      if Py.startswith line "#" then get_modules rest
      else strip line :: get_modules rest
  end.

(** A version in which none of the words [alpha], [beta] and [rc]
    occurs. *)
Definition plain_version (s : string) : bool :=
  forallb (fun w => negb (Py.contains w s)) Re.prerelease.

(** A computation whose every [continue] comes with the lock file [path]
    removed. *)
Definition exits_unlocked {A : Type} (path : string) (m : M A) : Prop :=
  forall st, fst (m st) = Next -> lookup path (locks (snd (m st))) = None.

(** A computation that leaves every lock file but [path] as it was. *)
Definition keeps_other_locks {A : Type} (path : string) (m : M A) : Prop :=
  forall st q, q <> path -> lookup q (locks (snd (m st))) = lookup q (locks st).

(** The tarball was downloaded. *)
Definition is_tarball_ok (e : Event) : bool :=
  match e with ETarball _ _ ok => ok | _ => false end.

(** ** More concrete runs *)

Module Cases.

(** A second run of the script, started while the process of [w] is
    still alive. *)
Definition second_run (w : World) : World :=
  {| w_pid := 4343;
     w_pid_bound := eq_refl;
     w_proc_alive := fun p => (p =? w_pid w)%Z;
     w_checked_out := w_checked_out w;
     w_rc := w_rc w;
     w_spec_exists := w_spec_exists w;
     w_spec_version := w_spec_version w;
     w_fetch_ok := w_fetch_ok w;
     w_json := w_json w;
     w_installed := w_installed w;
     w_tarball_present := w_tarball_present w;
     w_tarball_ok := w_tarball_ok w;
     w_spec_text := w_spec_text w;
     w_spec_decode_error := w_spec_decode_error w;
     w_mock_results := w_mock_results w |}.

(** §8 once the update is in: the spec file is at 3.44.1. *)
Definition world_up_to_date : World :=
  Scenario.world "3.44" "3.44.1" ["3.44.0"; "3.44.1"; "3.45.0"] None
                 Scenario.always.

Definition decision_up_to_date : Decision :=
  {| d_version := "3.44.1";
     d_version_dot := "3.44.1";
     d_json := Scenario.json "3.44" ["3.44.0"; "3.44.1"; "3.45.0"];
     d_newest := "3.44.1";
     d_newest_tilde := "3.44.1";
     d_new := None |}.

(** The two packages of [Scenario.two_locks], one after the other. *)
Definition two_packages : list (Item * World) :=
  [(Scenario.item_a, Scenario.world_a); (Scenario.item_b, Scenario.world_b)].

(** §8 on the branch [f42], with [--no-build]. *)
Definition args_f42_no_build : Args :=
  {| fedora_branch := "f42";
     simulate := false;
     check_installed := false;
     relax_version_checks := false;
     no_build := true;
     no_mockbuild := false;
     no_rawhide_sync := false;
     cache := "cache";
     buildone := None;
     buildroot := None |}.

Definition item_f42 : Item :=
  {| name := "gnome-shell";
     pkgname := "gnome-shell";
     release_glob := [("f42", "3.44.*")];
     disabled := false |}.

End Cases.

(** A call of [print_fail]. *)
Definition is_fail (e : Event) : bool :=
  match e with ELog Fail _ _ => true | _ => false end.
(** * Properties *)

(** ** Strings *)

Module PyFacts.
Import Py.

Lemma append_assoc (a b c : string) : (a ++ b) ++ c = a ++ (b ++ c).
Proof. induction a as [|x a IH]; simpl; [reflexivity | now rewrite IH]. Qed.

Lemma append_nil_r (a : string) : a ++ "" = a.
Proof. induction a as [|x a IH]; simpl; [reflexivity | now rewrite IH]. Qed.

Lemma length_append (a b : string) :
  String.length (a ++ b) = String.length a + String.length b.
Proof. induction a as [|x a IH]; simpl; [reflexivity | now rewrite IH]. Qed.

Lemma take_app (a b : string) : take (String.length a) (a ++ b) = a.
Proof. induction a as [|x a IH]; simpl; [now destruct b | now rewrite IH]. Qed.

Lemma drop_app (a b : string) : drop (String.length a) (a ++ b) = b.
Proof. induction a as [|x a IH]; simpl; [reflexivity | exact IH]. Qed.

Lemma take_drop (n : nat) (s : string) : take n s ++ drop n s = s.
Proof.
  revert s; induction n as [|n IH]; intros [|c t]; simpl; try reflexivity.
  now rewrite IH.
Qed.

Lemma length_take (n : nat) (s : string) :
  n <= String.length s -> String.length (take n s) = n.
Proof.
  revert s; induction n as [|n IH]; intros [|c t]; simpl; intros H;
    try reflexivity; try lia.
  rewrite IH; lia.
Qed.

Lemma strip_prefix_app (p r : string) : strip_prefix p (p ++ r) = Some r.
Proof.
  induction p as [|a p IH]; simpl; [reflexivity|].
  now rewrite Ascii.eqb_refl.
Qed.

Lemma strip_prefix_sound (p s r : string) :
  strip_prefix p s = Some r -> s = p ++ r.
Proof.
  revert s; induction p as [|a p IH]; intros s; simpl.
  - now intros [= ->].
  - destruct s as [|b s]; [discriminate|].
    destruct (Ascii.eqb a b) eqn:E; [|discriminate].
    apply Ascii.eqb_eq in E; subst b. intros H. now rewrite (IH _ H).
Qed.

Lemma span_app (p : ascii -> bool) (s : string) :
  fst (span p s) ++ snd (span p s) = s.
Proof.
  induction s as [|c t IH]; simpl; [reflexivity|].
  destruct (p c); [|reflexivity].
  destruct (span p t) as [a b]; simpl in *. now rewrite IH.
Qed.

Lemma span_all (p : ascii -> bool) (s : string) :
  ReSpec.all p (fst (span p s)) = true.
Proof.
  induction s as [|c t IH]; simpl; [reflexivity|].
  destruct (p c) eqn:E; [|reflexivity].
  destruct (span p t) as [a b]; simpl in *. now rewrite E.
Qed.

(** A prefix made of [p]-characters is no longer than the maximal one. *)
Lemma span_longest (p : ascii -> bool) (a b : string) :
  ReSpec.all p a = true ->
  String.length a <= String.length (fst (span p (a ++ b))).
Proof.
  induction a as [|c a IH]; simpl; [lia|].
  intros H. apply andb_true_iff in H as [Hc Ha]. rewrite Hc.
  specialize (IH Ha). destruct (span p (a ++ b)); simpl in *. lia.
Qed.

(** When the text stops being [p] right after [a], [a] is the whole run. *)
Lemma span_exact (p : ascii -> bool) (a : string) (c : ascii) (b : string) :
  ReSpec.all p a = true -> p c = false ->
  span p (a ++ String c b) = (a, String c b).
Proof.
  induction a as [|x a IH]; simpl; intros Ha Hc.
  - now rewrite Hc.
  - apply andb_true_iff in Ha as [Hx Ha]. rewrite Hx, (IH Ha Hc). reflexivity.
Qed.

Lemma all_take (p : ascii -> bool) (n : nat) (s : string) :
  ReSpec.all p s = true -> ReSpec.all p (take n s) = true.
Proof.
  revert s; induction n as [|n IH]; intros [|c t]; simpl; try reflexivity.
  intros H. apply andb_true_iff in H as [Hc Ht]. now rewrite Hc, IH.
Qed.

Lemma take_take_app (n : nat) (a b : string) :
  n <= String.length a -> take n (a ++ b) = take n a.
Proof.
  revert a; induction n as [|n IH]; intros [|c a]; simpl; intros H;
    try reflexivity; try lia.
  rewrite IH; [reflexivity | lia].
Qed.

End PyFacts.

(** ** The pre-release regular expression *)

Module ReFacts.
Import Py Re ReSpec PyFacts.

Lemma first_word_sound (ws : list string) (s w r : string) :
  first_word ws s = Some (w, r) -> In w ws /\ s = w ++ r.
Proof.
  induction ws as [|x ws IH]; simpl; [discriminate|].
  destruct (strip_prefix x s) as [r'|] eqn:E.
  - intros [= <- <-]. split; [now left | now apply strip_prefix_sound].
  - intros H. destruct (IH H) as [Hin Hs]. split; [now right | exact Hs].
Qed.

Lemma first_word_prerelease (w r : string) :
  In w prerelease -> first_word prerelease (w ++ r) = Some (w, r).
Proof.
  unfold prerelease. simpl.
  intros [<- | [<- | [<- | []]]]; reflexivity.
Qed.

Section Matcher.
Variable sep : ascii -> bool.
Variable rep : ascii.

Lemma backtrack_sound (n : nat) (s ds w r : string) :
  n <= String.length (fst (span is_digit s)) ->
  backtrack sep n s = Some (ds, w, r) ->
  exists c, s = ds ++ String c (w ++ r) /\ ds <> "" /\
            all is_digit ds = true /\ sep c = true /\ In w prerelease.
Proof.
  induction n as [|n IH]; [discriminate|]. cbn [backtrack]. intros Hn.
  remember (take (S n) s) as tk eqn:T.
  destruct (match_tail sep (drop (S n) s)) as [[w' r']|] eqn:E.
  - intros [= <- <- <-].
    unfold match_tail in E.
    destruct (drop (S n) s) as [|c t] eqn:D; [discriminate|].
    destruct (sep c) eqn:Hc; [|discriminate].
    apply first_word_sound in E as [Hw ->].
    assert (String.length tk = S n) as L.
    { subst tk. apply length_take.
      rewrite <- (span_app is_digit s), length_append. lia. }
    exists c. split; [|split; [|split; [|split]]]; trivial.
    + rewrite <- (take_drop (S n) s) at 1. now rewrite D, T.
    + intros H0. rewrite H0 in L. discriminate.
    + rewrite T, <- (span_app is_digit s), take_take_app by exact Hn.
      apply all_take, span_all.
  - intros H. apply IH; [lia | exact H].
Qed.

Lemma match_at_sound (s ds w r : string) :
  match_at sep s = Some (ds, w, r) ->
  exists c, s = ds ++ String c (w ++ r) /\ ds <> "" /\
            all is_digit ds = true /\ sep c = true /\ In w prerelease.
Proof. apply backtrack_sound. lia. Qed.

Lemma backtrack_complete (n : nat) (ds : string) (c : ascii) (w r : string) :
  ds <> "" -> sep c = true -> In w prerelease -> String.length ds <= n ->
  backtrack sep n (ds ++ String c (w ++ r)) <> None.
Proof.
  intros Hds Hc Hw. induction n as [|n IH]; intros Hn.
  - destruct ds; [congruence | simpl in Hn; lia].
  - cbn [backtrack].
    destruct (match_tail sep _) as [[w' r']|] eqn:E; [discriminate|].
    destruct (Nat.eq_dec (String.length ds) (S n)) as [L|L].
    + rewrite <- L, drop_app in E. unfold match_tail in E.
      rewrite Hc, first_word_prerelease in E by exact Hw. discriminate.
    + apply IH. lia.
Qed.

Lemma match_at_complete (s : string) :
  matches sep s -> match_at sep s <> None.
Proof.
  intros (ds & c & w & r & -> & Hds & Hd & Hc & Hw).
  apply backtrack_complete; trivial. now apply span_longest.
Qed.

(** A match whose middle character is already [rep] is found again, with
    the same digits and the same word. *)
Lemma match_at_rep (ds w r : string) :
  sep rep = true -> is_digit rep = false ->
  ds <> "" -> all is_digit ds = true -> In w prerelease ->
  match_at sep (ds ++ String rep (w ++ r)) = Some (ds, w, r).
Proof.
  intros Hs Hr Hds Hd Hw. unfold match_at.
  rewrite span_exact by assumption. simpl fst.
  destruct ds as [|d ds]; [congruence|]. cbn [String.length backtrack].
  change (S (String.length ds)) with (String.length (String d ds)).
  rewrite drop_app, take_app. unfold match_tail.
  now rewrite Hs, first_word_prerelease.
Qed.

Lemma soften_refl (s : string) : soften sep rep s s.
Proof. induction s; constructor; assumption. Qed.

Lemma soften_app (a a' b b' : string) :
  soften sep rep a a' -> soften sep rep b b' ->
  soften sep rep (a ++ b) (a' ++ b').
Proof. induction 1; simpl; intros; try constructor; auto. Qed.

Lemma soften_length (s s' : string) :
  soften sep rep s s' -> String.length s' = String.length s.
Proof. induction 1; simpl; congruence. Qed.

(** Text that does not contain [rep] was not touched. *)
Lemma soften_prefix (p t' s : string) :
  contains_char rep p = false -> soften sep rep s (p ++ t') ->
  exists t, s = p ++ t /\ soften sep rep t t'.
Proof.
  revert s; induction p as [|a p IH]; simpl; intros s Hp H.
  - now exists s.
  - apply orb_false_iff in Hp as [Ha Hp].
    inversion H as [|c u u' Hu|c u u' Hc Hu]; subst.
    + destruct (IH _ Hp Hu) as (t & -> & Ht). now exists t.
    + rewrite Ascii.eqb_refl in Ha. discriminate.
Qed.

Lemma digits_avoid (ds : string) :
  is_digit rep = false -> all is_digit ds = true -> contains_char rep ds = false.
Proof.
  intros Hr. induction ds as [|d ds IH]; simpl; [reflexivity|].
  intros H. apply andb_true_iff in H as [Hd Hds]. rewrite (IH Hds), orb_false_r.
  destruct (Ascii.eqb d rep) eqn:E; [|reflexivity].
  apply Ascii.eqb_eq in E. congruence.
Qed.

(** Undoing the overwriting cannot destroy a match. *)
Lemma soften_matches (s s' : string) :
  is_digit rep = false ->
  (forall w, In w prerelease -> contains_char rep w = false) ->
  soften sep rep s s' -> matches sep s' -> matches sep s.
Proof.
  intros Hr Hwords H (ds & c & w & r & -> & Hds & Hd & Hc & Hw).
  apply soften_prefix in H as (t & -> & H); [|now apply digits_avoid].
  assert (exists c0 t0, t = String c0 t0 /\ sep c0 = true /\
                        soften sep rep t0 (w ++ r)) as (c0 & t0 & -> & Hc0 & H0).
  { inversion H; subst; eauto. }
  apply soften_prefix in H0 as (r0 & -> & _); [|now apply Hwords].
  now exists ds, c0, w, r0.
Qed.

Lemma sub_fuel_soften (n : nat) (s : string) :
  soften sep rep s (sub_fuel sep rep n s).
Proof.
  revert s; induction n as [|n IH]; intros s; simpl; [apply soften_refl|].
  destruct s as [|c t]; [constructor|].
  destruct (match_at sep (String c t)) as [[[ds w] r]|] eqn:E.
  - apply match_at_sound in E as (c0 & -> & _ & _ & Hc0 & _).
    apply soften_app; [apply soften_refl|].
    apply soften_over; [exact Hc0|].
    apply soften_app; [apply soften_refl | apply IH].
  - apply soften_keep, IH.
Qed.

(** Any amount of fuel above the length gives the same result. *)
Lemma sub_fuel_enough (n m : nat) (s : string) :
  String.length s <= n -> String.length s <= m ->
  sub_fuel sep rep n s = sub_fuel sep rep m s.
Proof.
  revert m s; induction n as [|n IH]; intros m s Hn Hm.
  - destruct s; [|simpl in Hn; lia]. now destruct m.
  - destruct m as [|m]; [destruct s; [reflexivity | simpl in Hm; lia]|].
    simpl. destruct s as [|c t]; [reflexivity|].
    destruct (match_at sep (String c t)) as [[[ds w] r]|] eqn:E.
    + apply match_at_sound in E as (c0 & Es & _).
      assert (String.length r < String.length (String c t)) as L.
      { rewrite Es, length_append. simpl. rewrite length_append. lia. }
      do 2 f_equal. f_equal. apply IH; lia.
    + f_equal. simpl in Hn, Hm. apply IH; lia.
Qed.

Hypothesis sep_rep : sep rep = true.
Hypothesis rep_not_digit : is_digit rep = false.
Hypothesis rep_not_in_words :
  forall w, In w prerelease -> contains_char rep w = false.

Lemma sub_fuel_idem (n : nat) (s : string) :
  String.length s <= n ->
  sub_fuel sep rep n (sub_fuel sep rep n s) = sub_fuel sep rep n s.
Proof.
  revert s; induction n as [|n IH]; intros s Hn; [reflexivity|].
  destruct s as [|c t]; [reflexivity|].
  cbn [sub_fuel].
  destruct (match_at sep (String c t)) as [[[ds w] r]|] eqn:E.
  - destruct (match_at_sound _ E) as (c0 & Es & Hds & Hd & Hc0 & Hw).
    assert (String.length r <= n) as L.
    { assert (String.length (String c t) = String.length (ds ++ String c0 (w ++ r)))
        as L0 by now rewrite Es.
      rewrite length_append in L0. simpl in L0. rewrite length_append in L0.
      destruct ds; [congruence|]. simpl in *. lia. }
    pose proof (@match_at_rep ds w (sub_fuel sep rep n r)
                  sep_rep rep_not_digit Hds Hd Hw)
      as M.
    destruct ds as [|d ds]; [congruence|].
    cbn [append] in *. rewrite M. now rewrite IH.
  - assert (match_at sep (String c (sub_fuel sep rep n t)) = None) as M.
    { destruct (match_at sep (String c (sub_fuel sep rep n t))) eqn:M; [|reflexivity].
      exfalso. apply (match_at_complete (s := String c t)); [|exact E].
      apply soften_matches with (s' := String c (sub_fuel sep rep n t)); trivial.
      - apply soften_keep, sub_fuel_soften.
      - destruct p as [[ds w] r].
        destruct (match_at_sound _ M) as (c0 & Es & Hds & Hd & Hc0 & Hw).
        now exists ds, c0, w, r. }
    rewrite M. f_equal. apply IH. simpl in Hn. lia.
Qed.

Lemma sub_idem (s : string) : sub sep rep (sub sep rep s) = sub sep rep s.
Proof.
  unfold sub.
  rewrite (soften_length (sub_fuel_soften (String.length s) s)).
  now apply sub_fuel_idem.
Qed.

End Matcher.
End ReFacts.

(** C9. The pre-release normalisation of lines 285 and 306,
    [re.sub('([0-9]+).(alpha|beta|rc)', r'\1~\2', v)], is idempotent:
    normalising an already normalised version string changes nothing,
    for every string [v]. *)
Theorem tilde_idempotent (v : string) : tilde (tilde v) = tilde v.
Proof.
  unfold tilde. apply ReFacts.sub_idem; try reflexivity.
  unfold Re.prerelease. simpl.
  intros w [<- | [<- | [<- | []]]]; reflexivity.
Qed.

(** ** The monad and its traces *)

Module MonadFacts.

Lemma extends_refl (P : Event -> bool) (st : St) : extends_by P st st.
Proof. exists []. split; [now rewrite app_nil_r | reflexivity]. Qed.

Lemma extends_trans (P : Event -> bool) (st1 st2 st3 : St) :
  extends_by P st1 st2 -> extends_by P st2 st3 -> extends_by P st1 st3.
Proof.
  intros (e1 & H1 & P1) (e2 & H2 & P2). exists (e1 ++ e2)%list. split.
  - now rewrite H2, H1, app_assoc.
  - now rewrite forallb_app, P1, P2.
Qed.

Lemma extends_one (P : Event -> bool) (st st' : St) (e : Event) :
  trace st' = (trace st ++ [e])%list -> P e = true -> extends_by P st st'.
Proof. intros Ht He. exists [e]. split; [exact Ht | simpl; now rewrite He]. Qed.

Section Emits.
Variable P : Event -> bool.

Lemma emits_ret (A : Type) (x : A) : emits P (ret x).
Proof. intros st. apply extends_refl. Qed.

Lemma emits_continue (A : Type) : emits P (@continue A).
Proof. intros st. apply extends_refl. Qed.

Lemma emits_raise (A : Type) (e : Exn) : emits P (@raise A e).
Proof. intros st. apply extends_refl. Qed.

Lemma emits_bind (A B : Type) (m : M A) (k : A -> M B) :
  emits P m -> (forall x, emits P (k x)) -> emits P (bind m k).
Proof.
  intros Hm Hk st. unfold bind. specialize (Hm st).
  destruct (m st) as [[x| |e] st1]; simpl in *; trivial.
  eapply extends_trans; [exact Hm | apply Hk].
Qed.

Lemma emits_emit (e : Event) : P e = true -> emits P (emit e).
Proof. intros He st. now apply extends_one with (e := e). Qed.

Lemma emits_unlock (path : string) :
  P (ELockUnlink path) = true -> emits P (unlock_file path).
Proof.
  intros He st. unfold unlock_file.
  destruct (lookup path (locks st)); [|apply extends_refl].
  now apply extends_one with (e := ELockUnlink path).
Qed.

Lemma emits_write_lock (path content : string) :
  P (ELockWrite path content) = true -> emits P (write_lock path content).
Proof. intros He st. now apply extends_one with (e := ELockWrite path content). Qed.

Lemma emits_run_command (w : World) (cwd : string) (argv : list string) :
  (forall rc, P (ECmd cwd argv rc) = true) -> emits P (run_command w cwd argv).
Proof.
  intros He st.
  now apply extends_one with (e := ECmd cwd argv (w_rc w (ncmd st) argv)).
Qed.

(** What follows a computation that always ends the turn never runs. *)
Lemma emits_bind_exit (A B : Type) (m : M A) (k : A -> M B) :
  emits P m -> (forall st, exists st', m st = (Next, st')) -> emits P (bind m k).
Proof.
  intros Hm Hx st. specialize (Hm st). destruct (Hx st) as (st' & E').
  unfold bind. rewrite E' in *. exact Hm.
Qed.

Lemma emits_lock_content (path : string) : emits P (lock_content path).
Proof. intros st. apply extends_refl. Qed.

Lemma emits_assign_pid (p : Z) : emits P (assign_pid p).
Proof.
  intros st. exists []. split; [simpl; now rewrite app_nil_r | reflexivity].
Qed.

Lemma emits_read_pid : emits P read_pid.
Proof. intros st. unfold read_pid. destruct (pid_var st); apply extends_refl. Qed.

Lemma emits_start_package : emits P start_package.
Proof.
  intros st. exists []. split; [simpl; now rewrite app_nil_r | reflexivity].
Qed.

End Emits.

Lemma emits_weaken (P Q : Event -> bool) (A : Type) (m : M A) :
  (forall e, P e = true -> Q e = true) -> emits P m -> emits Q m.
Proof.
  intros HPQ Hm st. destruct (Hm st) as (evs & Ht & Hp).
  exists evs. split; [exact Ht|].
  rewrite forallb_forall in *. auto.
Qed.

(** After [unlock_file] the lock file is gone. *)
Lemma lookup_remove (k : string) (m : list (string * string)) :
  lookup k (remove k m) = None.
Proof.
  induction m as [|[k' v] m IH]; simpl; [reflexivity|].
  destruct (String.eqb k k') eqn:E; [exact IH|]. simpl. now rewrite E.
Qed.

Lemma unlock_file_absent (path : string) (st : St) :
  fst (unlock_file path st) = Val tt /\
  lookup path (locks (snd (unlock_file path st))) = None.
Proof.
  unfold unlock_file. destruct (lookup path (locks st)) eqn:E; simpl.
  - split; [reflexivity | apply lookup_remove].
  - split; [reflexivity | exact E].
Qed.

Lemma bind_val (A B : Type) (m : M A) (k : A -> M B) (st st1 : St) (x : A) :
  m st = (Val x, st1) -> bind m k st = k x st1.
Proof. intros E. unfold bind. now rewrite E. Qed.

Lemma bind_next (A B : Type) (m : M A) (k : A -> M B) (st st1 : St) :
  m st = (Next, st1) -> bind m k st = (Next, st1).
Proof. intros E. unfold bind. now rewrite E. Qed.

End MonadFacts.

Ltac emits_step :=
  first
    [ apply MonadFacts.emits_ret
    | apply MonadFacts.emits_continue
    | apply MonadFacts.emits_raise
    | apply MonadFacts.emits_lock_content
    | apply MonadFacts.emits_assign_pid
    | apply MonadFacts.emits_read_pid
    | apply MonadFacts.emits_start_package
    | apply MonadFacts.emits_emit; reflexivity
    | apply MonadFacts.emits_unlock; reflexivity
    | apply MonadFacts.emits_write_lock; reflexivity
    | apply MonadFacts.emits_run_command; intros; reflexivity
    | apply MonadFacts.emits_bind; [|intros ?]
    | match goal with
      | |- emits _ (if ?b then _ else _) => destruct b
      | |- emits _ (match ?x with _ => _ end) => destruct x
      end ].

Ltac emits_auto :=
  unfold print_debug, print_info, print_fail; repeat emits_step.

(** ** The stages up to the decision only look *)

Section Quiet.
Context {E : Extern}.
Variable args : Args.
Variable w : World.

Lemma switch_branch_and_reset_quiet (pkg_cache branch : string) :
  emits quiet (switch_branch_and_reset w pkg_cache branch).
Proof. unfold switch_branch_and_reset. emits_auto. Qed.

Lemma acquire_quiet (lock_filename : string) :
  emits quiet (acquire w lock_filename).
Proof. unfold acquire. emits_auto. Qed.

Lemma checkout_quiet (pkg lock_filename pkg_cache : string) :
  emits quiet (checkout args w pkg lock_filename pkg_cache).
Proof.
  unfold checkout. emits_auto; apply switch_branch_and_reset_quiet.
Qed.

Lemma current_version_quiet (lock_filename : string) :
  emits quiet (current_version w lock_filename).
Proof. unfold current_version. emits_auto. Qed.

Lemma fetch_json_quiet (url dest : string) (tries : list nat) :
  emits quiet (fetch_json w url dest tries).
Proof.
  induction tries as [|i tries IH]; simpl; emits_auto. exact IH.
Qed.

Lemma newest_loop_quiet (lock_filename gnome_branch : string) (vs : list string)
  (newest : string * string) :
  emits quiet (newest_loop lock_filename gnome_branch vs newest).
Proof.
  revert newest; induction vs as [|v vs IH]; intros newest; simpl; emits_auto;
    apply IH.
Qed.

Lemma find_newest_quiet (lock_filename gnome_branch : string) (vs : list string) :
  emits quiet (find_newest lock_filename gnome_branch vs).
Proof.
  unfold find_newest. emits_auto. apply newest_loop_quiet.
Qed.

Lemma resolve_quiet (it : Item) : emits quiet (resolve args w it).
Proof.
  unfold resolve. emits_auto;
    first [ apply current_version_quiet | apply fetch_json_quiet
          | apply newest_loop_quiet ].
Qed.

Lemma installed_check_quiet (lock_filename : string) (d : Decision) :
  emits quiet (installed_check args w lock_filename d).
Proof. unfold installed_check. emits_auto. Qed.

End Quiet.

(** The loop of lines 252-258 makes at most one try per element of
    [range(1, 20)], that is at most 19. *)
Lemma fetch_json_tries (w : World) (url dest : string) (tries : list nat) (st : St) :
  exists evs,
    trace (snd (fetch_json w url dest tries st)) = (trace st ++ evs)%list /\
    List.length (filter is_json_fetch evs) <= List.length tries.
Proof.
  revert st; induction tries as [|i tries IH]; intros st; simpl.
  - exists []. split; [now rewrite app_nil_r | simpl; lia].
  - destruct (w_fetch_ok w i).
    + exists [EJson url dest true]. split; [reflexivity | simpl; lia].
    + unfold bind, print_fail, emit. simpl.
      match goal with
      | |- context [fetch_json w url dest tries ?s] =>
          destruct (IH s) as (evs & Ht & Hl); rewrite Ht
      end.
      exists ([EJson url dest false;
               ELog Fail "Failed to get JSON on try %i: %s"
                    [AInt (Z.of_nat i); AStr "IOError"]] ++ evs)%list.
      split; [simpl; now rewrite <- !app_assoc | simpl; lia].
Qed.

(** The loop succeeds exactly when one of its tries does. *)
Lemma fetch_json_result (w : World) (url dest : string) (tries : list nat) (st : St) :
  fst (fetch_json w url dest tries st) = Val (existsb (w_fetch_ok w) tries).
Proof.
  revert st; induction tries as [|i tries IH]; intros st; simpl; [reflexivity|].
  destruct (w_fetch_ok w i); [reflexivity|].
  unfold bind, print_fail, emit. simpl. apply IH.
Qed.

(** ** The newest remote version *)

Section Newest.
Context {E : Extern}.
Variable lock_filename : string.
Variable gnome_branch : string.

(** The loop always ends, with the pair [newest_of] computes; it only
    removes the lock file on its way. *)
Lemma newest_loop_value (vs : list string) (newest : string * string) (st : St) :
  exists st',
    newest_loop lock_filename gnome_branch vs newest st =
      (Val (newest_of gnome_branch vs newest), st') /\
    (lookup lock_filename (locks st) = None ->
     lookup lock_filename (locks st') = None) /\
    extends_by quiet st st'.
Proof.
  revert newest st; induction vs as [|v vs IH]; intros newest st; simpl.
  - exists st. repeat split; auto using MonadFacts.extends_refl.
  - destruct (version_valid gnome_branch v); simpl.
    + destruct (labelCompare (tilde v) (snd newest) >? 0)%Z; apply IH.
    + destruct (MonadFacts.unlock_file_absent lock_filename st) as [Hv Hl].
      destruct (unlock_file lock_filename st) as [r st1] eqn:U; simpl in *.
      subst r. destruct (IH newest st1) as (st' & Hrun & Hkeep & Hext).
      exists st'. split; [|split].
      * unfold bind. now rewrite U.
      * intros _. now apply Hkeep.
      * eapply MonadFacts.extends_trans; [|exact Hext].
        pose proof (MonadFacts.emits_unlock quiet lock_filename eq_refl st) as X.
        now rewrite U in X.
Qed.

Lemma newest_of_origin (vs : list string) (newest : string * string) :
  newest_of gnome_branch vs newest = newest \/
  (In (fst (newest_of gnome_branch vs newest)) vs /\
   version_valid gnome_branch (fst (newest_of gnome_branch vs newest)) = true /\
   snd (newest_of gnome_branch vs newest) =
     tilde (fst (newest_of gnome_branch vs newest))).
Proof.
  revert newest; induction vs as [|v vs IH]; intros newest; simpl; [now left|].
  destruct (version_valid gnome_branch v) eqn:V; simpl.
  - destruct (labelCompare (tilde v) (snd newest) >? 0)%Z.
    + destruct (IH (v, tilde v)) as [-> | (Hin & Hv & Ht)].
      * right. simpl. auto.
      * right. auto.
    + destruct (IH newest) as [-> | (Hin & Hv & Ht)]; [now left | right; auto].
  - destruct (IH newest) as [-> | (Hin & Hv & Ht)]; [now left | right; auto].
Qed.

Section Order.
Variable cs : list string.
Hypothesis cmp_refl : forall x, In x cs -> (labelCompare x x <= 0)%Z.
Hypothesis cmp_up :
  forall x y z, In x cs -> In y cs -> In z cs ->
    (labelCompare x y <= 0)%Z -> (labelCompare z y > 0)%Z ->
    (labelCompare x z <= 0)%Z.

Lemma newest_of_above (vs : list string) (newest : string * string) :
  In (snd newest) cs ->
  (forall v, In v vs -> version_valid gnome_branch v = true -> In (tilde v) cs) ->
  (forall x, In x cs -> (labelCompare x (snd newest) <= 0)%Z ->
             (labelCompare x (snd (newest_of gnome_branch vs newest)) <= 0)%Z) /\
  (forall v, In v vs -> version_valid gnome_branch v = true ->
             (labelCompare (tilde v) (snd (newest_of gnome_branch vs newest)) <= 0)%Z).
Proof.
  revert newest; induction vs as [|v vs IH]; intros newest Hn Hvs; simpl.
  - split; [auto | intros ? []].
  - assert (forall u, In u vs -> version_valid gnome_branch u = true ->
                      In (tilde u) cs) as Hvs' by (intros; apply Hvs; simpl; auto).
    destruct (version_valid gnome_branch v) eqn:V; simpl.
    + assert (In (tilde v) cs) as Hv by (apply Hvs; simpl; auto).
      destruct (labelCompare (tilde v) (snd newest) >? 0)%Z eqn:C.
      * apply Z.gtb_lt in C.
        destruct (IH (v, tilde v) Hv Hvs') as [Hmono Hmax]. simpl in Hmono.
        split.
        -- intros x Hx Hle. apply Hmono; [exact Hx|].
           apply cmp_up with (y := snd newest); auto. lia.
        -- intros u [<- | Hu] Hval; [|now apply Hmax].
           apply Hmono; auto.
      * assert (labelCompare (tilde v) (snd newest) <= 0)%Z as C'.
        { destruct (Z.gtb_spec (labelCompare (tilde v) (snd newest)) 0);
            [discriminate | lia]. }
        destruct (IH newest Hn Hvs') as [Hmono Hmax]. split; [exact Hmono|].
        intros u [<- | Hu] Hval; [|now apply Hmax]. now apply Hmono.
    + destruct (IH newest Hn Hvs') as [Hmono Hmax]. split; [exact Hmono|].
      intros u [<- | Hu] Hval; [congruence | now apply Hmax].
Qed.

End Order.

Lemma consistent_on_refl (cs : list string) :
  consistent_on cs = true -> forall x, In x cs -> (labelCompare x x <= 0)%Z.
Proof.
  unfold consistent_on. intros H x Hx.
  apply andb_true_iff in H as [H _].
  rewrite forallb_forall in H. now apply Z.leb_le, H.
Qed.

Lemma consistent_on_up (cs : list string) :
  consistent_on cs = true ->
  forall x y z, In x cs -> In y cs -> In z cs ->
    (labelCompare x y <= 0)%Z -> (labelCompare z y > 0)%Z ->
    (labelCompare x z <= 0)%Z.
Proof.
  unfold consistent_on. intros H x y z Hx Hy Hz Hxy Hzy.
  apply andb_true_iff in H as [_ H].
  rewrite forallb_forall in H. specialize (H x Hx).
  rewrite forallb_forall in H. specialize (H y Hy).
  rewrite forallb_forall in H. specialize (H z Hz).
  apply Z.leb_le in Hxy. assert ((labelCompare z y >? 0)%Z = true) as Hzy'.
  { apply Z.gtb_lt. lia. }
  rewrite Hxy, Hzy' in H. simpl in H. now apply Z.leb_le.
Qed.

Lemma candidates_in (vs : list string) (v : string) :
  In v vs -> version_valid gnome_branch v = true ->
  In (tilde v) (candidates gnome_branch vs).
Proof.
  intros Hin Hv. unfold candidates. right.
  apply in_map, filter_In. now split.
Qed.

End Newest.

(** Without an accepted remote version the stage gives up. *)
Lemma find_newest_nothing_accepted {E : Extern}
  (lock_filename gnome_branch : string) (vs : list string) (st : St) :
  existsb (version_valid gnome_branch) vs = false ->
  fst (find_newest lock_filename gnome_branch vs st) = Next.
Proof.
  intros Hnone. unfold find_newest.
  destruct (newest_loop_value lock_filename gnome_branch vs ("0", "0") st)
    as (st1 & Hrun & _). unfold bind at 1. rewrite Hrun.
  destruct (newest_of_origin gnome_branch vs ("0", "0")) as [-> | (Hin & Hv & _)].
  - simpl. unfold bind, print_fail, emit, continue, unlock_file. simpl.
    now destruct (lookup lock_filename (locks st1)).
  - assert (existsb (version_valid gnome_branch) vs = true) as X.
    { apply existsb_exists. eauto. }
    congruence.
Qed.

(** C5 (amended). The stage of lines 281-302 tests the remote version as
    published, not its normalised form, against the comma-separated
    alternatives of the glob.  When it returns a version, that version is a
    published one that some alternative accepts, and no accepted published
    version compares above it (the comparison being taken on the
    normalised forms, and behaving as an order on them).  The stage never
    raises, and when it gives up it has reported the configuration
    problem and the lock file is gone. *)
Theorem resolver_selects_newest_accepted {E : Extern}
  (lock_filename gnome_branch : string) (vs : list string) (st : St) :
  consistent_on (candidates gnome_branch vs) = true ->
  match find_newest lock_filename gnome_branch vs st with
  | (Val newest, _) =>
      In newest vs /\
      version_valid gnome_branch newest = true /\
      forall v, In v vs -> version_valid gnome_branch v = true ->
                (labelCompare (tilde v) (tilde newest) <= 0)%Z
  | (Next, st') =>
      lookup lock_filename (locks st') = None /\
      exists evs,
        trace st' = (trace st ++ evs)%list /\
        In (ELog Fail "No remote versions matching the gnome branch %s"
                 [AStr gnome_branch]) evs
  | (Raise _, _) => False
  end.
Proof.
  intros Hcons. unfold find_newest.
  destruct (newest_loop_value lock_filename gnome_branch vs ("0", "0") st)
    as (st1 & Hrun & _ & (evs & Htr & _)).
  unfold bind at 1. rewrite Hrun.
  destruct (String.eqb (fst (newest_of gnome_branch vs ("0", "0"))) "0") eqn:Z0.
  - unfold bind, print_fail, emit, continue. simpl.
    pose proof (MonadFacts.unlock_file_absent lock_filename
      {| locks := locks st1; pid_var := pid_var st1; ncmd := ncmd st1;
         trace := ((trace st1 ++
           [ELog Fail "No remote versions matching the gnome branch %s"
                 [AStr gnome_branch]]) ++
           [ELog Fail "Check modules.xml is looking at the correct branch" []])%list |})
      as [Hv Hl].
    destruct (unlock_file lock_filename _) as [r st2] eqn:U. simpl in Hv, Hl.
    subst r. split; [exact Hl|].
    unfold unlock_file in U. simpl in U.
    destruct (lookup lock_filename (locks st1)).
    + injection U as <-. simpl. rewrite Htr.
      eexists. rewrite <- !app_assoc. split; [reflexivity|].
      apply in_or_app. right. simpl. auto.
    + injection U as <-. simpl. rewrite Htr.
      eexists. rewrite <- !app_assoc. split; [reflexivity|].
      apply in_or_app. right. simpl. auto.
  - simpl. apply String.eqb_neq in Z0.
    destruct (newest_of_origin gnome_branch vs ("0", "0")) as [Heq | (Hin & Hv & Ht)].
    + rewrite Heq in Z0. simpl in Z0. congruence.
    + split; [exact Hin|]. split; [exact Hv|].
      rewrite <- Ht.
      refine (proj2 (@newest_of_above _ gnome_branch _
                       (@consistent_on_refl _ _ Hcons)
                       (@consistent_on_up _ _ Hcons) vs ("0", "0") _ _)).
      * simpl. now left.
      * intros. now apply candidates_in.
Qed.

(** ** After the decision *)

Section AfterDecision.
Context {E : Extern}.
Variable args : Args.
Variable w : World.
Variable it : Item.

(** The check of the installed version either lets the run go on or ends
    it with the lock file removed; it never raises. *)
Lemma installed_check_cases (d : Decision) (st : St) :
  (exists st', installed_check args w (lock_path args it) d st = (Val tt, st')) \/
  (exists st', installed_check args w (lock_path args it) d st = (Next, st') /\
               lookup (lock_path args it) (locks st') = None).
Proof.
  unfold installed_check.
  destruct (check_installed args); [|left; eexists; reflexivity].
  destruct (w_installed w) as [v|]; [|left; eexists; reflexivity].
  destruct (String.eqb v (d_newest d)); [left; eexists; reflexivity|].
  destruct (labelCompare v (d_newest_tilde d) >? 0)%Z.
  - right. unfold bind, print_debug, print_fail, emit, continue. simpl.
    match goal with
    | |- context [unlock_file ?p ?s] =>
        destruct (MonadFacts.unlock_file_absent p s) as [Hv Hl];
        destruct (unlock_file p s) as [r st2]; simpl in Hv, Hl; subst r
    end.
    eexists. split; [reflexivity | exact Hl].
  - left. eexists. reflexivity.
Qed.

Lemma package_body_after (st st1 : St) (d : Decision) :
  resolve args w it st = (Val d, st1) ->
  package_body args w it st =
    (installed_check args w (lock_path args it) d ;;
     after_installed_check args w it d) st1.
Proof.
  intros Hres. unfold package_body. unfold bind at 1. now rewrite Hres.
Qed.

(** Two continuations that agree give the same run. *)
Lemma bind_ext (A B : Type) (m : M A) (k k' : A -> M B) (st : St) :
  (forall x s, k x s = k' x s) -> bind m k st = bind m k' st.
Proof. intros H. unfold bind. destruct (m st) as [[x| |e] s]; auto. Qed.

Lemma guard_blocks (d : Decision) (nv nvt : string) (st : St) :
  relax_version_checks args = false ->
  d_new d = Some (nv, nvt) -> nv <> "" ->
  major nv <> major (d_version_dot d) ->
  after_installed_check args w it d st =
    (print_fail "Cannot update major version numbers" [] ;;
     unlock_file (lock_path args it) ;; continue) st.
Proof.
  intros Hrelax Hnew Hnv Hmajor.
  assert (truthy nv = true) as T.
  { unfold truthy. apply negb_true_iff, String.eqb_neq, Hnv. }
  assert (String.eqb (major nv) (major (d_version_dot d)) = false) as X
    by now apply String.eqb_neq.
  unfold after_installed_check, need_update. rewrite Hnew.
  unfold bind at 1. unfold ret at 1. cbv beta iota. cbn [fst snd].
  unfold major_guard. rewrite Hrelax, T, X. cbn [negb].
  fold (lock_path args it).
  unfold bind, print_fail, emit, continue, unlock_file. simpl.
  now destruct (lookup (lock_path args it) (locks st)).
Qed.

Lemma guard_relaxed (d : Decision) (nv nvt : string) (st : St) :
  relax_version_checks args = true ->
  d_new d = Some (nv, nvt) -> nv <> "" ->
  after_installed_check args w it d st =
    (print_debug "Updating major version number, but ignoring" [] ;;
     apply_update args w it d nv nvt) st.
Proof.
  intros Hrelax Hnew Hnv.
  assert (truthy nv = true) as T.
  { unfold truthy. apply negb_true_iff, String.eqb_neq, Hnv. }
  unfold after_installed_check, need_update. rewrite Hnew.
  unfold bind at 1. unfold ret at 1. cbv beta iota. cbn [fst snd].
  unfold major_guard. rewrite Hrelax, T. reflexivity.
Qed.

(** A run that ends in the check of the installed version or right after
    it: quiet, finished with [continue], lock file removed. *)
Lemma stops_quietly (st st1 : St) (d : Decision) (stop : M unit) :
  resolve args w it st = (Val d, st1) ->
  (forall s, fst (stop s) = Next /\ extends_by quiet s (snd (stop s)) /\
             lookup (lock_path args it) (locks (snd (stop s))) = None) ->
  let run := (installed_check args w (lock_path args it) d ;; stop) st1 in
  fst run = Next /\ extends_by quiet st (snd run) /\
  lookup (lock_path args it) (locks (snd run)) = None.
Proof.
  intros Hres Hstop run. subst run.
  pose proof (resolve_quiet args w it st) as Q0. rewrite Hres in Q0. simpl in Q0.
  pose proof (installed_check_quiet args w (lock_path args it) d st1) as Q1.
  destruct (installed_check_cases d st1) as [(st2 & Hc) | (st2 & Hc & Hl)].
  - erewrite MonadFacts.bind_val by exact Hc. rewrite Hc in Q1. simpl in Q1.
    destruct (Hstop st2) as (Hn & Hq & Hl). repeat split; trivial.
    eapply MonadFacts.extends_trans; [exact Q0|].
    eapply MonadFacts.extends_trans; [exact Q1 | exact Hq].
  - erewrite MonadFacts.bind_next by exact Hc. rewrite Hc in Q1. simpl in *.
    repeat split; trivial.
    eapply MonadFacts.extends_trans; [exact Q0 | exact Q1].
Qed.

End AfterDecision.

(** C6 (amended). The guard of lines 336-342 compares the first
    dot-delimited component of the new remote version with that of
    [version_dot], the version of the spec file with a pre-release marker
    [~alpha], [~beta] or [~rc] turned back into its dotted form.  When a run
    has decided on an update to a non-empty version whose first component
    differs from it: without [--relax-version-checks] the run ends with
    [continue] after the failure message, having produced no update event
    (no tarball download, no upload, no rewrite of the spec file, no
    commit, no push, no build) and with the lock file removed; with
    [--relax-version-checks] it goes on to the update. *)
Theorem major_version_guard {E : Extern} (args : Args) (w : World) (it : Item)
  (st st1 : St) (d : Decision) (nv nvt : string) :
  resolve args w it st = (Val d, st1) ->
  d_new d = Some (nv, nvt) ->
  nv <> "" ->
  major nv <> major (d_version_dot d) ->
  let lock := lock_path args it in
  let run := package_body args w it st in
  if relax_version_checks args then
    run = (installed_check args w lock d ;;
           print_debug "Updating major version number, but ignoring" [] ;;
           apply_update args w it d nv nvt) st1
  else
    run = (installed_check args w lock d ;;
           print_fail "Cannot update major version numbers" [] ;;
           unlock_file lock ;; continue) st1 /\
    fst run = Next /\
    extends_by quiet st (snd run) /\
    lookup lock (locks (snd run)) = None.
Proof.
  intros Hres Hnew Hnv Hmajor lock run. subst lock run.
  rewrite (package_body_after _ _ _ _ Hres).
  destruct (relax_version_checks args) eqn:R.
  - apply bind_ext. intros [] s. now apply guard_relaxed.
  - assert ((installed_check args w (lock_path args it) d ;;
             after_installed_check args w it d) st1 =
            (installed_check args w (lock_path args it) d ;;
             print_fail "Cannot update major version numbers" [] ;;
             unlock_file (lock_path args it) ;; continue) st1) as ->.
    { apply bind_ext. intros [] s.
      now apply guard_blocks with (nv := nv) (nvt := nvt). }
    split; [reflexivity|].
    apply stops_quietly with (d := d) (stop :=
      (print_fail "Cannot update major version numbers" [] ;;
       unlock_file (lock_path args it) ;; continue)); [exact Hres|].
    intros s. unfold bind, print_fail, emit, continue. simpl.
    match goal with
    | |- context [unlock_file ?p ?s0] =>
        destruct (MonadFacts.unlock_file_absent p s0) as [Hv Hl];
        pose proof (MonadFacts.emits_unlock quiet p eq_refl s0) as Hq;
        destruct (unlock_file p s0) as [r s2]; simpl in Hv, Hl, Hq; subst r
    end.
    simpl. repeat split; trivial.
    eapply MonadFacts.extends_trans; [|exact Hq].
    eapply MonadFacts.extends_one; [reflexivity | reflexivity].
Qed.

(** C4 (amended). With [--check-installed] and an installed version of
    the package: when it is the very string of the newest accepted remote
    version, the run only logs that it is up to date and goes on with the
    ordinary decision (it is skipped only if the spec file needs no
    update); when it differs from it and compares above the normalised
    newest remote version, the run reports the configuration problem and
    ends with [continue], having produced no update event and with the
    lock file removed; otherwise the run goes on. *)
Theorem installed_version_check {E : Extern} (args : Args) (w : World) (it : Item)
  (st st1 : St) (d : Decision) (installed_ver : string) :
  check_installed args = true ->
  resolve args w it st = (Val d, st1) ->
  w_installed w = Some installed_ver ->
  let lock := lock_path args it in
  let run := package_body args w it st in
  if String.eqb installed_ver (d_newest d) then
    run = (print_debug "installed version is up to date" [] ;;
           after_installed_check args w it d) st1
  else if (labelCompare installed_ver (d_newest_tilde d) >? 0)%Z then
    run = (print_debug "installed version is %s" [AStr installed_ver] ;;
           print_fail "installed version is newer than gnome branch version" [] ;;
           print_fail "check modules.xml is looking at the correct branch" [] ;;
           unlock_file lock ;; continue) st1 /\
    fst run = Next /\
    extends_by quiet st (snd run) /\
    lookup lock (locks (snd run)) = None
  else
    run = (print_debug "installed version is %s" [AStr installed_ver] ;;
           after_installed_check args w it d) st1.
Proof.
  intros Hci Hres Hinst lock run. subst lock run.
  rewrite (package_body_after _ _ _ _ Hres).
  unfold installed_check. rewrite Hci, Hinst.
  destruct (String.eqb installed_ver (d_newest d)); [reflexivity|].
  destruct (labelCompare installed_ver (d_newest_tilde d) >? 0)%Z eqn:C.
  - pose proof (resolve_quiet args w it st) as Q0. rewrite Hres in Q0. simpl in Q0.
    unfold bind, print_debug, print_fail, emit, continue. simpl.
    match goal with
    | |- context [unlock_file ?p ?s0] =>
        destruct (MonadFacts.unlock_file_absent p s0) as [Hv Hl];
        pose proof (MonadFacts.emits_unlock quiet p eq_refl s0) as Hq;
        destruct (unlock_file p s0) as [r s2]; simpl in Hv, Hl, Hq; subst r
    end.
    simpl. repeat split; trivial.
    eapply MonadFacts.extends_trans; [exact Q0|].
    eapply MonadFacts.extends_trans; [|exact Hq].
    exists [ELog Debug "installed version is %s" [AStr installed_ver];
            ELog Fail "installed version is newer than gnome branch version" [];
            ELog Fail "check modules.xml is looking at the correct branch" []].
    split; [simpl; now rewrite <- !app_assoc | reflexivity].
  - unfold bind, print_debug, emit, ret. reflexivity.
Qed.

(** ** The spec file *)

Section Descriptor.
Import Py.

Lemma rsplit1_some (c : ascii) (s pre post : string) :
  rsplit1 c s = Some (pre, post) ->
  s = pre ++ String c post /\ contains_char c post = false.
Proof.
  revert pre post; induction s as [|a t IH]; simpl; intros pre post; [discriminate|].
  destruct (rsplit1 c t) as [[pre' post']|] eqn:R.
  - intros [= <- <-]. destruct (IH _ _ eq_refl) as [-> Hp]. now split.
  - destruct (Ascii.eqb a c) eqn:A; [|discriminate].
    intros [= <- <-]. apply Ascii.eqb_eq in A. subst a. split; [reflexivity|].
    clear IH. induction t as [|b t IHt]; simpl in *; [reflexivity|].
    destruct (rsplit1 c t) as [[? ?]|]; [discriminate|].
    destruct (Ascii.eqb b c); [discriminate|]. simpl. now apply IHt.
Qed.

Lemma rsplit1_found (c : ascii) (s : string) :
  contains_char c s = true -> exists pre post, rsplit1 c s = Some (pre, post).
Proof.
  induction s as [|a t IH]; simpl; [discriminate|].
  destruct (rsplit1 c t) as [[pre post]|]; [eauto|].
  destruct (Ascii.eqb a c); simpl; [eauto|]. intros H.
  destruct (IH H) as (? & ? & ?). discriminate.
Qed.

(** The value replacement keeps the line up to and including the
    character it cuts at. *)
Lemma replace_spec_value_cut (c : ascii) (line replace : string) :
  contains_char c line = true ->
  exists pre post,
    line = pre ++ String c post /\ contains_char c post = false /\
    rsplit1_head c line ++ String c replace = pre ++ String c replace.
Proof.
  intros H. destruct (rsplit1_found c line H) as (pre & post & R).
  destruct (rsplit1_some _ _ R) as [Hl Hp].
  exists pre, post. unfold rsplit1_head. now rewrite R.
Qed.

Lemma release_not_source (line : string) :
  startswith line "Release:" = true ->
  startswith line "Version:" = false /\ startswith line "Source:" = false /\
  startswith line "Source0:" = false.
Proof.
  destruct line as [|c t]; [discriminate|].
  unfold startswith. cbn [strip_prefix].
  destruct (Ascii.eqb "R" c) eqn:A; [|discriminate].
  apply Ascii.eqb_eq in A. subst c. intros _. repeat split; reflexivity.
Qed.

Context {E : Extern}.
Variables version_dot new_version new_version_tilde : string.

Lemma rewrite_line_other (line : string) :
  recognized line = false ->
  rewrite_line version_dot new_version new_version_tilde line = inr line.
Proof.
  unfold recognized, rewrite_line. intros H.
  apply orb_false_iff in H as [H S0]. apply orb_false_iff in H as [H S].
  apply orb_false_iff in H as [V R]. now rewrite V, R, S, S0.
Qed.

Lemma rewrite_spec_frame (lines out : list string) :
  rewrite_spec version_dot new_version new_version_tilde lines = inr out ->
  List.length out = List.length lines /\
  forall i line, nth_error lines i = Some line -> recognized line = false ->
                 nth_error out i = Some line.
Proof.
  revert out; induction lines as [|l lines IH]; simpl; intros out.
  - intros [= <-]. split; [reflexivity|]. intros [|i] ?; discriminate.
  - destruct (rewrite_line version_dot new_version new_version_tilde l)
      as [e|l'] eqn:L; [discriminate|].
    destruct (rewrite_spec version_dot new_version new_version_tilde lines)
      as [e|rest] eqn:R; [discriminate|].
    intros [= <-]. destruct (IH _ eq_refl) as [Hlen Hnth]. split.
    + simpl. now rewrite Hlen.
    + intros [|i] line; simpl.
      * intros [= ->] Hr. rewrite (rewrite_line_other _ Hr) in L. congruence.
      * apply Hnth.
Qed.

Lemma source_not_value (line : string) :
  startswith line "Source:" || startswith line "Source0:" = true ->
  startswith line "Version:" = false /\ startswith line "Release:" = false.
Proof.
  destruct line as [|c t]; [discriminate|].
  unfold startswith. cbn [strip_prefix].
  destruct (Ascii.eqb "S" c) eqn:A; [|discriminate].
  apply Ascii.eqb_eq in A. subst c. intros _. split; reflexivity.
Qed.

Lemma contains_char_app (c : ascii) (a b : string) :
  contains_char c (a ++ b) = contains_char c a || contains_char c b.
Proof.
  induction a as [|x a IH]; simpl; [reflexivity|]. now rewrite IH, orb_assoc.
Qed.

Lemma rewrite_spec_identity (lines : list string) :
  existsb recognized lines = false ->
  rewrite_spec version_dot new_version new_version_tilde lines = inr lines.
Proof.
  induction lines as [|l lines IH]; simpl; [reflexivity|].
  intros H. apply orb_false_iff in H as [Hl Hr].
  now rewrite (rewrite_line_other _ Hl), (IH Hr).
Qed.

Lemma concat_cons (x : string) (l : list string) :
  String.concat "" (x :: l) = x ++ String.concat "" l.
Proof.
  destruct l as [|y l]; simpl; [now rewrite PyFacts.append_nil_r | reflexivity].
Qed.

(** The lines of a file, one after the other, are its text. *)
Lemma concat_file_lines (s : string) : String.concat "" (file_lines s) = s.
Proof.
  induction s as [|c t IH]; [reflexivity|]. cbn [file_lines].
  destruct (Ascii.eqb c newline).
  - rewrite concat_cons, IH. reflexivity.
  - destruct (file_lines t) as [|l r].
    + simpl in IH. now subst t.
    + rewrite concat_cons in *. cbn [append]. now rewrite IH.
Qed.

Lemma universal_newlines_clean (s : string) :
  contains_char carriage_return (universal_newlines s) = false.
Proof.
  assert (forall n s, String.length s <= n ->
            contains_char carriage_return (universal_newlines s) = false) as G.
  { clear s. induction n as [|n IH]; intros s Hn.
    - destruct s; [reflexivity | simpl in Hn; lia].
    - destruct s as [|c t]; [reflexivity|]. cbn [universal_newlines].
      simpl in Hn. destruct (Ascii.eqb c carriage_return) eqn:C.
      + destruct t as [|c' t']; [reflexivity|].
        destruct (Ascii.eqb c' newline); cbn [contains_char];
          rewrite IH by (simpl in *; lia); reflexivity.
      + cbn [contains_char]. rewrite C. apply IH. lia. }
  apply (G (String.length s)). lia.
Qed.

Lemma universal_newlines_same (s : string) :
  contains_char carriage_return s = false -> universal_newlines s = s.
Proof.
  induction s as [|c t IH]; [reflexivity|]. cbn [contains_char universal_newlines].
  intros H. apply orb_false_iff in H as [C Ht]. rewrite C. now rewrite IH.
Qed.

Lemma rewrite_file_identity (text : string) :
  existsb recognized (read_lines text) = false ->
  rewrite_file version_dot new_version new_version_tilde text =
    inr (universal_newlines text).
Proof.
  intros H. unfold rewrite_file. rewrite (rewrite_spec_identity _ H).
  unfold read_lines. now rewrite concat_file_lines.
Qed.

End Descriptor.

(** C8 (amended). The rewrite of the spec file (lines 373-385) works on
    the lines that Python's text layer yields, in which every [\r\n] and
    every [\r] alone of the file has become [\n], and writes the lines it
    makes one after the other.  Every line that does not begin with
    [Version:], [Release:], [Source:] or [Source0:] is copied as the text
    layer yielded it, line for line; a file without such a line comes
    back as its text with the line ends translated, which is the text
    itself exactly when it has no [\r]; and where a value is replaced
    ([replace_spec_value], on a [Version:] line and on a [Release:] line
    without [autorelease]) the result is the line up to and including the
    separator it cut at (the last space if the line has one, else the last
    tab) followed by the new value. *)
Theorem descriptor_rewrite_frame {E : Extern}
  (version_dot new_version new_version_tilde : string) :
  (forall lines out,
     rewrite_spec version_dot new_version new_version_tilde lines = inr out ->
     List.length out = List.length lines /\
     forall i line, nth_error lines i = Some line -> recognized line = false ->
                    nth_error out i = Some line) /\
  (forall text,
     existsb recognized (read_lines text) = false ->
     rewrite_file version_dot new_version new_version_tilde text =
       inr (universal_newlines text)) /\
  (forall text,
     String.concat "" (read_lines text) = universal_newlines text /\
     (universal_newlines text = text <->
      Py.contains_char carriage_return text = false)) /\
  (forall line,
     Py.startswith line "Version:" = true ->
     rewrite_line version_dot new_version new_version_tilde line =
       inr (replace_spec_value line (new_version_tilde ++ nl))) /\
  (forall line,
     Py.startswith line "Release:" = true ->
     Py.contains "autorelease" line = false ->
     rewrite_line version_dot new_version new_version_tilde line =
       inr (replace_spec_value line ("0%{?dist}" ++ nl))) /\
  (forall line replace,
     Py.contains_char " " line = true ->
     exists pre post,
       line = pre ++ String " " post /\ Py.contains_char " " post = false /\
       replace_spec_value line replace = pre ++ String " " replace) /\
  (forall line replace,
     Py.contains_char " " line = false ->
     Py.contains_char Py.tab line = true ->
     exists pre post,
       line = pre ++ String Py.tab post /\ Py.contains_char Py.tab post = false /\
       replace_spec_value line replace = pre ++ String Py.tab replace).
Proof.
  split; [intros lines out H; eapply rewrite_spec_frame; exact H|].
  split; [intros; now apply rewrite_file_identity|].
  split.
  { intros text. split; [apply concat_file_lines|]. split.
    - intros H. rewrite <- H. apply universal_newlines_clean.
    - apply universal_newlines_same. }
  split; [intros line V; unfold rewrite_line; now rewrite V|].
  split.
  { intros line R A. unfold rewrite_line.
    destruct (release_not_source line R) as (V & _). now rewrite V, R, A. }
  split.
  - intros line replace Hs. unfold replace_spec_value. rewrite Hs.
    now apply replace_spec_value_cut.
  - intros line replace Hs Ht. unfold replace_spec_value. rewrite Hs, Ht.
    now apply replace_spec_value_cut.
Qed.

(** C10. On a line with neither a space nor a tab [replace_spec_value]
    returns the line as it is, whatever the replacement; so the rewrite
    leaves a [Version:] or [Release:] line unchanged when the line has no
    space and no tab, that is when nothing separates the key from the
    value. *)
Theorem replace_spec_value_needs_separator {E : Extern}
  (version_dot new_version new_version_tilde line replace : string) :
  Py.contains_char " " line = false ->
  Py.contains_char Py.tab line = false ->
  replace_spec_value line replace = line /\
  (if Py.startswith line "Version:" || Py.startswith line "Release:"
   then rewrite_line version_dot new_version new_version_tilde line = inr line
   else True).
Proof.
  intros Hs Ht.
  assert (forall r, replace_spec_value line r = line) as R.
  { intros r. unfold replace_spec_value. now rewrite Hs, Ht. }
  split; [apply R|].
  unfold rewrite_line.
  destruct (Py.startswith line "Version:") eqn:V; simpl; [now rewrite R|].
  destruct (Py.startswith line "Release:") eqn:L; [|exact I].
  destruct (release_not_source line L) as (_ & S & S0). rewrite S, S0.
  destruct (Py.contains "autorelease" line); simpl; [reflexivity | now rewrite R].
Qed.

(** ** Concrete runs *)

Module Runs.
Import Scenario.

Example tilde_rc : tilde "3.10.rc" = "3.10~rc".
Proof. reflexivity. Qed.

Example tilde_takes_back_a_digit : tilde "12alpha" = "1~alpha".
Proof. reflexivity. Qed.

Example version_dot_rc : version_dot_of "40~rc" = "40.rc".
Proof. reflexivity. Qed.

Example majorminor_40 : majorminor "40.rc" = Some "40" /\ majorminor "3.44.1" = Some "3.44"
                        /\ majorminor "43" = None.
Proof. repeat split; reflexivity. Qed.

Example ordering_sample :
  Model.rpmvercmp "3.9.90" "3.10.0" = (-1)%Z /\
  Model.rpmvercmp "3.10.0" "3.10.1" = (-1)%Z /\
  Model.rpmvercmp "3.10.0~rc" "3.10.0" = (-1)%Z /\
  Model.rpmvercmp "3.10.0" "3.10.0" = 0%Z.
Proof. repeat split; reflexivity. Qed.

Example replace_version_spaces :
  replace_spec_value ("Version:        3.44.0" ++ nl) ("3.44.1" ++ nl) =
  "Version:        3.44.1" ++ nl.
Proof. reflexivity. Qed.

Example replace_release_tab :
  replace_spec_value ("Release:" ++ String Py.tab ("7%{?dist}" ++ nl)) ("0%{?dist}" ++ nl) =
  "Release:" ++ String Py.tab ("0%{?dist}" ++ nl).
Proof. reflexivity. Qed.

(** The scenario of §8 resolves to 3.44.1. *)
Example resolves_344 :
  fst (@resolve Model.extern args world_344 item_344 initial) = Val decision_344.
Proof. vm_compute. reflexivity. Qed.

(** [pid] survives from one package to the next: after the stale lock of
    the first package, the lock of the second one, which holds no number,
    is reported under the number of the first and then taken over. *)
Example stale_pid_is_reused :
  let run := @package_loop Model.extern args
               [(item_a, world_a); (item_b, world_b)] two_locks in
  fst run = None /\
  In (ELog Fail "Process with PID %i locked but did not release" [AInt 999])
     (after_unlink "cache/glib2-mclazy.lock" (trace (snd run))) /\
  In (ELockWrite "cache/gtk4-mclazy.lock" "4242") (trace (snd run)).
Proof. vm_compute. intuition. Qed.

End Runs.

(** ** No lock file is left behind *)

Module LockFacts.

Section Releases.
Variable path : string.

Lemma releases_never (A : Type) (m : M A) :
  (forall st, fst (m st) <> Next) -> releases path m.
Proof. intros H st E'. now destruct (H st). Qed.

Lemma releases_bind (A B : Type) (m : M A) (k : A -> M B) :
  releases path m -> (forall x, releases path (k x)) -> releases path (bind m k).
Proof.
  intros Hm Hk st. unfold bind. specialize (Hm st).
  destruct (m st) as [[x| |e] st1]; simpl in *;
    [apply Hk | intros _; now apply Hm | discriminate].
Qed.

Lemma releases_unlock_continue (A : Type) :
  releases path (unlock_file path ;; @continue A).
Proof.
  intros st _. left. unfold bind, continue.
  destruct (MonadFacts.unlock_file_absent path st) as [Hv Hl].
  destruct (unlock_file path st) as [r st1]. simpl in *. now subst r.
Qed.

Lemma releases_ignoring (A : Type) (args : list Arg) :
  releases path
    (print_info "Ignoring as another process (PID %i) has this" args ;;
     @continue A).
Proof.
  intros st _. right. unfold bind, print_info, emit, continue. simpl.
  rewrite existsb_app. simpl. apply orb_true_r.
Qed.

Lemma finishes_bind (A B : Type) (m : M A) (k : A -> M B) :
  (forall x, finishes_unlocked path (k x)) -> finishes_unlocked path (bind m k).
Proof.
  intros Hk st y. unfold bind.
  destruct (m st) as [[x| |e] st1]; simpl; [apply Hk | discriminate | discriminate].
Qed.

Lemma finishes_unlock : finishes_unlocked path (unlock_file path).
Proof. intros st x _. apply MonadFacts.unlock_file_absent. Qed.

End Releases.

Ltac never_next :=
  apply releases_never; intros ?;
  unfold ret, raise, emit, print_debug, print_info, print_fail,
         unlock_file, write_lock, run_command, lock_content,
         assign_pid, read_pid, start_package; cbn [fst];
  repeat match goal with
         | |- context [match ?x with _ => _ end] => destruct x; cbn [fst]
         end;
  discriminate.

Ltac releases_step :=
  lazymatch goal with
  | |- releases _ (unlock_file _ ;; continue) => apply releases_unlock_continue
  | |- releases _ (print_info _ _ ;; continue) => apply releases_ignoring
  | |- releases _ (ret _) => never_next
  | |- releases _ (raise _) => never_next
  | |- releases _ (emit _) => never_next
  | |- releases _ (print_debug _ _) => never_next
  | |- releases _ (print_info _ _) => never_next
  | |- releases _ (print_fail _ _) => never_next
  | |- releases _ (unlock_file _) => never_next
  | |- releases _ (write_lock _ _) => never_next
  | |- releases _ (run_command _ _ _) => never_next
  | |- releases _ (lock_content _) => never_next
  | |- releases _ (assign_pid _) => never_next
  | |- releases _ read_pid => never_next
  | |- releases _ start_package => never_next
  | |- releases _ (bind _ _) => apply releases_bind; [|intros ?]
  | |- releases _ (if ?b then _ else _) => destruct b
  | |- releases _ (match ?x with _ => _ end) => destruct x
  end.

Section Body.
Context {E : Extern}.
Variable args : Args.
Variable w : World.
Variable it : Item.

Lemma fetch_json_never_next (url dest : string) (tries : list nat) (st : St) :
  fst (fetch_json w url dest tries st) <> Next.
Proof. rewrite fetch_json_result. discriminate. Qed.

Lemma newest_loop_never_next (lock_filename gnome_branch : string)
  (vs : list string) (newest : string * string) (st : St) :
  fst (newest_loop lock_filename gnome_branch vs newest st) <> Next.
Proof.
  destruct (newest_loop_value lock_filename gnome_branch vs newest st)
    as (st' & -> & _). discriminate.
Qed.

Lemma resolve_releases : releases (lock_path args it) (resolve args w it).
Proof.
  unfold resolve, lock_path, acquire, checkout, current_version, find_newest,
    switch_branch_and_reset.
  repeat releases_step;
    apply releases_never;
    first [ apply fetch_json_never_next | apply newest_loop_never_next ].
Qed.

Lemma after_decision_releases (d : Decision) :
  releases (lock_path args it) (after_decision args w it d).
Proof.
  unfold after_decision, installed_check, after_installed_check, need_update,
    major_guard, apply_update, fetch_tarball, prep_spec, publish, lock_path,
    sync_to_rawhide_branch, switch_branch_and_reset.
  repeat releases_step.
Qed.

Lemma after_decision_finishes (d : Decision) :
  finishes_unlocked (lock_path args it) (after_decision args w it d).
Proof.
  unfold after_decision, after_installed_check, apply_update, publish, lock_path.
  repeat (apply finishes_bind; intros ?). apply finishes_unlock.
Qed.

(** Whatever the outside world answers, a turn of the package loop that
    does not raise ends with the lock file of the package removed, unless
    it found the lock held by a live process and left it alone. *)
Lemma no_lock_left_behind (st : St) :
  match fst (package_body args w it st) with
  | Val _ => lookup (lock_path args it) (locks (snd (package_body args w it st))) = None
  | Next =>
      lookup (lock_path args it) (locks (snd (package_body args w it st))) = None \/
      existsb is_ignoring (trace (snd (package_body args w it st))) = true
  | Raise _ => True
  end.
Proof.
  destruct (fst (package_body args w it st)) as [x| |e] eqn:R; [| |exact I].
  - revert R. apply (finishes_bind (path := lock_path args it)).
    apply after_decision_finishes.
  - revert R. apply (releases_bind (path := lock_path args it)).
    + apply resolve_releases.
    + apply after_decision_releases.
Qed.

End Body.
End LockFacts.

(** C1. The scenario of §8 (spec file at 3.44.0; 3.44.0, 3.44.1 and
    3.45.0 published; the branch accepts [3.44.*]) with every command
    succeeding: the run takes the lock, and the [unlock_file] of line 292
    removes it as soon as the loop meets 3.45.0, which the glob refuses;
    the spec file is then rewritten, committed and pushed with no lock
    file in place, and the lock is never taken again. *)
Theorem lock_removed_before_the_update :
  let run := @package_body Model.extern Scenario.args Scenario.world_344
                           Scenario.item_344 initial in
  let lock := lock_path Scenario.args Scenario.item_344 in
  let later := after_unlink lock (trace (snd run)) in
  fst run = Val tt /\
  existsb (is_lock_write lock) (trace (snd run)) = true /\
  existsb is_spec_write later = true /\
  existsb (is_cmd "git" "commit") later = true /\
  existsb (is_cmd "git" "push") later = true /\
  existsb (is_lock_write lock) later = false.
Proof. vm_compute. repeat split; reflexivity. Qed.

(** C2. The first package of a run finds a lock file that holds
    ["locked"]: [int] refuses it, [pid] was never assigned, and the
    message of line 202 raises [UnboundLocalError].  The lock file is left
    as it was and nothing else happens. *)
Theorem garbage_lock_raises :
  let run := @package_body Model.extern Scenario.args Scenario.world_344
                           Scenario.item_344 Scenario.garbage_lock in
  let lock := lock_path Scenario.args Scenario.item_344 in
  lookup lock (locks Scenario.garbage_lock) = Some "locked" /\
  py_int "locked" = None /\
  fst run = Raise UnboundLocalError /\
  locks (snd run) = locks Scenario.garbage_lock /\
  existsb (is_failure "Process with PID %i locked but did not release")
          (trace (snd run)) = false /\
  existsb (is_lock_write lock) (trace (snd run)) = false.
Proof. vm_compute. repeat split; reflexivity. Qed.

(** C3. On a network that refuses the first 19 tries and would answer
    the twentieth, the run makes 19 tries, each followed by its failure
    message, and gives up: it ends with [continue] and the lock file
    removed.  There is no twentieth try. *)
Theorem json_fetch_stops_after_19_tries :
  let run := @package_body Model.extern Scenario.args Scenario.world_344_slow
                           Scenario.item_344 initial in
  let lock := lock_path Scenario.args Scenario.item_344 in
  w_fetch_ok Scenario.world_344_slow 20 = true /\
  List.length range_1_20 = 19 /\
  fst run = Next /\
  List.length (filter is_json_fetch (trace (snd run))) = 19 /\
  List.length (filter (is_failure "Failed to get JSON on try %i: %s")
                      (trace (snd run))) = 19 /\
  lookup lock (locks (snd run)) = None.
Proof. vm_compute. repeat split; reflexivity. Qed.

(** ** [--simulate] *)

Lemma quiet_local_only (e : Event) : quiet e = true -> local_only e = true.
Proof.
  unfold quiet, local_only, updating, is_cmd.
  destruct e as [| cwd argv rc | | | | |]; try reflexivity; try discriminate.
  destruct argv as [|p [|s r]]; try reflexivity.
  unfold updating_argv.
  destruct (String.eqb p "fedpkg") eqn:F, (String.eqb p "git") eqn:G; simpl.
  - apply String.eqb_eq in F, G. congruence.
  - destruct (String.eqb s "co") eqn:C; [|discriminate].
    apply String.eqb_eq in C. subst s. reflexivity.
  - destruct (String.eqb s "push"); [|reflexivity].
    rewrite !orb_true_r. discriminate.
  - reflexivity.
Qed.

Ltac exits_now :=
  intros ?; unfold bind, print_debug, print_info, print_fail, emit,
                   unlock_file, continue; simpl;
  match goal with
  | |- context [lookup ?p ?m] => destruct (lookup p m)
  end; eexists; reflexivity.

Ltac local_step :=
  first
    [ apply MonadFacts.emits_bind_exit; [|solve [exits_now]]
    | emits_step ].

(** With [--simulate] a run uploads no sources and pushes nothing,
    whatever the outside world answers. *)
Lemma simulate_stays_local {E : Extern} (args : Args) (w : World) (it : Item) :
  simulate args = true -> emits local_only (package_body args w it).
Proof.
  intros Hsim. unfold package_body.
  apply MonadFacts.emits_bind.
  { apply MonadFacts.emits_weaken with (P := quiet);
      [exact quiet_local_only | apply resolve_quiet]. }
  intros d. unfold after_decision. apply MonadFacts.emits_bind.
  { apply MonadFacts.emits_weaken with (P := quiet);
      [exact quiet_local_only | apply installed_check_quiet]. }
  intros _. unfold after_installed_check, need_update, major_guard, apply_update,
    fetch_tarball, prep_spec, publish.
  rewrite Hsim. cbn [negb].
  unfold print_debug, print_info, print_fail. repeat local_step.
Qed.

(** C7. The scenario of §8 with [--simulate]: the new sources are not
    uploaded and nothing is pushed, but [git commit -a] is run (line 413
    is not under the test of [args.simulate]). *)
Theorem simulate_still_commits :
  let run := @package_body Model.extern (Scenario.args_with true false false)
                           Scenario.world_344 Scenario.item_344 initial in
  fst run = Next /\
  existsb (is_cmd "fedpkg" "new-sources") (trace (snd run)) = false /\
  existsb (is_cmd "git" "push") (trace (snd run)) = false /\
  existsb (is_cmd "git" "commit") (trace (snd run)) = true.
Proof. vm_compute. repeat split; reflexivity. Qed.

(** C4, as stated, fails: with [--check-installed] and 3.44.1 both
    installed and newest upstream, the run is not skipped; it rewrites the
    spec file, commits and pushes. *)
Lemma installed_equal_is_not_skipped :
  let a := Scenario.args_with false true false in
  let run := @package_body Model.extern a Scenario.world_344_installed
                           Scenario.item_344 initial in
  check_installed a = true /\
  w_installed Scenario.world_344_installed = Some "3.44.1" /\
  fst (@resolve Model.extern a Scenario.world_344_installed
                Scenario.item_344 initial) = Val Scenario.decision_344 /\
  d_newest Scenario.decision_344 = "3.44.1" /\
  existsb is_spec_write (trace (snd run)) = true /\
  existsb (is_cmd "git" "commit") (trace (snd run)) = true /\
  existsb (is_cmd "git" "push") (trace (snd run)) = true.
Proof. vm_compute. repeat split; reflexivity. Qed.

(** C5, as stated, fails: the branch accepts [40.*] and upstream has
    published [40.rc]; its normalised form [40~rc] matches no alternative
    of the glob, and the stage selects it all the same. *)
Lemma selected_version_normalised_form_unmatched :
  version_valid (H := Model.extern) "40.*" (tilde "40.rc") = false /\
  fst (@find_newest Model.extern "cache/gnome-shell-mclazy.lock" "40.*"
                    ["40.rc"] initial) = Val "40.rc".
Proof. vm_compute. split; reflexivity. Qed.

(** C6, as stated, fails: the spec file is at [40~rc], the newest
    accepted remote version is [40.0]; the first dot-delimited components
    ([40~rc] and [40]) differ and the guard is active, yet the run goes on
    to download the tarball, rewrite the spec file and commit. *)
Lemma prerelease_major_is_not_a_jump :
  let run := @package_body Model.extern Scenario.args Scenario.world_40
                           Scenario.item_40 initial in
  relax_version_checks Scenario.args = false /\
  w_spec_version Scenario.world_40 = Some "40~rc" /\
  option_map d_new
    (match fst (@resolve Model.extern Scenario.args Scenario.world_40
                         Scenario.item_40 initial) with
     | Val d => Some d
     | _ => None
     end) = Some (Some ("40.0", "40.0")) /\
  major "40.0" <> major "40~rc" /\
  fst run = Val tt /\
  existsb is_spec_write (trace (snd run)) = true /\
  existsb (is_cmd "git" "commit") (trace (snd run)) = true.
Proof. vm_compute. repeat split; try reflexivity. discriminate. Qed.

(** C8, as stated, fails: a spec file with the line ends of DOS and no
    recognised key is not copied byte for byte; the file that replaces it
    has [\n] where it had [\r\n]. *)
Lemma crlf_spec_file_is_changed :
  let text := "Name: gnome-shell" ++ String carriage_return nl ++
              "%description" ++ String carriage_return nl in
  existsb recognized (read_lines text) = false /\
  rewrite_file (H := Model.extern) "3.44.0" "3.44.1" "3.44.1" text =
    inr ("Name: gnome-shell" ++ nl ++ "%description" ++ nl) /\
  rewrite_file (H := Model.extern) "3.44.0" "3.44.1" "3.44.1" text <> inr text.
Proof. vm_compute. repeat split; try reflexivity. discriminate. Qed.

(** ** The theorems at work *)

Ltac decide_test H :=
  lazymatch type of H with
  | (if ?c then _ else _) =>
      let v := eval vm_compute in c in
      change c with v in H; cbv iota in H
  end.

(** The run of §8 with 3.45.0 installed and 3.44.1 the newest version
    the branch accepts. *)
Lemma installed_version_check_witness :
  (check_installed (Scenario.args_with false true false) = true /\
   @resolve Model.extern (Scenario.args_with false true false)
            Scenario.world_344_ahead Scenario.item_344 initial =
     (Val Scenario.decision_344,
      snd (@resolve Model.extern (Scenario.args_with false true false)
                    Scenario.world_344_ahead Scenario.item_344 initial)) /\
   w_installed Scenario.world_344_ahead = Some "3.45.0") /\
  (fst (@package_body Model.extern (Scenario.args_with false true false)
                      Scenario.world_344_ahead Scenario.item_344 initial) = Next /\
   extends_by quiet initial
     (snd (@package_body Model.extern (Scenario.args_with false true false)
                         Scenario.world_344_ahead Scenario.item_344 initial)) /\
   lookup (lock_path (Scenario.args_with false true false) Scenario.item_344)
     (locks (snd (@package_body Model.extern (Scenario.args_with false true false)
                                Scenario.world_344_ahead Scenario.item_344 initial)))
     = None).
Proof.
  assert (check_installed (Scenario.args_with false true false) = true) as H1
    by reflexivity.
  assert (@resolve Model.extern (Scenario.args_with false true false)
            Scenario.world_344_ahead Scenario.item_344 initial =
          (Val Scenario.decision_344,
           snd (@resolve Model.extern (Scenario.args_with false true false)
                         Scenario.world_344_ahead Scenario.item_344 initial))) as H2
    by (vm_compute; reflexivity).
  assert (w_installed Scenario.world_344_ahead = Some "3.45.0") as H3 by reflexivity.
  split; [exact (conj H1 (conj H2 H3))|].
  pose proof (installed_version_check _ _ _ _ H1 H2 H3) as T.
  cbv zeta in T. decide_test T. decide_test T.
  destruct T as (_ & Hn & Hq & Hl). exact (conj Hn (conj Hq Hl)).
Defined.

(** The versions of §8 under the glob [3.44.*]. *)
Lemma resolver_selects_newest_accepted_witness :
  consistent_on (H := Model.extern)
    (candidates (H := Model.extern) "3.44.*" ["3.44.0"; "3.44.1"; "3.45.0"]) = true /\
  (In "3.44.1" ["3.44.0"; "3.44.1"; "3.45.0"] /\
   version_valid (H := Model.extern) "3.44.*" "3.44.1" = true /\
   forall v, In v ["3.44.0"; "3.44.1"; "3.45.0"] ->
             version_valid (H := Model.extern) "3.44.*" v = true ->
             (Model.rpmvercmp (tilde v) (tilde "3.44.1") <= 0)%Z).
Proof.
  assert (consistent_on (H := Model.extern)
            (candidates (H := Model.extern) "3.44.*" ["3.44.0"; "3.44.1"; "3.45.0"])
          = true) as H1 by (vm_compute; reflexivity).
  split; [exact H1|].
  pose proof (@resolver_selects_newest_accepted Model.extern
                "cache/gnome-shell-mclazy.lock" "3.44.*"
                ["3.44.0"; "3.44.1"; "3.45.0"] initial H1) as T.
  assert (@find_newest Model.extern "cache/gnome-shell-mclazy.lock" "3.44.*"
            ["3.44.0"; "3.44.1"; "3.45.0"] initial =
          (Val "3.44.1",
           snd (@find_newest Model.extern "cache/gnome-shell-mclazy.lock" "3.44.*"
                  ["3.44.0"; "3.44.1"; "3.45.0"] initial))) as F
    by (vm_compute; reflexivity).
  rewrite F in T. exact T.
Defined.

(** A spec file at 3.9.0 whose branch accepts 4.0.0, with the guard
    active and with the guard relaxed. *)
Lemma major_version_guard_witness :
  (@resolve Model.extern Scenario.args Scenario.world_4 Scenario.item_4 initial =
     (Val Scenario.decision_4,
      snd (@resolve Model.extern Scenario.args Scenario.world_4
                    Scenario.item_4 initial)) /\
   d_new Scenario.decision_4 = Some ("4.0.0", "4.0.0") /\
   "4.0.0" <> "" /\
   major "4.0.0" <> major (d_version_dot Scenario.decision_4)) /\
  (fst (@package_body Model.extern Scenario.args Scenario.world_4
                      Scenario.item_4 initial) = Next /\
   extends_by quiet initial
     (snd (@package_body Model.extern Scenario.args Scenario.world_4
                         Scenario.item_4 initial)) /\
   lookup (lock_path Scenario.args Scenario.item_4)
     (locks (snd (@package_body Model.extern Scenario.args Scenario.world_4
                                Scenario.item_4 initial))) = None) /\
  @package_body Model.extern (Scenario.args_with false false true)
                Scenario.world_4 Scenario.item_4 initial =
    (installed_check (H := Model.extern) (Scenario.args_with false false true)
       Scenario.world_4
       (lock_path (Scenario.args_with false false true) Scenario.item_4)
       Scenario.decision_4 ;;
     print_debug "Updating major version number, but ignoring" [] ;;
     apply_update (H := Model.extern) (Scenario.args_with false false true)
       Scenario.world_4 Scenario.item_4 Scenario.decision_4 "4.0.0" "4.0.0")
    (snd (@resolve Model.extern (Scenario.args_with false false true)
                   Scenario.world_4 Scenario.item_4 initial)).
Proof.
  assert (@resolve Model.extern Scenario.args Scenario.world_4 Scenario.item_4 initial =
          (Val Scenario.decision_4,
           snd (@resolve Model.extern Scenario.args Scenario.world_4
                         Scenario.item_4 initial))) as H1
    by (vm_compute; reflexivity).
  assert (@resolve Model.extern (Scenario.args_with false false true)
            Scenario.world_4 Scenario.item_4 initial =
          (Val Scenario.decision_4,
           snd (@resolve Model.extern (Scenario.args_with false false true)
                         Scenario.world_4 Scenario.item_4 initial))) as H1'
    by (vm_compute; reflexivity).
  assert (d_new Scenario.decision_4 = Some ("4.0.0", "4.0.0")) as H2 by reflexivity.
  assert ("4.0.0" <> "") as H3 by discriminate.
  assert (major "4.0.0" <> major (d_version_dot Scenario.decision_4)) as H4
    by (vm_compute; discriminate).
  split; [exact (conj H1 (conj H2 (conj H3 H4)))|].
  pose proof (major_version_guard _ _ _ _ H1 H2 H3 H4) as T.
  pose proof (major_version_guard _ _ _ _ H1' H2 H3 H4) as T'.
  cbv zeta in T, T'. decide_test T. decide_test T'.
  destruct T as (_ & Hn & Hq & Hl).
  exact (conj (conj Hn (conj Hq Hl)) T').
Defined.

(** The spec file of the scenarios, updated from 3.44.0 to 3.46.0. *)
Lemma descriptor_rewrite_frame_witness :
  (rewrite_spec (H := Model.extern) "3.44.0" "3.46.0" "3.46.0"
     (Scenario.spec_lines "3.44" "3.44.0") =
     inr ["Name:           gnome-shell" ++ nl;
          "Version:        3.46.0" ++ nl;
          "Release:" ++ String Py.tab ("0%{?dist}" ++ nl);
          "Source0: https://download.gnome.org/sources/gnome-shell/3.46/%{name}-%{version}.tar.xz"
            ++ nl;
          "%description" ++ nl] /\
   nth_error (Scenario.spec_lines "3.44" "3.44.0") 4 = Some ("%description" ++ nl) /\
   recognized ("%description" ++ nl) = false) /\
  nth_error ["Name:           gnome-shell" ++ nl;
             "Version:        3.46.0" ++ nl;
             "Release:" ++ String Py.tab ("0%{?dist}" ++ nl);
             "Source0: https://download.gnome.org/sources/gnome-shell/3.46/%{name}-%{version}.tar.xz"
               ++ nl;
             "%description" ++ nl] 4 = Some ("%description" ++ nl) /\
  (existsb recognized (read_lines ("Name: gnome-shell" ++ nl ++ "%description" ++ nl))
     = false /\
   rewrite_file (H := Model.extern) "3.44.0" "3.46.0" "3.46.0"
     ("Name: gnome-shell" ++ nl ++ "%description" ++ nl) =
     inr (universal_newlines ("Name: gnome-shell" ++ nl ++ "%description" ++ nl))) /\
  (Py.startswith ("Version:        3.44.0" ++ nl) "Version:" = true /\
   rewrite_line (H := Model.extern) "3.44.0" "3.46.0" "3.46.0"
     ("Version:        3.44.0" ++ nl) =
     inr (replace_spec_value ("Version:        3.44.0" ++ nl) ("3.46.0" ++ nl))) /\
  (Py.contains_char " " ("Version:        3.44.0" ++ nl) = true /\
   exists pre post,
     "Version:        3.44.0" ++ nl = pre ++ String " " post /\
     Py.contains_char " " post = false /\
     replace_spec_value ("Version:        3.44.0" ++ nl) ("3.46.0" ++ nl) =
       pre ++ String " " ("3.46.0" ++ nl)) /\
  (Py.contains_char " " ("Release:" ++ String Py.tab ("7%{?dist}" ++ nl)) = false /\
   Py.contains_char Py.tab ("Release:" ++ String Py.tab ("7%{?dist}" ++ nl)) = true /\
   exists pre post,
     "Release:" ++ String Py.tab ("7%{?dist}" ++ nl) = pre ++ String Py.tab post /\
     Py.contains_char Py.tab post = false /\
     replace_spec_value ("Release:" ++ String Py.tab ("7%{?dist}" ++ nl))
                        ("0%{?dist}" ++ nl) =
       pre ++ String Py.tab ("0%{?dist}" ++ nl)).
Proof.
  destruct (@descriptor_rewrite_frame Model.extern "3.44.0" "3.46.0" "3.46.0")
    as (Frame & Ident & _ & Ver & _ & Space & Tab).
  assert (rewrite_spec (H := Model.extern) "3.44.0" "3.46.0" "3.46.0"
            (Scenario.spec_lines "3.44" "3.44.0") =
          inr ["Name:           gnome-shell" ++ nl;
               "Version:        3.46.0" ++ nl;
               "Release:" ++ String Py.tab ("0%{?dist}" ++ nl);
               "Source0: https://download.gnome.org/sources/gnome-shell/3.46/%{name}-%{version}.tar.xz"
                 ++ nl;
               "%description" ++ nl]) as H1 by (vm_compute; reflexivity).
  assert (nth_error (Scenario.spec_lines "3.44" "3.44.0") 4 =
          Some ("%description" ++ nl)) as H2 by reflexivity.
  assert (recognized ("%description" ++ nl) = false) as H3 by reflexivity.
  split; [exact (conj H1 (conj H2 H3))|].
  split; [exact (proj2 (Frame _ _ H1) 4 _ H2 H3)|].
  split.
  { assert (existsb recognized
              (read_lines ("Name: gnome-shell" ++ nl ++ "%description" ++ nl))
            = false) as H4 by reflexivity.
    split; [exact H4 | exact (Ident _ H4)]. }
  split.
  { assert (Py.startswith ("Version:        3.44.0" ++ nl) "Version:" = true) as H5
      by reflexivity.
    split; [exact H5 | exact (Ver _ H5)]. }
  split.
  { assert (Py.contains_char " " ("Version:        3.44.0" ++ nl) = true) as H6
      by reflexivity.
    split; [exact H6 | exact (Space _ ("3.46.0" ++ nl) H6)]. }
  assert (Py.contains_char " " ("Release:" ++ String Py.tab ("7%{?dist}" ++ nl))
          = false) as H7 by reflexivity.
  assert (Py.contains_char Py.tab ("Release:" ++ String Py.tab ("7%{?dist}" ++ nl))
          = true) as H8 by reflexivity.
  exact (conj H7 (conj H8 (Tab _ ("0%{?dist}" ++ nl) H7 H8))).
Defined.

(** A [Version:] line whose value follows the colon directly. *)
Lemma replace_spec_value_needs_separator_witness :
  (Py.contains_char " " ("Version:3.44.0" ++ nl) = false /\
   Py.contains_char Py.tab ("Version:3.44.0" ++ nl) = false) /\
  replace_spec_value ("Version:3.44.0" ++ nl) ("3.46.0" ++ nl) =
    "Version:3.44.0" ++ nl /\
  rewrite_line (H := Model.extern) "3.44.0" "3.46.0" "3.46.0"
    ("Version:3.44.0" ++ nl) = inr ("Version:3.44.0" ++ nl).
Proof.
  assert (Py.contains_char " " ("Version:3.44.0" ++ nl) = false) as H1 by reflexivity.
  assert (Py.contains_char Py.tab ("Version:3.44.0" ++ nl) = false) as H2
    by reflexivity.
  split; [split; assumption|].
  destruct (@replace_spec_value_needs_separator Model.extern
              "3.44.0" "3.46.0" "3.46.0" _ ("3.46.0" ++ nl) H1 H2) as [R T].
  decide_test T. split; [exact R | exact T].
Defined.

(** * More properties of the script *)

(** ** The number in the lock file *)

Module IntFacts.

Lemma rev_string_twice (s a b : string) :
  rev_string b (rev_string a s) = rev_string (s ++ b) a.
Proof.
  revert a; induction s as [|c t IH]; intros a; simpl; [reflexivity|].
  now rewrite IH.
Qed.

Lemma rev_string_involutive (s : string) : rev_string "" (rev_string "" s) = s.
Proof. rewrite rev_string_twice. simpl. apply PyFacts.append_nil_r. Qed.

Lemma all_rev_string (p : ascii -> bool) (s acc : string) :
  ReSpec.all p s = true -> ReSpec.all p acc = true ->
  ReSpec.all p (rev_string acc s) = true.
Proof.
  revert acc; induction s as [|c t IH]; intros acc Hs Ha; simpl; [exact Ha|].
  simpl in Hs. apply andb_true_iff in Hs as [Hc Ht].
  apply IH; [exact Ht | simpl; now rewrite Hc].
Qed.

Lemma span_nothing (p : ascii -> bool) (s : string) :
  ReSpec.all (fun c => negb (p c)) s = true -> Py.span p s = ("", s).
Proof.
  destruct s as [|c t]; simpl; [reflexivity|]. intros H.
  apply andb_true_iff in H as [Hc _]. apply negb_true_iff in Hc. now rewrite Hc.
Qed.

(** Text without white space is its own [strip]. *)
Lemma strip_no_space (s : string) :
  ReSpec.all (fun c => negb (is_space c)) s = true -> strip s = s.
Proof.
  intros H. unfold strip. rewrite (span_nothing _ _ H). simpl.
  rewrite span_nothing; [apply rev_string_involutive|].
  now apply all_rev_string.
Qed.

(** Text without the white space of [int] is its own [int_strip]. *)
Lemma int_strip_no_space (s : string) :
  ReSpec.all (fun c => negb (is_int_space c)) s = true -> int_strip s = s.
Proof.
  intros H. unfold int_strip. rewrite (span_nothing _ _ H). simpl.
  rewrite span_nothing; [apply rev_string_involutive|].
  now apply all_rev_string.
Qed.

Lemma digit_char (d : Z) :
  (0 <= d < 10)%Z ->
  Py.is_digit (ascii_of_nat (48 + Z.to_nat d)) = true /\
  Z.of_nat (nat_of_ascii (ascii_of_nat (48 + Z.to_nat d)) - 48) = d /\
  is_int_space (ascii_of_nat (48 + Z.to_nat d)) = false.
Proof.
  intros H.
  assert (d = 0 \/ d = 1 \/ d = 2 \/ d = 3 \/ d = 4 \/ d = 5 \/ d = 6 \/
          d = 7 \/ d = 8 \/ d = 9)%Z as C by lia.
  repeat (destruct C as [-> | C]; [repeat split; reflexivity|]).
  subst d. repeat split; reflexivity.
Qed.

Lemma parse_digits_of_pos (fuel : nat) (n : Z) (rest : string) :
  (0 <= n < 10 ^ Z.of_nat fuel)%Z -> (0 < fuel)%nat ->
  parse_digits 0 false (digits_of_pos fuel n rest) = parse_digits n true rest.
Proof.
  revert n rest; induction fuel as [|f IH]; intros n rest Hn Hf; [lia|].
  cbn [digits_of_pos].
  assert (0 <= n mod 10 < 10)%Z as Hm by (apply Z.mod_pos_bound; lia).
  destruct (digit_char Hm) as (Hd & Hv & _).
  destruct (n <? 10)%Z eqn:L.
  - apply Z.ltb_lt in L. cbn [parse_digits]. rewrite Hd, Hv.
    rewrite Z.mod_small by lia. f_equal.
  - apply Z.ltb_ge in L.
    assert (0 < f)%nat as Hf'.
    { destruct f; [|lia]. simpl in Hn. lia. }
    rewrite IH; [|split|exact Hf'].
    + cbn [parse_digits]. rewrite Hd, Hv. f_equal.
      rewrite (Z.div_mod n 10) at 3 by lia. lia.
    + apply Z.div_pos; lia.
    + apply Z.div_lt_upper_bound; [lia|].
      rewrite Nat2Z.inj_succ, Z.pow_succ_r in Hn by lia. lia.
Qed.

Lemma digits_of_pos_all (p : ascii -> bool) (fuel : nat) (n : Z) (rest : string) :
  (forall d, (0 <= d < 10)%Z -> p (ascii_of_nat (48 + Z.to_nat d)) = true) ->
  (0 <= n)%Z -> ReSpec.all p rest = true ->
  ReSpec.all p (digits_of_pos fuel n rest) = true.
Proof.
  intros Hp. revert n rest; induction fuel as [|f IH]; intros n rest Hn Hr;
    [exact Hr|].
  cbn [digits_of_pos].
  assert (ReSpec.all p (String (ascii_of_nat (48 + Z.to_nat (n mod 10))) rest) = true)
    as H1.
  { cbn [ReSpec.all]. rewrite Hr, Hp; [reflexivity | apply Z.mod_pos_bound; lia]. }
  destruct (n <? 10)%Z; [exact H1|].
  apply IH; [apply Z.div_pos; lia | exact H1].
Qed.

Lemma fuel_enough (n : Z) :
  (0 <= n)%Z -> (n < 10 ^ Z.of_nat (S (S (Z.to_nat (Z.log2 n)))))%Z.
Proof.
  intros Hn. rewrite !Nat2Z.inj_succ, Z2Nat.id by apply Z.log2_nonneg.
  destruct (Z.eq_dec n 0) as [->|Hz]; [reflexivity|].
  assert (n < 2 ^ Z.succ (Z.log2 n))%Z as H2 by (apply Z.log2_spec; lia).
  assert (2 ^ Z.succ (Z.log2 n) <= 10 ^ Z.succ (Z.log2 n))%Z as H3.
  { apply Z.pow_le_mono_l. lia. }
  assert (10 ^ Z.succ (Z.log2 n) <= 10 ^ Z.succ (Z.succ (Z.log2 n)))%Z as H4.
  { apply Z.pow_le_mono_r; lia. }
  lia.
Qed.

Lemma count_digits_of_pos (fuel : nat) (n : Z) (rest : string) :
  (count_digits (digits_of_pos fuel n rest) <= Z.of_nat fuel + count_digits rest)%Z.
Proof.
  revert n rest; induction fuel as [|f IH]; intros n rest; [simpl; lia|].
  cbn [digits_of_pos].
  assert (forall c, count_digits (String c rest) <= 1 + count_digits rest)%Z as Hc.
  { intros c. cbn [count_digits]. destruct (Py.is_digit c); lia. }
  destruct (n <? 10)%Z.
  - specialize (Hc (ascii_of_nat (48 + Z.to_nat (n mod 10)))). lia.
  - specialize (IH (n / 10)%Z
                   (String (ascii_of_nat (48 + Z.to_nat (n mod 10))) rest)).
    specialize (Hc (ascii_of_nat (48 + Z.to_nat (n mod 10)))). lia.
Qed.

(** The digits of a [pid_t] are far below the limit of [int]. *)
Lemma few_digits (n : Z) (rest : string) :
  (0 <= n < 2 ^ 31)%Z -> count_digits rest = 0%Z ->
  (int_max_str_digits <?
   count_digits (digits_of_pos (S (S (Z.to_nat (Z.log2 n)))) n rest))%Z = false.
Proof.
  intros Hn Hr. apply Z.ltb_ge.
  pose proof (count_digits_of_pos (S (S (Z.to_nat (Z.log2 n)))) n rest) as C.
  assert (Z.log2 n < 31)%Z as L.
  { destruct (Z.eq_dec n 0) as [->|Hz]; [simpl; lia|].
    apply Z.log2_lt_pow2; lia. }
  pose proof (Z.log2_nonneg n) as L0.
  rewrite !Nat2Z.inj_succ, Z2Nat.id in C by exact L0.
  unfold int_max_str_digits. lia.
Qed.

End IntFacts.

(** The text written into the lock file by line 206 is read back by line
    191 as the number it was written from: [int("%s" % n) == n], for a
    number of the size of a process identifier. *)
Lemma py_int_str_of_int (n : Z) :
  (Z.abs n < 2 ^ 31)%Z -> py_int (str_of_int n) = Some n.
Proof.
  intros Hb. unfold str_of_int.
  destruct (n <? 0)%Z eqn:Hs.
  - apply Z.ltb_lt in Hs.
    replace (Z.abs n) with (- n)%Z in * by lia.
    pose proof (@IntFacts.fuel_enough (- n)%Z ltac:(lia)) as F.
    pose proof (@IntFacts.few_digits (- n)%Z "" ltac:(lia) eq_refl) as D.
    set (fuel := S (S (Z.to_nat (Z.log2 (- n))))) in *.
    assert (ReSpec.all (fun c => negb (is_int_space c))
              (String "-" (digits_of_pos fuel (- n) "")) = true) as A.
    { cbn [ReSpec.all]. apply andb_true_iff. split; [reflexivity|].
      apply IntFacts.digits_of_pos_all; [|lia|reflexivity].
      intros d Hd. now rewrite (proj2 (proj2 (IntFacts.digit_char Hd))). }
    unfold py_int. rewrite (IntFacts.int_strip_no_space _ A). lazy zeta.
    change (count_digits (String "-" (digits_of_pos fuel (- n) "")))
      with (0 + count_digits (digits_of_pos fuel (- n) ""))%Z.
    rewrite Z.add_0_l, D.
    rewrite IntFacts.parse_digits_of_pos
      by first [ (split; [lia | exact F]) | (unfold fuel; lia) ].
    cbn [parse_digits option_map]. f_equal. lia.
  - apply Z.ltb_ge in Hs.
    replace (Z.abs n) with n in * by lia.
    pose proof (@IntFacts.fuel_enough n Hs) as F.
    pose proof (@IntFacts.few_digits n "" ltac:(lia) eq_refl) as D.
    set (fuel := S (S (Z.to_nat (Z.log2 n)))) in *.
    assert (ReSpec.all Py.is_digit (digits_of_pos fuel n "") = true) as A.
    { apply IntFacts.digits_of_pos_all; [|lia|reflexivity].
      intros d Hd. exact (proj1 (IntFacts.digit_char Hd)). }
    assert (ReSpec.all (fun c => negb (is_int_space c)) (digits_of_pos fuel n "")
            = true) as B.
    { apply IntFacts.digits_of_pos_all; [|lia|reflexivity].
      intros d Hd. now rewrite (proj2 (proj2 (IntFacts.digit_char Hd))). }
    assert (parse_digits 0 false (digits_of_pos fuel n "") = Some n) as P.
    { now rewrite IntFacts.parse_digits_of_pos
        by first [ (split; [lia | exact F]) | (unfold fuel; lia) ]. }
    unfold py_int. rewrite (IntFacts.int_strip_no_space _ B). lazy zeta. rewrite D.
    destruct (digits_of_pos fuel n "") as [|c t]; [exact P|].
    cbn [ReSpec.all] in A. apply andb_true_iff in A as [Hc _].
    destruct c as [[] [] [] [] [] [] [] []]; try discriminate Hc; exact P.
Qed.

(** What [os.getpid] returns is read back from the lock file. *)
Lemma pid_read_back (w : World) : py_int (str_of_int (w_pid w)) = Some (w_pid w).
Proof. apply py_int_str_of_int, Z.ltb_lt, w_pid_bound. Qed.

(** ** The lock file *)

Module LockFileFacts.

Lemma lookup_remove_other (p q : string) (m : list (string * string)) :
  q <> p -> lookup q (remove p m) = lookup q m.
Proof.
  intros Hq. induction m as [|[k v] m IH]; simpl; [reflexivity|].
  destruct (String.eqb p k) eqn:Ep.
  - apply String.eqb_eq in Ep. subst k.
    destruct (String.eqb q p) eqn:Eq; [|exact IH].
    apply String.eqb_eq in Eq. congruence.
  - simpl. now rewrite IH.
Qed.

Lemma lookup_written (p q v : string) (m : list (string * string)) :
  lookup q ((p, v) :: remove p m) = if String.eqb q p then Some v else lookup q m.
Proof.
  simpl. destruct (String.eqb q p) eqn:Eq; [reflexivity|].
  apply lookup_remove_other. now apply String.eqb_neq.
Qed.

End LockFileFacts.

(** X1. [unlock_file] (lines 60-62) removes the lock file it is given and no
    other; called again it does nothing at all, not even an [os.unlink]. *)
Theorem unlock_file_once (path : string) (st : St) :
  lookup path (locks (snd (unlock_file path st))) = None /\
  (forall q, q <> path ->
     lookup q (locks (snd (unlock_file path st))) = lookup q (locks st)) /\
  unlock_file path (snd (unlock_file path st)) = (Val tt, snd (unlock_file path st)).
Proof.
  destruct (lookup path (locks st)) as [v|] eqn:L.
  - assert (unlock_file path st =
            (Val tt, {| locks := remove path (locks st); pid_var := pid_var st;
                        ncmd := ncmd st;
                        trace := (trace st ++ [ELockUnlink path])%list |})) as ->.
    { unfold unlock_file. now rewrite L. }
    cbn [snd locks].
    split; [apply MonadFacts.lookup_remove|]. split.
    + intros q Hq. now apply LockFileFacts.lookup_remove_other.
    + unfold unlock_file. cbn [locks]. now rewrite MonadFacts.lookup_remove.
  - assert (unlock_file path st = (Val tt, st)) as ->.
    { unfold unlock_file. now rewrite L. }
    cbn [snd]. split; [exact L|]. split; [reflexivity|].
    unfold unlock_file. now rewrite L.
Qed.

(** X2. Lines 186-206 on a lock file whose number names no running process:
    the run reports it, overwrites the file with its own number and goes
    on; no other lock file changes. *)
Theorem acquire_reclaims_stale_lock (w : World) (lock content : string) (p : Z)
  (st : St) :
  lookup lock (locks st) = Some content ->
  py_int content = Some p ->
  w_proc_alive w p = false ->
  fst (acquire w lock st) = Val tt /\
  trace (snd (acquire w lock st)) =
    (trace st ++
     [ELog Fail "Process with PID %i locked but did not release" [AInt p];
      ELockWrite lock (str_of_int (w_pid w))])%list /\
  option_map py_int (lookup lock (locks (snd (acquire w lock st)))) =
    Some (Some (w_pid w)) /\
  forall q, q <> lock ->
    lookup q (locks (snd (acquire w lock st))) = lookup q (locks st).
Proof.
  intros Hl Hp Ha. unfold acquire, bind, lock_content. rewrite Hl, Hp.
  unfold assign_pid, ret, read_pid, print_fail, emit, write_lock.
  cbn -[lookup remove str_of_int]. rewrite Ha. cbn -[lookup remove str_of_int].
  split; [reflexivity|]. split; [now rewrite <- app_assoc|]. split.
  - rewrite LockFileFacts.lookup_written, String.eqb_refl. simpl.
    now rewrite pid_read_back.
  - intros q Hq. rewrite LockFileFacts.lookup_written.
    apply String.eqb_neq in Hq. now rewrite Hq.
Qed.

(** X3. Lines 186-206 across two runs: once a run has taken a free lock, a
    second run that finds the first one alive reads its number back from
    the file, says so and leaves the package alone, without touching the
    lock file. *)
Theorem acquire_excludes_second_run (w1 w2 : World) (lock : string) (st1 st2 : St) :
  lookup lock (locks st1) = None ->
  locks st2 = locks (snd (acquire w1 lock st1)) ->
  w_proc_alive w2 (w_pid w1) = true ->
  fst (acquire w1 lock st1) = Val tt /\
  acquire w2 lock st2 =
    (Next,
     {| locks := locks st2; pid_var := Some (w_pid w1); ncmd := ncmd st2;
        trace := (trace st2 ++
                  [ELog Info "Ignoring as another process (PID %i) has this"
                        [AInt (w_pid w1)]])%list |}).
Proof.
  intros Hl H2 Ha.
  assert (acquire w1 lock st1 =
          (Val tt, {| locks := (lock, str_of_int (w_pid w1)) :: remove lock (locks st1);
                      pid_var := pid_var st1; ncmd := ncmd st1;
                      trace := (trace st1 ++
                                [ELockWrite lock (str_of_int (w_pid w1))])%list |}))
    as A1.
  { unfold acquire, bind, lock_content. rewrite Hl. reflexivity. }
  rewrite A1 in *. split; [reflexivity|]. cbn [snd locks] in H2.
  unfold acquire, bind, lock_content. rewrite H2.
  cbn [lookup]. rewrite String.eqb_refl, pid_read_back.
  unfold assign_pid, ret, read_pid, print_info, emit, continue.
  cbn -[str_of_int remove]. rewrite Ha. cbn -[str_of_int remove].
  now rewrite <- H2.
Qed.

(** X4. Lines 190-202 on a lock file that holds no number: [pid] keeps the
    value an earlier package of the run gave it.  If there is none, line
    202 raises [UnboundLocalError] and nothing is written; otherwise the
    warning names that earlier number, and the run takes the lock. *)
Theorem acquire_unparsable_lock (w : World) (lock content : string) (st : St) :
  lookup lock (locks st) = Some content ->
  py_int content = None ->
  match pid_var st with
  | None => acquire w lock st = (Raise UnboundLocalError, st)
  | Some q =>
      fst (acquire w lock st) = Val tt /\
      trace (snd (acquire w lock st)) =
        (trace st ++
         [ELog Fail "Process with PID %i locked but did not release" [AInt q];
          ELockWrite lock (str_of_int (w_pid w))])%list /\
      lookup lock (locks (snd (acquire w lock st))) = Some (str_of_int (w_pid w))
  end.
Proof.
  intros Hl Hp. unfold acquire, bind, lock_content. rewrite Hl, Hp.
  unfold ret, read_pid, print_fail, emit, write_lock.
  destruct (pid_var st) as [q|] eqn:Q; cbn -[lookup remove str_of_int].
  - try rewrite Q. cbn -[lookup remove str_of_int].
    split; [reflexivity|]. split; [now rewrite <- app_assoc|].
    now rewrite LockFileFacts.lookup_written, String.eqb_refl.
  - try rewrite Q. destruct st. simpl in *. now subst.
Qed.

(** ** The branch helpers *)

(** X5. [switch_branch_and_reset] (lines 72-86) runs its four commands in
    order and stops at the first one that fails: it returns the status of
    the last command it ran (0 when all four succeeded), and it touches no
    lock file. *)
Theorem switch_branch_and_reset_fail_fast (w : World) (pkg_cache branch : string)
  (st : St) :
  let argvs := [["git"; "clean"; "-dffx"];
                ["git"; "reset"; "--hard"; "HEAD"];
                ["git"; "checkout"; branch];
                ["git"; "reset"; "--hard"; "origin/" ++ branch]] in
  let rcs := [w_rc w (ncmd st) ["git"; "clean"; "-dffx"];
              w_rc w (S (ncmd st)) ["git"; "reset"; "--hard"; "HEAD"];
              w_rc w (S (S (ncmd st))) ["git"; "checkout"; branch];
              w_rc w (S (S (S (ncmd st))))
                   ["git"; "reset"; "--hard"; "origin/" ++ branch]] in
  let run := switch_branch_and_reset w pkg_cache branch st in
  fst run = Val (last (until_failure rcs) 0%Z) /\
  trace (snd run) = (trace st ++ cmd_events pkg_cache argvs (until_failure rcs))%list /\
  ncmd (snd run) = ncmd st + List.length (until_failure rcs) /\
  locks (snd run) = locks st.
Proof.
  cbv zeta. unfold switch_branch_and_reset, bind, run_command, ret.
  cbn [until_failure fst snd ncmd trace locks].
  repeat match goal with
         | |- context [(?r =? 0)%Z] =>
             let E' := fresh "E" in
             destruct (r =? 0)%Z eqn:E'; cbn [negb fst snd ncmd trace locks last
                                              until_failure List.length]
         end;
    repeat split;
    try (cbn; rewrite <- ?app_assoc; reflexivity);
    try (cbn; lia).
  cbn. f_equal. symmetry. now apply Z.eqb_eq.
Qed.

Lemma argv_eqb_refl (a : list string) : argv_eqb a a = true.
Proof. induction a as [|x a IH]; simpl; [reflexivity|]. now rewrite String.eqb_refl. Qed.

(** X6. [sync_to_rawhide_branch] (lines 88-114) never ends the turn of the
    package: whatever fails in it, it returns to its caller, and it
    touches no lock file.  In the order in which the commands are run, a
    [git push] comes only after a fast-forward merge or a cherry-pick that
    succeeded, and the build is started only after a push that succeeded.
    It does not fail silently: unless the build was started with success,
    a failure has been printed. *)
Theorem sync_to_rawhide_branch_contained (args : Args) (w : World)
  (pkg_cache : string) (st : St) :
  let run := sync_to_rawhide_branch args w pkg_cache st in
  fst run <> Next /\
  locks (snd run) = locks st /\
  exists evs,
    trace (snd run) = (trace st ++ evs)%list /\
    preceded_by
      (fun e => ran_ok ["git"; "merge"; "--ff-only"; fedora_branch args] e ||
                ran_ok ["git"; "cherry-pick"; fedora_branch args] e)
      (ran ["git"; "push"]) false evs = true /\
    preceded_by (ran_ok ["git"; "push"]) (ran ["fedpkg"; "build"; "--nowait"])
                false evs = true /\
    existsb (ran_ok ["fedpkg"; "build"; "--nowait"]) evs || existsb is_fail evs
      = true.
Proof.
  cbv zeta.
  unfold sync_to_rawhide_branch, switch_branch_and_reset, bind, run_command, ret,
    print_fail, print_info, emit.
  cbn [fst snd ncmd trace locks].
  repeat match goal with
         | |- context [(?r =? 0)%Z] =>
             let E' := fresh "E" in
             destruct (r =? 0)%Z eqn:E'; cbn [negb fst snd ncmd trace locks]
         end;
    (split; [discriminate|]; split; [reflexivity|];
     eexists; split; [rewrite <- ?app_assoc; reflexivity|];
     cbn [app existsb preceded_by ran ran_ok argv_eqb is_fail];
     rewrite ?String.eqb_refl;
     repeat match goal with
            | H : (?r =? 0)%Z = _ |- context [(?r =? 0)%Z] => rewrite H
            end;
     cbn; rewrite ?orb_true_r; repeat split; reflexivity).
Qed.

(** ** What a decision records *)

Module DecisionFacts.

Lemma bind_val_inv (A B : Type) (m : M A) (k : A -> M B) (st st' : St) (y : B) :
  bind m k st = (Val y, st') ->
  exists x st1, m st = (Val x, st1) /\ k x st1 = (Val y, st').
Proof.
  unfold bind. destruct (m st) as [[x| |e] st1]; try discriminate. eauto.
Qed.

Section Stages.
Context {E : Extern}.
Variable args : Args.
Variable w : World.

Lemma current_version_val (lock : string) (st st' : St) (v : string) :
  current_version w lock st = (Val v, st') ->
  w_spec_exists w = true /\ w_spec_version w = Some v.
Proof.
  unfold current_version.
  destruct (w_spec_exists w); cbn [negb].
  - destruct (w_spec_version w) as [v'|].
    + unfold bind, print_debug, emit, ret. simpl. intros [= <- _]. now split.
    + unfold bind, print_fail, emit, continue, unlock_file. simpl.
      destruct (lookup lock (locks st)); discriminate.
  - unfold bind, print_fail, emit, continue, unlock_file. simpl.
    destruct (lookup lock (locks st)); discriminate.
Qed.

Lemma find_newest_val (lock glob : string) (vs : list string) (st st' : St)
  (n : string) :
  find_newest lock glob vs st = (Val n, st') ->
  n = fst (newest_of glob vs ("0", "0")) /\ n <> "0" /\
  In n vs /\ version_valid glob n = true.
Proof.
  unfold find_newest.
  destruct (newest_loop_value lock glob vs ("0", "0") st) as (st1 & Hrun & _).
  unfold bind at 1. rewrite Hrun.
  destruct (String.eqb (fst (newest_of glob vs ("0", "0"))) "0") eqn:Z0.
  - unfold bind, print_fail, emit, continue, unlock_file. simpl.
    destruct (lookup lock (locks st1)); discriminate.
  - unfold ret. intros [= <- _]. apply String.eqb_neq in Z0.
    split; [reflexivity|]. split; [exact Z0|].
    destruct (newest_of_origin glob vs ("0", "0")) as [Heq | (Hin & Hv & _)].
    + rewrite Heq in Z0. simpl in Z0. congruence.
    + now split.
Qed.

(** What [resolve] has established when it hands over a decision. *)
Lemma resolve_inv (it : Item) (st st1 : St) (d : Decision) :
  resolve args w it st = (Val d, st1) ->
  exists glob vs,
    lookup (fedora_branch args) (release_glob it) = Some glob /\
    w_spec_exists w = true /\
    w_spec_version w = Some (d_version d) /\
    d_version_dot d = version_dot_of (d_version d) /\
    existsb (w_fetch_ok w) range_1_20 = true /\
    w_json w = Some (d_json d) /\
    j_versions (d_json d) = Some vs /\
    d_newest d = fst (newest_of glob vs ("0", "0")) /\
    d_newest d <> "0" /\
    In (d_newest d) vs /\
    version_valid glob (d_newest d) = true /\
    d_newest_tilde d = tilde (d_newest d) /\
    d_new d =
      if (labelCompare (tilde (d_newest d)) (d_version d) >? 0)%Z
      then Some (d_newest d, tilde (d_newest d)) else None.
Proof.
  unfold resolve. intros H.
  repeat match type of H with
         | bind _ _ _ = (Val _, _) =>
             let x := fresh "x" in let s := fresh "s" in
             let H1 := fresh "H" in
             apply bind_val_inv in H as (x & s & H1 & H)
         end.
  destruct (lookup (fedora_branch args) (release_glob it)) as [glob|] eqn:G;
    [|discriminate].
  match goal with
  | H0 : current_version _ _ _ = _ |- _ => apply current_version_val in H0 as [Hse Hsv]
  end.
  match goal with
  | H0 : fetch_json _ _ _ _ _ = _ |- _ =>
      pose proof (f_equal fst H0) as Hf; rewrite fetch_json_result in Hf;
      cbn [fst] in Hf
  end.
  match goal with
  | H0 : find_newest _ _ _ _ = _ |- _ =>
      apply find_newest_val in H0 as (Hn & Hn0 & Hin & Hval)
  end.
  repeat match goal with
         | H0 : ret _ _ = (Val _, _) |- _ => unfold ret in H0; injection H0 as <- <-
         end.
  destruct (w_json w) as [j|] eqn:J.
  2:{ exfalso.
      match goal with
      | H0 : bind _ _ _ = (Val _, _) |- _ => revert H0
      | H0 : _ _ = (Val _, _) |- _ => revert H0
      end.
      unfold bind, print_fail, emit, continue, unlock_file. simpl.
      match goal with |- context [lookup ?p ?m] => destruct (lookup p m) end;
        discriminate. }
  unfold ret in *.
  repeat match goal with
         | H0 : (_, _) = (Val _, _) |- _ => injection H0 as <- <-
         end.
  destruct (j_versions j) as [vs|] eqn:V; [|discriminate].
  match goal with
  | H0 : (_, _) = (Val _, _) |- _ => injection H0 as <- <-
  end.
  remember (existsb (w_fetch_ok w) range_1_20) as ok eqn:F.
  injection Hf as <-.
  destruct ok.
  2:{ exfalso. cbn [negb] in *.
      match goal with
      | H0 : bind _ _ _ = (Val _, _) |- _ => revert H0
      end.
      unfold bind, continue, unlock_file.
      match goal with |- context [lookup ?p ?m] => destruct (lookup p m) end;
        discriminate. }
  exists glob, vs. cbn [d_version d_version_dot d_json d_newest d_newest_tilde d_new].
  subst. repeat (split; try assumption; try reflexivity).
Qed.

End Stages.
End DecisionFacts.

(** X7. After a decision that finds nothing newer than the spec file, the
    package is left alone: the turn ends with [continue], no update
    event was produced and the lock file is gone. *)
Theorem up_to_date_package_untouched {E : Extern} (args : Args) (w : World)
  (it : Item) (st st1 : St) (d : Decision) :
  resolve args w it st = (Val d, st1) ->
  (labelCompare (tilde (d_newest d)) (d_version d) <= 0)%Z ->
  let run := package_body args w it st in
  d_new d = None /\
  fst run = Next /\
  extends_by quiet st (snd run) /\
  lookup (lock_path args it) (locks (snd run)) = None.
Proof.
  intros Hres Hle run. subst run.
  destruct (DecisionFacts.resolve_inv _ _ _ _ Hres)
    as (glob & vs & _ & _ & _ & _ & _ & _ & _ & _ & _ & _ & _ & _ & Hnew).
  assert (d_new d = None) as N.
  { rewrite Hnew.
    destruct (labelCompare (tilde (d_newest d)) (d_version d) >? 0)%Z eqn:C;
      [|reflexivity].
    apply Z.gtb_lt in C. lia. }
  split; [exact N|].
  rewrite (package_body_after _ _ _ _ Hres).
  apply stops_quietly with (st1 := st1); [exact Hres|].
  intros s. unfold after_installed_check, need_update. rewrite N.
  fold (lock_path args it).
  unfold bind, print_debug, emit, continue. simpl.
  match goal with
  | |- context [unlock_file ?p ?s0] =>
      destruct (MonadFacts.unlock_file_absent p s0) as [Hv Hl];
      pose proof (MonadFacts.emits_unlock quiet p eq_refl s0) as Hq;
      destruct (unlock_file p s0) as [r s2]; simpl in Hv, Hl, Hq; subst r
  end.
  simpl. repeat split; trivial.
  eapply MonadFacts.extends_trans; [|exact Hq].
  eapply MonadFacts.extends_one; [reflexivity | reflexivity].
Qed.

(** ** The retries of the JSON download *)

(** X8. The loop of lines 252-258 takes its tries in order and stops at the
    first one that succeeds: it returns whether one did, each try that
    failed before has left its download and its failure message in the
    trace, in that order, followed by the download that succeeded if there
    is one; no lock file is touched; and every try has failed exactly when
    the loop gives up. *)
Theorem fetch_json_stops_at_first_success (w : World) (url dest : string)
  (tries : list nat) (st : St) :
  let ok := existsb (w_fetch_ok w) tries in
  let failed := failed_tries (w_fetch_ok w) tries in
  let run := fetch_json w url dest tries st in
  fst run = Val ok /\
  trace (snd run) =
    (trace st ++ flat_map (failed_try url dest) failed ++
     (if ok then [EJson url dest true] else []))%list /\
  locks (snd run) = locks st /\
  List.length failed <= List.length tries /\
  (ok = false <-> failed = tries).
Proof.
  cbv zeta. revert st. induction tries as [|i tries IH]; intros st.
  - simpl. rewrite app_nil_r. repeat split; trivial.
  - cbn [fetch_json existsb failed_tries].
    destruct (w_fetch_ok w i) eqn:F.
    + cbn [orb flat_map List.length]. unfold bind, emit, ret. simpl.
      repeat split; trivial; try lia; discriminate.
    + cbn [orb flat_map List.length].
      unfold bind, print_fail, emit. cbv beta iota. cbn [locks pid_var ncmd trace].
      match goal with
      | |- context [fetch_json w url dest tries ?s] =>
          destruct (IH s) as (H1 & H2 & H3 & H4 & H5)
      end.
      rewrite H1, H2, H3. cbn [trace locks].
      repeat split; trivial.
      * unfold failed_try at 1. now rewrite <- !app_assoc.
      * lia.
      * intros X. f_equal. now apply H5.
      * intros [= X]. now apply H5.
Qed.

(** ** The order of the stages *)

Module GateFacts.

Lemma preceded_by_seen (g p : Event -> bool) (tr : list Event) :
  preceded_by g p true tr = true.
Proof.
  induction tr as [|e r IH]; [reflexivity|].
  cbn [preceded_by orb]. now rewrite orb_true_r, IH.
Qed.

Lemma preceded_by_app (g p : Event -> bool) (a b : list Event) (seen : bool) :
  forallb (fun e => negb (p e)) a = true ->
  preceded_by g p seen (a ++ b) = preceded_by g p (seen || existsb g a) b.
Proof.
  revert seen; induction a as [|e a IH]; intros seen H.
  - simpl. now rewrite orb_false_r.
  - simpl in H. apply andb_true_iff in H as [He Ha].
    cbn [app preceded_by existsb]. rewrite He. cbn [orb andb].
    rewrite (IH _ Ha). now rewrite orb_assoc.
Qed.

Section Gated.
Variables P g : Event -> bool.

(** What the judgement is for. *)
Lemma gated_preceded (p : Event -> bool) (A : Type) (m : M A) (st : St)
  (evs : list Event) :
  (forall e, P e = negb (p e)) ->
  gated P g m ->
  trace (snd (m st)) = (trace st ++ evs)%list ->
  preceded_by g p false evs = true.
Proof.
  intros HP H Hevs. destruct (H st) as (a & b & Ht & Ha & Hb).
  rewrite Ht in Hevs. apply app_inv_head in Hevs. subst evs.
  rewrite preceded_by_app.
  - cbn [orb]. destruct Hb as [-> | ->]; [reflexivity | apply preceded_by_seen].
  - rewrite forallb_forall in *. intros e He. rewrite <- HP. auto.
Qed.

Lemma gated_emits (A : Type) (m : M A) : emits P m -> gated P g m.
Proof.
  intros H st. destruct (H st) as (evs & Ht & Hp).
  exists evs, []. rewrite app_nil_r. auto.
Qed.

Lemma gated_bind (A B : Type) (m : M A) (k : A -> M B) :
  emits P m -> (forall x, gated P g (k x)) -> gated P g (bind m k).
Proof.
  intros Hm Hk st. destruct (Hm st) as (evs & Ht & Hp). unfold bind.
  destruct (m st) as [[x| |e] st1]; cbn [snd] in *.
  - destruct (Hk x st1) as (a & b & Hk1 & Ha & Hb).
    exists (evs ++ a)%list, b. split; [|split].
    + now rewrite Hk1, Ht, <- !app_assoc.
    + now rewrite forallb_app, Hp, Ha.
    + destruct Hb as [-> | Hb]; [now left | right].
      now rewrite existsb_app, Hb, orb_true_r.
  - exists evs, []. rewrite app_nil_r. auto.
  - exists evs, []. rewrite app_nil_r. auto.
Qed.

(** A command whose failure ends the turn: what follows it runs after its
    success. *)
Lemma gated_cmd (A : Type) (w : World) (cwd : string) (argv : list string)
  (exit : M unit) (rest : M A) :
  (forall rc, P (ECmd cwd argv rc) = true) ->
  g (ECmd cwd argv 0%Z) = true ->
  emits P exit -> (forall st, exists st', exit st = (Next, st')) ->
  emits (fun _ => true) rest ->
  gated P g (rc <- run_command w cwd argv ;;
             (if negb (rc =? 0)%Z then exit else ret tt) ;; rest).
Proof.
  intros HP HG Hexit Hnext Hrest st.
  unfold bind at 1. unfold run_command at 1. cbv beta iota zeta.
  set (rc := w_rc w (ncmd st) argv).
  set (st1 := {| locks := locks st; pid_var := pid_var st; ncmd := S (ncmd st);
                 trace := (trace st ++ [ECmd cwd argv rc])%list |}).
  destruct (rc =? 0)%Z eqn:R; cbn [negb].
  - apply Z.eqb_eq in R. unfold bind, ret. cbv beta iota.
    destruct (Hrest st1) as (evs & Ht & _).
    exists [ECmd cwd argv rc], evs. split; [|split].
    + rewrite Ht. subst st1. cbn [trace]. now rewrite <- app_assoc.
    + cbn [forallb]. now rewrite HP.
    + right. cbn [existsb]. now rewrite R, HG.
  - destruct (Hnext st1) as (st2 & E2). destruct (Hexit st1) as (evs & Ht & Hp).
    unfold bind. rewrite E2 in *. cbn [snd] in *.
    exists (ECmd cwd argv rc :: evs), []. split; [|split].
    + rewrite Ht. subst st1. cbn [trace]. now rewrite app_nil_r, <- app_assoc.
    + cbn [forallb]. now rewrite HP, Hp.
    + now left.
Qed.

Lemma gated_ext (A : Type) (m m' : M A) :
  (forall st, m st = m' st) -> gated P g m' -> gated P g m.
Proof. intros H Hm st. rewrite H. apply Hm. Qed.

Lemma bind_assoc (A B C : Type) (m : M A) (k1 : A -> M B) (k2 : B -> M C)
  (st : St) :
  bind (bind m k1) k2 st = bind m (fun x => bind (k1 x) k2) st.
Proof. unfold bind. now destruct (m st) as [[x| |e] st1]. Qed.

Lemma gated_assoc (A B C : Type) (m : M A) (k1 : A -> M B) (k2 : B -> M C) :
  gated P g (bind m (fun x => bind (k1 x) k2)) -> gated P g (bind (bind m k1) k2).
Proof. apply gated_ext. intros st. apply bind_assoc. Qed.

(** A computation that, when it goes on, has produced an event accepted
    by [g]. *)
Lemma gated_open (A B : Type) (m : M A) (k : A -> M B) :
  (forall st, exists evs,
     trace (snd (m st)) = (trace st ++ evs)%list /\ forallb P evs = true /\
     (forall x, fst (m st) = Val x -> existsb g evs = true)) ->
  (forall x, emits (fun _ => true) (k x)) ->
  gated P g (bind m k).
Proof.
  intros Hm Hk st. destruct (Hm st) as (evs & Ht & Hp & Hg). unfold bind.
  destruct (m st) as [[x| |e] st1]; cbn [fst snd] in *.
  - destruct (Hk x st1) as (b & Hb & _). exists evs, b. split; [|split].
    + now rewrite Hb, Ht, <- app_assoc.
    + exact Hp.
    + right. now apply (Hg x).
  - exists evs, []. rewrite app_nil_r. auto.
  - exists evs, []. rewrite app_nil_r. auto.
Qed.

(** The same command inside a block that something follows. *)
Lemma gated_cmd_in (A B : Type) (w : World) (cwd : string) (argv : list string)
  (exit : M unit) (c : M B) (k : B -> M A) :
  (forall rc, P (ECmd cwd argv rc) = true) ->
  g (ECmd cwd argv 0%Z) = true ->
  emits P exit -> (forall st, exists st', exit st = (Next, st')) ->
  emits (fun _ => true) c -> (forall x, emits (fun _ => true) (k x)) ->
  gated P g (bind (rc <- run_command w cwd argv ;;
                   (if negb (rc =? 0)%Z then exit else ret tt) ;; c) k).
Proof.
  intros HP HG Hexit Hnext Hc Hk.
  apply gated_ext with
    (m' := rc <- run_command w cwd argv ;;
           (if negb (rc =? 0)%Z then exit else ret tt) ;; bind c k).
  - intros st. unfold bind.
    destruct (run_command w cwd argv st) as [[rc| |e] st1]; trivial.
    destruct (negb (rc =? 0)%Z).
    + now destruct (exit st1) as [[x| |e] st2].
    + unfold ret. now destruct (c st1) as [[x| |e] st2].
  - apply gated_cmd; trivial. now apply MonadFacts.emits_bind.
Qed.

End Gated.

Lemma quiet_not_cmd (prog sub : string) (e : Event) :
  updating_argv [prog; sub] = true -> quiet e = true ->
  negb (is_cmd prog sub e) = true.
Proof.
  unfold quiet, updating, is_cmd. intros U Q.
  destruct e as [| cwd argv rc | | | | |]; try reflexivity.
  destruct argv as [|x [|y r]]; try reflexivity.
  destruct (String.eqb x prog) eqn:X; [|reflexivity].
  destruct (String.eqb y sub) eqn:Y; [|reflexivity].
  apply String.eqb_eq in X, Y. subst x y.
  unfold updating_argv in *. rewrite U in Q. discriminate.
Qed.

End GateFacts.

Ltac gated_step :=
  first
    [ apply GateFacts.gated_cmd;
      [ intros; reflexivity | reflexivity | solve [emits_auto]
      | solve [exits_now] | ]
    | apply GateFacts.gated_bind; [solve [emits_auto] | intros ?]
    | match goal with
      | |- gated _ _ (if ?b then _ else _) => destruct b
      | |- gated _ _ (match ?x with _ => _ end) => destruct x
      end
    | apply GateFacts.gated_emits; solve [emits_auto] ].

Section StageOrder.
Context {E : Extern}.
Variable args : Args.
Variable w : World.
Variable it : Item.

Lemma need_update_quiet (lock : string) (d : Decision) :
  emits quiet (need_update lock d).
Proof. unfold need_update. emits_auto. Qed.

Lemma major_guard_quiet (lock : string) (d : Decision) (nv : string) :
  emits quiet (major_guard args lock d nv).
Proof. unfold major_guard. emits_auto. Qed.

(** The stages before the update itself produce no update event, so a
    gate of the update is a gate of the whole turn. *)
Lemma package_body_gated (P g : Event -> bool) :
  (forall e, quiet e = true -> P e = true) ->
  (forall d nv nvt, gated P g (apply_update args w it d nv nvt)) ->
  gated P g (package_body args w it).
Proof.
  intros HQ Hup. unfold package_body.
  apply GateFacts.gated_bind.
  { apply MonadFacts.emits_weaken with (P := quiet); [exact HQ | apply resolve_quiet]. }
  intros d. unfold after_decision. apply GateFacts.gated_bind.
  { apply MonadFacts.emits_weaken with (P := quiet);
      [exact HQ | apply installed_check_quiet]. }
  intros _. unfold after_installed_check. apply GateFacts.gated_bind.
  { apply MonadFacts.emits_weaken with (P := quiet);
      [exact HQ | apply need_update_quiet]. }
  intros new. apply GateFacts.gated_bind.
  { apply MonadFacts.emits_weaken with (P := quiet);
      [exact HQ | apply major_guard_quiet]. }
  intros _. apply Hup.
Qed.

Ltac unfold_update :=
  unfold apply_update, fetch_tarball, prep_spec, publish, sync_to_rawhide_branch,
    switch_branch_and_reset;
  unfold print_debug, print_info, print_fail.

Lemma apply_update_open (d : Decision) (nv nvt : string) :
  emits (fun _ => true) (apply_update args w it d nv nvt).
Proof. unfold_update. emits_auto. Qed.

Lemma commit_gated (d : Decision) (nv nvt : string) :
  gated (fun e => negb (is_cmd "git" "commit" e)) (is_cmd_ok "fedpkg" "prep")
        (apply_update args w it d nv nvt).
Proof. unfold_update. repeat gated_step. all: emits_auto. Qed.

Lemma push_gated (d : Decision) (nv nvt : string) :
  gated (fun e => negb (is_cmd "git" "push" e)) (is_cmd_ok "git" "commit")
        (apply_update args w it d nv nvt).
Proof. unfold_update. repeat gated_step. all: emits_auto. Qed.

Lemma build_gated (d : Decision) (nv nvt : string) :
  gated (fun e => negb (is_cmd "fedpkg" "build" e)) (is_cmd_ok "git" "push")
        (apply_update args w it d nv nvt).
Proof. unfold_update. repeat gated_step. all: emits_auto. Qed.

Lemma mock_gated (d : Decision) (nv nvt : string) :
  no_mockbuild args = false ->
  gated (fun e => negb (is_cmd "git" "commit" e)) (is_cmd_ok "fedpkg" "mockbuild")
        (apply_update args w it d nv nvt).
Proof.
  intros Hmock. unfold_update. rewrite Hmock. cbn [negb].
  do 6 (apply GateFacts.gated_bind; [solve [emits_auto] | intros ?]).
  apply GateFacts.gated_cmd_in;
    [ intros; reflexivity | reflexivity | solve [emits_auto] | solve [exits_now]
    | solve [emits_auto] | intros ?; emits_auto ].
Qed.

Lemma open_of_quiet (A : Type) (m : M A) :
  emits quiet m -> emits (fun _ => true) m.
Proof. apply MonadFacts.emits_weaken. reflexivity. Qed.

(** Taking the lock runs no command, and when it lets the turn go on the
    lock file was written. *)
Lemma acquire_opens (lock : string) (st : St) :
  exists evs,
    trace (snd (acquire w lock st)) = (trace st ++ evs)%list /\
    forallb (fun e => negb (is_command e)) evs = true /\
    (forall x, fst (acquire w lock st) = Val x ->
               existsb (is_lock_write lock) evs = true).
Proof.
  unfold acquire, bind, lock_content, assign_pid, read_pid, write_lock, ret,
    print_info, print_fail, emit, continue. cbv beta iota. cbn [locks pid_var trace].
  assert (is_lock_write lock (ELockWrite lock (str_of_int (w_pid w))) = true) as L
    by (unfold is_lock_write; apply String.eqb_refl).
  destruct (lookup lock (locks st)) as [content|].
  - destruct (py_int content) as [p|]; cbv beta iota; cbn [pid_var trace fst snd].
    + destruct (w_proc_alive w p); cbv beta iota; cbn [pid_var trace fst snd].
      * eexists. split; [reflexivity|]. split; [reflexivity | discriminate].
      * eexists. split; [rewrite <- app_assoc; reflexivity|].
        split; [reflexivity|]. intros _ _. cbn [existsb app]. now rewrite L, orb_true_r.
    + destruct (pid_var st) as [q|]; cbv beta iota; cbn [pid_var trace fst snd].
      * eexists. split; [rewrite <- app_assoc; reflexivity|].
        split; [reflexivity|]. intros _ _. cbn [existsb app]. now rewrite L, orb_true_r.
      * exists []. split; [now rewrite app_nil_r|]. split; [reflexivity | discriminate].
  - eexists. split; [reflexivity|]. split; [reflexivity|].
    intros _ _. cbn [existsb]. now rewrite L.
Qed.

Lemma lock_gated :
  gated (fun e => negb (is_command e)) (is_lock_write (lock_path args it))
        (package_body args w it).
Proof.
  unfold package_body, resolve. cbv zeta. fold (lock_path args it).
  do 5 (apply GateFacts.gated_assoc;
        apply GateFacts.gated_bind; [solve [emits_auto] | intros ?]; cbv beta).
  apply GateFacts.gated_assoc. apply GateFacts.gated_open.
  { apply acquire_opens. }
  intros _. apply MonadFacts.emits_bind.
  - unfold checkout, current_version, find_newest, switch_branch_and_reset.
    unfold print_debug, print_info, print_fail.
    repeat first
      [ apply open_of_quiet, fetch_json_quiet
      | apply open_of_quiet, newest_loop_quiet
      | emits_step ].
  - intros d. unfold after_decision, installed_check, after_installed_check,
      need_update, major_guard.
    unfold print_debug, print_info, print_fail.
    repeat first [ apply apply_update_open | emits_step ].
Qed.

End StageOrder.

(** X9. With local mock builds on (no [--no-mockbuild]), [git commit] is run
    only after [fedpkg mockbuild] has succeeded. *)
Theorem commit_only_after_mock_build {E : Extern} (args : Args) (w : World)
  (it : Item) (st : St) :
  no_mockbuild args = false ->
  exists evs,
    trace (snd (package_body args w it st)) = (trace st ++ evs)%list /\
    preceded_by (is_cmd_ok "fedpkg" "mockbuild") (is_cmd "git" "commit") false evs
      = true.
Proof.
  intros Hmock.
  assert (gated (fun e => negb (is_cmd "git" "commit" e))
                (is_cmd_ok "fedpkg" "mockbuild") (package_body args w it)) as G0.
  { apply package_body_gated.
    - intros e. now apply GateFacts.quiet_not_cmd.
    - intros d nv nvt. now apply mock_gated. }
  destruct (G0 st) as (a & b & Ht & _).
  exists (a ++ b)%list. split; [exact Ht|].
  eapply GateFacts.gated_preceded with (m := package_body args w it);
    [ intros e; reflexivity | exact G0 | exact Ht ].
Qed.

(** X10. In the turn of a package no command is run before the lock file of
    the package has been written. *)
Theorem no_command_before_the_lock {E : Extern} (args : Args) (w : World)
  (it : Item) (st : St) :
  exists evs,
    trace (snd (package_body args w it st)) = (trace st ++ evs)%list /\
    preceded_by (is_lock_write (lock_path args it)) is_command false evs = true.
Proof.
  pose proof (lock_gated args w it) as G0.
  destruct (G0 st) as (a & b & Ht & _).
  exists (a ++ b)%list. split; [exact Ht|].
  eapply GateFacts.gated_preceded with (m := package_body args w it);
    [ intros e; reflexivity | exact G0 | exact Ht ].
Qed.

(** X11. Whatever the outside world answers, in the turn of a package
    [git commit] is run only after [fedpkg prep] has succeeded,
    [git push] only after [git commit] has succeeded, and [fedpkg build]
    only after [git push] has succeeded. *)
Theorem update_stages_in_order {E : Extern} (args : Args) (w : World) (it : Item)
  (st : St) :
  exists evs,
    trace (snd (package_body args w it st)) = (trace st ++ evs)%list /\
    preceded_by (is_cmd_ok "fedpkg" "prep") (is_cmd "git" "commit") false evs = true /\
    preceded_by (is_cmd_ok "git" "commit") (is_cmd "git" "push") false evs = true /\
    preceded_by (is_cmd_ok "git" "push") (is_cmd "fedpkg" "build") false evs = true.
Proof.
  assert (gated (fun _ => true) (fun _ => true) (package_body args w it)) as G0.
  { apply package_body_gated; [reflexivity|].
    intros d nv nvt. apply GateFacts.gated_emits, apply_update_open. }
  destruct (G0 st) as (a & b & Ht & _).
  exists (a ++ b)%list. split; [exact Ht|].
  split; [|split];
    eapply GateFacts.gated_preceded with (m := package_body args w it);
    try exact Ht; try (intros e; reflexivity);
    apply package_body_gated;
    try (intros e; now apply GateFacts.quiet_not_cmd).
  - apply commit_gated.
  - apply push_gated.
  - apply build_gated.
Qed.

(** ** The two tables of branches *)

Section Tables.
Context {E : Extern}.
Variable args : Args.
Variable w : World.

Lemma tables_agree (branch : string) :
  release_tag branch = None <-> build_branch branch = None.
Proof.
  unfold release_tag, build_branch.
  destruct (String.eqb branch "f39"); [split; discriminate|].
  destruct (String.eqb branch "f40"); [split; discriminate|].
  destruct (String.eqb branch "f41"); [split; discriminate|].
  destruct (String.eqb branch "f42"); [split; discriminate|].
  destruct (String.eqb branch "rawhide"); [split; discriminate|].
  split; reflexivity.
Qed.

Lemma fetch_json_known (url dest : string) (tries : list nat) :
  emits (fun e => negb (is_repo_branch_failure e))
        (fetch_json w url dest tries).
Proof.
  induction tries as [|i tries IH]; simpl; emits_auto. exact IH.
Qed.

Lemma newest_loop_known (lock glob : string) (vs : list string)
  (newest : string * string) :
  emits (fun e => negb (is_repo_branch_failure e))
        (newest_loop lock glob vs newest).
Proof.
  revert newest; induction vs as [|v vs IH]; intros newest; simpl; emits_auto;
    apply IH.
Qed.

Lemma resolve_known (it : Item) : emits (fun e => negb (is_repo_branch_failure e))
        (resolve args w it).
Proof.
  unfold resolve, acquire, checkout, current_version, find_newest,
    switch_branch_and_reset.
  unfold print_debug, print_info, print_fail.
  repeat first [ apply fetch_json_known | apply newest_loop_known | emits_step ].
Qed.

Lemma after_decision_known (it : Item) (d : Decision) :
  emits (fun e => negb (is_repo_branch_failure e))
        (after_decision args w it d).
Proof.
  unfold after_decision, installed_check, after_installed_check, need_update,
    major_guard, apply_update, fetch_tarball, prep_spec, publish,
    sync_to_rawhide_branch, switch_branch_and_reset.
  destruct (release_tag (fedora_branch args)) as [t|] eqn:RT;
    destruct (build_branch (fedora_branch args)) as [t'|] eqn:BB.
  2:{ apply tables_agree in BB. congruence. }
  all: unfold print_debug, print_info, print_fail; repeat local_step.
Qed.

End Tables.

(** X12. The chain of lines 468-481 knows every branch that the chain of lines
    437-450 knows, so the failure of line 479 is never reported: a turn
    that gets past the release tag finds its build branch. *)
Theorem repo_branch_failure_unreachable {E : Extern} (args : Args) (w : World)
  (it : Item) :
  (forall branch, release_tag branch = None <-> build_branch branch = None) /\
  emits (fun e => negb (is_repo_branch_failure e)) (package_body args w it).
Proof.
  split; [apply tables_agree|].
  unfold package_body. apply MonadFacts.emits_bind.
  - apply resolve_known.
  - intros d. apply after_decision_known.
Qed.

(** ** [majorminor] and the lines of the spec file *)

Module SplitFacts.
Import Py.

Lemma split_not_nil (c : ascii) (s : string) : split c s <> [].
Proof.
  destruct s as [|a t]; simpl; [discriminate|].
  destruct (Ascii.eqb a c); [discriminate|].
  destruct (split c t); discriminate.
Qed.

(** The first piece has no separator; what follows it is the rest of the
    string after one separator, cut in the same way. *)
Lemma split_cons (c : ascii) (s x : string) (r : list string) :
  split c s = x :: r ->
  contains_char c x = false /\
  match r with
  | [] => s = x
  | _ :: _ => exists t, s = x ++ String c t /\ split c t = r
  end.
Proof.
  revert x r; induction s as [|a t IH]; intros x r; simpl.
  - intros [= <- <-]. now split.
  - destruct (Ascii.eqb a c) eqn:A.
    + intros [= <- <-]. apply Ascii.eqb_eq in A. subst a. split; [reflexivity|].
      pose proof (split_not_nil c t) as N.
      destruct (split c t) as [|y r'] eqn:S; [congruence|].
      exists t. now split.
    + destruct (split c t) as [|y r'] eqn:S; [now destruct (split_not_nil c t)|].
      intros [= <- <-]. destruct (IH _ _ eq_refl) as [Hy Hr]. split.
      * simpl. now rewrite A, Hy.
      * destruct r' as [|z r'']; [now subst t|].
        destruct Hr as (t' & -> & Ht). exists t'. now split.
Qed.

Lemma split_no_sep (c : ascii) (s : string) :
  contains_char c s = false -> split c s = [s].
Proof.
  induction s as [|a t IH]; simpl; [reflexivity|]. intros H.
  apply orb_false_iff in H as [A Ht]. now rewrite A, (IH Ht).
Qed.

Lemma split_app (c : ascii) (x t : string) :
  contains_char c x = false -> split c (x ++ String c t) = x :: split c t.
Proof.
  induction x as [|a x IH]; simpl; intros H.
  - now rewrite Ascii.eqb_refl.
  - apply orb_false_iff in H as [A Hx]. now rewrite A, (IH Hx).
Qed.

End SplitFacts.

Lemma majorminor_cases (ver : string) :
  match majorminor ver with
  | Some m => (exists rest, ver = m ++ rest) /\ majorminor m = Some m
  | None =>
      Py.contains_char "." ver = false /\
      ver <> "40" /\ ver <> "41" /\ ver <> "42"
  end.
Proof.
  unfold majorminor at 1.
  destruct (Py.split "." ver) as [|v0 rest] eqn:S;
    [now destruct (SplitFacts.split_not_nil "." ver)|].
  destruct (SplitFacts.split_cons _ _ S) as [H0 Hr].
  destruct (String.eqb v0 "40" || String.eqb v0 "41" || String.eqb v0 "42") eqn:G.
  - split.
    + destruct rest as [|v1 r]; [exists ""; now rewrite PyFacts.append_nil_r|].
      destruct Hr as (t & -> & _). eauto.
    + apply orb_true_iff in G as [G | G]; [apply orb_true_iff in G as [G | G]|];
        apply String.eqb_eq in G; subst v0; reflexivity.
  - destruct rest as [|v1 r].
    + subst ver. split; [exact H0|].
      apply orb_false_iff in G as [G G42]. apply orb_false_iff in G as [G40 G41].
      apply String.eqb_neq in G40, G41, G42. auto.
    + destruct Hr as (t & -> & St).
      destruct (SplitFacts.split_cons _ _ St) as [H1 Hr1]. split.
      * destruct r as [|v2 r'].
        -- subst t. exists "". now rewrite PyFacts.append_nil_r.
        -- destruct Hr1 as (t' & -> & _). exists (String "." t').
           now rewrite !PyFacts.append_assoc.
      * unfold majorminor.
        change (v0 ++ "." ++ v1) with (v0 ++ String "." v1).
        rewrite SplitFacts.split_app, SplitFacts.split_no_sep by assumption.
        now rewrite G.
Qed.

(** X13. [majorminor] cuts a version down to a prefix of it, which it then
    leaves as it is; it has no result (the [IndexError] of [v[1]]) exactly
    on a version that has no dot and is not [40], [41] or [42]. *)
Theorem majorminor_prefix (ver : string) :
  (forall m, majorminor ver = Some m ->
             (exists rest, ver = m ++ rest) /\ majorminor m = Some m) /\
  (majorminor ver = None <->
   Py.contains_char "." ver = false /\ ver <> "40" /\ ver <> "41" /\ ver <> "42").
Proof.
  pose proof (majorminor_cases ver) as C. split; [|split].
  - intros m Hm. now rewrite Hm in C.
  - intros Hn. now rewrite Hn in C.
  - intros (Hd & H40 & H41 & H42). unfold majorminor.
    rewrite (SplitFacts.split_no_sep _ _ Hd).
    apply String.eqb_neq in H40, H41, H42. now rewrite H40, H41, H42.
Qed.

Section SourceLines.
Context {E : Extern}.
Variables version_dot new_version new_version_tilde : string.

Lemma rewrite_line_not_source (line : string) :
  is_source_line line = false ->
  exists out, rewrite_line version_dot new_version new_version_tilde line = inr out.
Proof.
  unfold is_source_line, rewrite_line. intros ->.
  destruct (Py.startswith line "Version:"); [eauto|].
  destruct (Py.startswith line "Release:" && negb (Py.contains "autorelease" line));
    eauto.
Qed.

Lemma rewrite_line_index_error (line : string) :
  majorminor version_dot = None \/ majorminor new_version = None ->
  is_source_line line = true ->
  rewrite_line version_dot new_version new_version_tilde line = inl IndexError.
Proof.
  unfold is_source_line, rewrite_line. intros Hm Hs.
  destruct (source_not_value _ Hs) as [-> ->]. cbn [andb]. rewrite Hs.
  destruct (majorminor version_dot) as [old|]; [|reflexivity].
  destruct Hm as [Hm | ->]; [discriminate | reflexivity].
Qed.

Lemma rewrite_spec_index_error (lines : list string) :
  majorminor version_dot = None \/ majorminor new_version = None ->
  if existsb is_source_line lines
  then rewrite_spec version_dot new_version new_version_tilde lines = inl IndexError
  else exists out,
         rewrite_spec version_dot new_version new_version_tilde lines = inr out.
Proof.
  intros Hm. induction lines as [|l lines IH]; cbn [existsb rewrite_spec]; [eauto|].
  destruct (is_source_line l) eqn:S; cbn [orb].
  - now rewrite (rewrite_line_index_error _ Hm S).
  - destruct (rewrite_line_not_source _ S) as (l' & ->).
    destruct (existsb is_source_line lines).
    + now rewrite IH.
    + destruct IH as (out & ->). eauto.
Qed.

(** What is in the temporary file when the rewrite stops at a [Source:]
    line: the rewritten lines that precede the first one. *)
Lemma rewritten_before_source (lines : list string) :
  majorminor version_dot = None \/ majorminor new_version = None ->
  existsb is_source_line lines = true ->
  exists before l rest,
    lines = (before ++ l :: rest)%list /\
    is_source_line l = true /\
    existsb is_source_line before = false /\
    Forall2 (fun a b =>
               rewrite_line version_dot new_version new_version_tilde a = inr b)
      before
      (rewritten_before_failure version_dot new_version new_version_tilde lines).
Proof.
  intros Hm. induction lines as [|l lines IH]; [discriminate|].
  cbn [existsb rewritten_before_failure].
  destruct (is_source_line l) eqn:S; cbn [orb].
  - intros _. exists [], l, lines.
    rewrite (rewrite_line_index_error _ Hm S). repeat split; trivial; constructor.
  - intros H. destruct (IH H) as (before & x & rest & -> & Hx & Hb & Hf).
    destruct (rewrite_line_not_source _ S) as (l' & Hl). rewrite Hl.
    exists (l :: before), x, rest. repeat split; trivial.
    + cbn [existsb]. now rewrite S, Hb.
    + now constructor.
Qed.

End SourceLines.

(** X14. When the version of the spec file or the new version has no
    [majorminor] (no dot, and not [40], [41] or [42]), the rewrite of the
    spec file raises [IndexError] exactly when a [Source:] or [Source0:]
    line is read.  The spec file is then not replaced, but the temporary
    file [<spec>.tmp] is left behind, with the rewritten lines that
    precede the first such line.  Without such a line no [IndexError] is
    raised and as many lines are written as were read: into the file that
    replaces the spec file, or, when the spec file does not decode to its
    end, into a temporary file that is left behind. *)
Theorem prep_spec_needs_majorminor {E : Extern} (w : World) (spec_filename : string)
  (d : Decision) (new_version new_version_tilde : string) (st : St) :
  new_version <> "" ->
  majorminor (d_version_dot d) = None \/ majorminor new_version = None ->
  let lines := read_lines (w_spec_text w) in
  let run := prep_spec w spec_filename d new_version new_version_tilde st in
  if existsb is_source_line lines
  then
    fst run = Raise IndexError /\
    exists before l rest written,
      lines = (before ++ l :: rest)%list /\
      is_source_line l = true /\
      existsb is_source_line before = false /\
      Forall2 (fun a b =>
                 rewrite_line (d_version_dot d) new_version new_version_tilde a
                 = inr b) before written /\
      trace (snd run) =
        (trace st ++ [ESpecWrite (spec_filename ++ ".tmp") written])%list
  else
    fst run <> Raise IndexError /\
    exists out,
      List.length out = List.length lines /\
      trace (snd run) =
        (trace st ++
         [ESpecWrite (if w_spec_decode_error w then spec_filename ++ ".tmp"
                      else spec_filename) out])%list.
Proof.
  intros Hnv Hm lines run. subst lines run. unfold prep_spec.
  assert (truthy new_version = true) as ->
    by (unfold truthy; now apply negb_true_iff, String.eqb_neq).
  cbv zeta.
  pose proof (rewrite_spec_index_error (d_version_dot d) new_version
                new_version_tilde (read_lines (w_spec_text w)) Hm) as R.
  pose proof (rewritten_before_source (d_version_dot d) new_version
                new_version_tilde (read_lines (w_spec_text w)) Hm) as B.
  destruct (existsb is_source_line (read_lines (w_spec_text w))).
  - rewrite R. split; [reflexivity|].
    destruct (B eq_refl) as (before & l & rest & Hl & Hs & Hb & Hf).
    exists before, l, rest. eexists. repeat split; eauto.
  - destruct R as (out & R). rewrite R.
    apply rewrite_spec_frame in R as [L _].
    destruct (w_spec_decode_error w).
    + split; [discriminate|]. exists out. now split.
    + split; [discriminate|]. exists out. now split.
Qed.

(** ** Replacing a value twice *)

Module ReplaceFacts.
Import Py.

Lemma rsplit1_none (c : ascii) (s : string) :
  contains_char c s = false -> rsplit1 c s = None.
Proof.
  induction s as [|a t IH]; simpl; [reflexivity|]. intros H.
  apply orb_false_iff in H as [A Ht]. now rewrite (IH Ht), A.
Qed.

Lemma rsplit1_app (c : ascii) (pre post : string) :
  contains_char c post = false ->
  rsplit1 c (pre ++ String c post) = Some (pre, post).
Proof.
  intros H. induction pre as [|a pre IH]; simpl.
  - now rewrite (rsplit1_none _ _ H), Ascii.eqb_refl.
  - now rewrite IH.
Qed.

Lemma rsplit1_head_app (c : ascii) (pre post : string) :
  contains_char c post = false -> rsplit1_head c (pre ++ String c post) = pre.
Proof. intros H. unfold rsplit1_head. now rewrite rsplit1_app. Qed.

Lemma contains_char_sep (c : ascii) (pre post : string) :
  contains_char c (pre ++ String c post) = true.
Proof.
  rewrite contains_char_app. simpl. rewrite Ascii.eqb_refl. apply orb_true_r.
Qed.

End ReplaceFacts.

(** X15. A value that was put in by [replace_spec_value] is replaced as a
    whole by the next call: with a first value free of spaces and tabs,
    two replacements in a row give what the second one alone gives. *)
Theorem replace_spec_value_last_wins (line r1 r2 : string) :
  Py.contains_char " " r1 = false ->
  Py.contains_char Py.tab r1 = false ->
  replace_spec_value (replace_spec_value line r1) r2 = replace_spec_value line r2.
Proof.
  intros Hs Ht. unfold replace_spec_value at 2 3.
  destruct (Py.contains_char " " line) eqn:Ls.
  - unfold replace_spec_value.
    now rewrite ReplaceFacts.contains_char_sep, ReplaceFacts.rsplit1_head_app.
  - destruct (Py.contains_char Py.tab line) eqn:Lt.
    + destruct (rsplit1_found Py.tab line Lt) as (pre & post & R).
      destruct (rsplit1_some _ _ R) as [El _].
      assert (rsplit1_head Py.tab line = pre) as -> by (unfold rsplit1_head; now rewrite R).
      assert (Py.contains_char " " (pre ++ String Py.tab r1) = false) as N.
      { rewrite El, contains_char_app in Ls. apply orb_false_iff in Ls as [Lp _].
        rewrite contains_char_app, Lp. simpl. now rewrite Hs. }
      unfold replace_spec_value.
      now rewrite N, ReplaceFacts.contains_char_sep, ReplaceFacts.rsplit1_head_app.
    + unfold replace_spec_value. now rewrite Ls, Lt.
Qed.

(** ** What the two normalisations change *)

Module TildeFacts.
Import Py Re ReSpec.

Lemma soften_get (sep : ascii -> bool) (rep : ascii) (s s' : string) :
  soften sep rep s s' ->
  forall i, String.get i s' = String.get i s \/
            (String.get i s' = Some rep /\
             exists c, String.get i s = Some c /\ sep c = true).
Proof.
  induction 1 as [|c s s' H IH|c s s' Hc H IH]; intros i.
  - now left.
  - destruct i as [|i]; simpl; [now left | apply IH].
  - destruct i as [|i]; simpl; [right; eauto | apply IH].
Qed.

Lemma contains_app_r (sub a b : string) :
  contains sub b = true -> contains sub (a ++ b) = true.
Proof.
  intros H. induction a as [|c a IH]; simpl; [exact H|].
  rewrite IH. apply orb_true_r.
Qed.

Lemma contains_prefix (sub r : string) : contains sub (sub ++ r) = true.
Proof.
  destruct (sub ++ r) eqn:S; simpl; unfold startswith;
    rewrite <- S, PyFacts.strip_prefix_app; reflexivity.
Qed.

Lemma contains_tail (sub : string) (c : ascii) (t : string) :
  contains sub (String c t) = false -> contains sub t = false.
Proof. simpl. intros H. now apply orb_false_iff in H as [_ H]. Qed.

Lemma match_at_plain (sep : ascii -> bool) (s : string) :
  plain_version s = true -> match_at sep s = None.
Proof.
  intros Hp. destruct (match_at sep s) as [[[ds w] r]|] eqn:M; [|reflexivity].
  exfalso. destruct (ReFacts.match_at_sound _ _ M) as (c & -> & _ & _ & _ & Hw).
  unfold plain_version in Hp. rewrite forallb_forall in Hp.
  specialize (Hp w Hw). apply negb_true_iff in Hp.
  rewrite contains_app_r in Hp; [discriminate|].
  change (String c (w ++ r)) with (String c "" ++ (w ++ r)).
  apply contains_app_r, contains_prefix.
Qed.

Lemma plain_tail (c : ascii) (t : string) :
  plain_version (String c t) = true -> plain_version t = true.
Proof.
  unfold plain_version. rewrite !forallb_forall. intros H w Hw.
  specialize (H w Hw). apply negb_true_iff in H. apply negb_true_iff.
  now apply contains_tail in H.
Qed.

Lemma sub_fuel_plain (sep : ascii -> bool) (rep : ascii) (n : nat) (s : string) :
  plain_version s = true -> sub_fuel sep rep n s = s.
Proof.
  revert s; induction n as [|n IH]; intros s Hp; [reflexivity|].
  destruct s as [|c t]; [reflexivity|]. cbn [sub_fuel].
  rewrite (match_at_plain sep _ Hp). f_equal. apply IH.
  now apply plain_tail in Hp.
Qed.

End TildeFacts.

(** X16. Both normalisations work in place: the result has the length of the
    version; [tilde] only puts [~] where there was a character other than
    a newline, and [version_dot_of] only puts [.] where there was a [~]. *)
Theorem normalisation_in_place (v : string) :
  String.length (tilde v) = String.length v /\
  String.length (version_dot_of v) = String.length v /\
  (forall i, String.get i (tilde v) = String.get i v \/
             (String.get i (tilde v) = Some "~"%char /\
              String.get i v <> None /\ String.get i v <> Some Py.newline)) /\
  (forall i, String.get i (version_dot_of v) = String.get i v \/
             (String.get i (version_dot_of v) = Some "."%char /\
              String.get i v = Some "~"%char)).
Proof.
  pose proof (ReFacts.sub_fuel_soften Re.any_char "~" (String.length v) v) as T.
  pose proof (ReFacts.sub_fuel_soften Re.is_tilde "." (String.length v) v) as D.
  fold (Re.sub Re.any_char "~" v) in T. fold (tilde v) in T.
  fold (Re.sub Re.is_tilde "." v) in D. fold (version_dot_of v) in D.
  split; [exact (ReFacts.soften_length T)|].
  split; [exact (ReFacts.soften_length D)|].
  split; intros i.
  - destruct (TildeFacts.soften_get T i) as [H | (H & c & Hc & Hs)]; [now left|].
    right. rewrite Hc. split; [exact H|]. split; [discriminate|].
    intros [= ->]. discriminate.
  - destruct (TildeFacts.soften_get D i) as [H | (H & c & Hc & Hs)]; [now left|].
    right. split; [exact H|]. rewrite Hc. f_equal.
    unfold Re.is_tilde in Hs. now apply Ascii.eqb_eq in Hs.
Qed.

(** X17. A version in which none of [alpha], [beta] and [rc] occurs is its own
    normal form, in the tilde form and in the dotted one. *)
Theorem plain_version_unchanged (v : string) :
  plain_version v = true -> tilde v = v /\ version_dot_of v = v.
Proof.
  intros H. split; apply TildeFacts.sub_fuel_plain; exact H.
Qed.

(** ** [get_modules] *)

Module StripFacts.
Import Py.

Lemma rev_string_acc (s acc : string) :
  rev_string acc s = rev_string "" s ++ acc.
Proof.
  revert acc; induction s as [|c t IH]; intros acc; simpl; [reflexivity|].
  rewrite (IH (String c acc)), (IH (String c "")).
  now rewrite PyFacts.append_assoc.
Qed.

Lemma rev_string_app (a b : string) :
  rev_string "" (a ++ b) = rev_string "" b ++ rev_string "" a.
Proof.
  induction a as [|c a IH]; simpl; [now rewrite PyFacts.append_nil_r|].
  rewrite (rev_string_acc (a ++ b)), (rev_string_acc a), IH.
  now rewrite PyFacts.append_assoc.
Qed.

(** What is left after the longest prefix has no such prefix. *)
Lemma span_rest (p : ascii -> bool) (s : string) :
  span p (snd (span p s)) = ("", snd (span p s)).
Proof.
  induction s as [|c t IH]; simpl; [reflexivity|].
  destruct (p c) eqn:C.
  - destruct (span p t) as [a b]. exact IH.
  - simpl. now rewrite C.
Qed.

Lemma span_nil_app (p : ascii -> bool) (a b : string) :
  span p (a ++ b) = ("", a ++ b) -> span p a = ("", a).
Proof.
  destruct a as [|c a]; simpl; [reflexivity|].
  destruct (p c); [|reflexivity].
  destruct (span p (a ++ b)); discriminate.
Qed.

Lemma strip_idempotent (s : string) : strip (strip s) = strip s.
Proof.
  unfold strip.
  set (s1 := snd (span is_space s)).
  set (r1 := rev_string "" s1).
  set (r2 := snd (span is_space r1)).
  set (t := rev_string "" r2).
  assert (span is_space r2 = ("", r2)) as H2 by apply span_rest.
  assert (span is_space t = ("", t)) as Ht.
  { apply span_nil_app with (b := rev_string "" (fst (span is_space r1))).
    assert (s1 = t ++ rev_string "" (fst (span is_space r1))) as <-.
    { subst t. rewrite <- rev_string_app.
      unfold r2. rewrite (PyFacts.span_app is_space r1).
      subst r1. now rewrite IntFacts.rev_string_involutive. }
    apply span_rest. }
  rewrite Ht. cbn [snd]. subst t. rewrite IntFacts.rev_string_involutive.
  rewrite H2. reflexivity.
Qed.

End StripFacts.

(** X18. [get_modules] (lines 64-70) yields one entry for each line that
    does not begin with [#], in the order of the file, and every entry is
    stripped: stripping it again changes nothing.  A line that is blank,
    or has its [#] after white space, is not left out; and the entries
    of a file are those of its beginning followed by those of its end. *)
Theorem get_modules_entries (lines : list string) :
  get_modules lines =
    map strip (filter (fun line => negb (Py.startswith line "#")) lines) /\
  (forall m, In m (get_modules lines) -> strip m = m) /\
  (forall more, get_modules (lines ++ more) =
                (get_modules lines ++ get_modules more)%list).
Proof.
  assert (forall ls, get_modules ls =
            map strip (filter (fun line => negb (Py.startswith line "#")) ls)) as F.
  { induction ls as [|l ls IH]; simpl; [reflexivity|].
    destruct (Py.startswith l "#"); simpl; now rewrite IH. }
  split; [apply F|]. split.
  - intros m. rewrite F, in_map_iff. intros (l & <- & _).
    apply StripFacts.strip_idempotent.
  - intros more. now rewrite !F, filter_app, map_app.
Qed.

(** ** The loop over the packages *)

(** X19. The loop takes the packages in order and stops at the first
    exception: the run over a list followed by another is the run over the
    first, then, unless that raised, the run over the second from where
    the first ended.  A disabled item, and with [--buildone] every item
    of another name, is passed over without a trace. *)
Theorem package_loop_in_order {E : Extern} (args : Args)
  (todo more : list (Item * World)) (st : St) :
  package_loop args (todo ++ more) st =
    match package_loop args todo st with
    | (Some e, st') => (Some e, st')
    | (None, st') => package_loop args more st'
    end /\
  package_loop args todo st =
    package_loop args (filter (fun p => selected args (fst p)) todo) st /\
  (forall it one, buildone args = Some one -> selected args it = true ->
                  name it = one /\ disabled it = false).
Proof.
  split; [|split].
  - revert st; induction todo as [|[it w] todo IH]; intros st; [reflexivity|].
    cbn [app package_loop].
    destruct (selected args it); [|apply IH].
    destruct (package_body args w it st) as [[x| |e] st1]; auto.
  - revert st; induction todo as [|[it w] todo IH]; intros st; [reflexivity|].
    cbn [package_loop filter fst].
    destruct (selected args it) eqn:S; [|apply IH].
    cbn [package_loop]. rewrite S.
    destruct (package_body args w it st) as [[x| |e] st1]; auto.
  - intros it one Hb Hs. unfold selected in Hs. rewrite Hb in Hs.
    apply andb_true_iff in Hs as [Hd Hn].
    apply negb_true_iff in Hd. apply String.eqb_eq in Hn. now split.
Qed.

(** ** The lock files of other packages *)

Module IsolationFacts.

Section Keeps.
Variable path : string.

Lemma keeps_same (A : Type) (m : M A) :
  (forall st, locks (snd (m st)) = locks st) -> keeps_other_locks path m.
Proof. intros H st q _. now rewrite H. Qed.

Lemma keeps_bind (A B : Type) (m : M A) (k : A -> M B) :
  keeps_other_locks path m -> (forall x, keeps_other_locks path (k x)) ->
  keeps_other_locks path (bind m k).
Proof.
  intros Hm Hk st q Hq. unfold bind. specialize (Hm st q Hq).
  destruct (m st) as [[x| |e] st1]; cbn [snd] in *; trivial.
  now rewrite (Hk x st1 q Hq).
Qed.

Lemma keeps_unlock : keeps_other_locks path (unlock_file path).
Proof.
  intros st q Hq. unfold unlock_file.
  destruct (lookup path (locks st)); [|reflexivity].
  cbn [snd locks]. now apply LockFileFacts.lookup_remove_other.
Qed.

Lemma keeps_write (content : string) :
  keeps_other_locks path (write_lock path content).
Proof.
  intros st q Hq. unfold write_lock. cbn [snd locks].
  rewrite LockFileFacts.lookup_written.
  apply String.eqb_neq in Hq. now rewrite Hq.
Qed.

Lemma exits_never (A : Type) (m : M A) :
  (forall st, fst (m st) <> Next) -> exits_unlocked path m.
Proof. intros H st E'. now destruct (H st). Qed.

Lemma exits_bind (A B : Type) (m : M A) (k : A -> M B) :
  exits_unlocked path m -> (forall x, exits_unlocked path (k x)) ->
  exits_unlocked path (bind m k).
Proof.
  intros Hm Hk st. unfold bind. specialize (Hm st).
  destruct (m st) as [[x| |e] st1]; simpl in *;
    [apply Hk | intros _; now apply Hm | discriminate].
Qed.

Lemma exits_unlock_continue (A : Type) :
  exits_unlocked path (unlock_file path ;; @continue A).
Proof.
  intros st _. unfold bind, continue.
  destruct (MonadFacts.unlock_file_absent path st) as [Hv Hl].
  destruct (unlock_file path st) as [r st1]. simpl in *. now subst r.
Qed.

End Keeps.

End IsolationFacts.

Ltac keeps_step :=
  lazymatch goal with
  | |- keeps_other_locks _ (unlock_file _) => apply IsolationFacts.keeps_unlock
  | |- keeps_other_locks _ (write_lock _ _) => apply IsolationFacts.keeps_write
  | |- keeps_other_locks _ (bind _ _) =>
      apply IsolationFacts.keeps_bind; [|intros ?]
  | |- keeps_other_locks _ (if ?b then _ else _) => destruct b
  | |- keeps_other_locks _ (match ?x with _ => _ end) => destruct x
  | |- keeps_other_locks _ _ =>
      apply IsolationFacts.keeps_same; intros ?;
      unfold ret, raise, continue, emit, run_command, lock_content, assign_pid,
        read_pid, start_package;
      try match goal with
          | |- context [match ?x with _ => _ end] => destruct x
          end;
      reflexivity
  end.

Ltac never_exits :=
  apply IsolationFacts.exits_never; intros ?;
  unfold ret, raise, emit, print_debug, print_info, print_fail,
         unlock_file, write_lock, run_command, lock_content,
         assign_pid, read_pid, start_package; cbn [fst];
  repeat match goal with
         | |- context [match ?x with _ => _ end] => destruct x; cbn [fst]
         end;
  discriminate.

Ltac exits_step :=
  lazymatch goal with
  | |- exits_unlocked _ (unlock_file _ ;; continue) =>
      apply IsolationFacts.exits_unlock_continue
  | |- exits_unlocked _ (ret _) => never_exits
  | |- exits_unlocked _ (raise _) => never_exits
  | |- exits_unlocked _ (emit _) => never_exits
  | |- exits_unlocked _ (print_debug _ _) => never_exits
  | |- exits_unlocked _ (print_info _ _) => never_exits
  | |- exits_unlocked _ (print_fail _ _) => never_exits
  | |- exits_unlocked _ (unlock_file _) => never_exits
  | |- exits_unlocked _ (write_lock _ _) => never_exits
  | |- exits_unlocked _ (run_command _ _ _) => never_exits
  | |- exits_unlocked _ (bind _ _) => apply IsolationFacts.exits_bind; [|intros ?]
  | |- exits_unlocked _ (if ?b then _ else _) => destruct b
  | |- exits_unlocked _ (match ?x with _ => _ end) => destruct x
  end.

Section Isolation.
Context {E : Extern}.
Variable args : Args.
Variable w : World.
Variable it : Item.

Lemma fetch_json_keeps (path url dest : string) (tries : list nat) :
  keeps_other_locks path (fetch_json w url dest tries).
Proof.
  induction tries as [|i tries IH]; simpl; unfold print_fail;
    repeat first [ exact IH | keeps_step ].
Qed.

Lemma newest_loop_keeps (lock glob : string) (vs : list string)
  (newest : string * string) :
  keeps_other_locks lock (newest_loop lock glob vs newest).
Proof.
  revert newest; induction vs as [|v vs IH]; intros newest; simpl;
    repeat first [ apply IH | keeps_step ].
Qed.

Lemma package_body_keeps :
  keeps_other_locks (lock_path args it) (package_body args w it).
Proof.
  unfold package_body, resolve, acquire, checkout, current_version, find_newest,
    after_decision, installed_check, after_installed_check, need_update,
    major_guard, apply_update, fetch_tarball, prep_spec, publish,
    sync_to_rawhide_branch, switch_branch_and_reset, lock_path.
  unfold print_debug, print_info, print_fail.
  repeat first [ apply fetch_json_keeps | apply newest_loop_keeps | keeps_step ].
Qed.

(** Taking the lock: the turn ends with every lock file as it was, because
    a live process holds the lock; or it raises; or it goes on. *)
Lemma acquire_cases (lock : string) (st : St) :
  (exists st', acquire w lock st = (Next, st') /\ locks st' = locks st /\
               exists content p,
                 lookup lock (locks st) = Some content /\
                 py_int content = Some p /\ w_proc_alive w p = true) \/
  (exists e st', acquire w lock st = (Raise e, st')) \/
  (exists st', acquire w lock st = (Val tt, st')).
Proof.
  unfold acquire, bind, lock_content, assign_pid, read_pid, write_lock, ret,
    print_info, print_fail, emit, continue. cbv beta iota. cbn [locks pid_var trace].
  destruct (lookup lock (locks st)) as [content|] eqn:L.
  - destruct (py_int content) as [p|] eqn:I; cbv beta iota; cbn [pid_var].
    + destruct (w_proc_alive w p) eqn:Al; cbv beta iota; cbn [pid_var].
      * left. eexists. split; [reflexivity|]. split; [reflexivity|]. eauto.
      * right. right. eexists. reflexivity.
    + destruct (pid_var st) as [q|]; cbv beta iota.
      * right. right. eexists. reflexivity.
      * right. left. eexists. eexists. reflexivity.
  - right. right. eexists. reflexivity.
Qed.

Lemma fetch_json_exits (path url dest : string) (tries : list nat) :
  exits_unlocked path (fetch_json w url dest tries).
Proof.
  apply IsolationFacts.exits_never. intros st.
  rewrite fetch_json_result. discriminate.
Qed.

Lemma newest_loop_exits (lock glob : string) (vs : list string)
  (newest : string * string) :
  exits_unlocked lock (newest_loop lock glob vs newest).
Proof.
  apply IsolationFacts.exits_never. intros st.
  destruct (newest_loop_value lock glob vs newest st) as (st' & -> & _).
  discriminate.
Qed.

Lemma after_decision_exits (d : Decision) :
  exits_unlocked (lock_path args it) (after_decision args w it d).
Proof.
  unfold after_decision, installed_check, after_installed_check, need_update,
    major_guard, apply_update, fetch_tarball, prep_spec, publish, lock_path,
    sync_to_rawhide_branch, switch_branch_and_reset.
  repeat exits_step.
Qed.

Lemma package_body_settles (st : St) :
  match fst (package_body args w it st) with
  | Raise _ => True
  | _ =>
      lookup (lock_path args it) (locks (snd (package_body args w it st))) = None \/
      (locks (snd (package_body args w it st)) = locks st /\
       exists content p,
         lookup (lock_path args it) (locks st) = Some content /\
         py_int content = Some p /\ w_proc_alive w p = true)
  end.
Proof.
  destruct (package_body args w it st) as [r st'] eqn:R. cbn [fst snd].
  unfold package_body, resolve in R. cbv zeta in R.
  fold (lock_path args it) in R.
  rewrite GateFacts.bind_assoc in R. unfold bind at 1 in R.
  unfold start_package at 1 in R. cbv beta iota in R.
  rewrite GateFacts.bind_assoc in R. unfold bind at 1 in R.
  unfold print_info at 1, emit at 1 in R. cbv beta iota in R.
  rewrite GateFacts.bind_assoc in R. unfold bind at 1 in R.
  unfold print_debug at 1, emit at 1 in R. cbv beta iota in R.
  rewrite GateFacts.bind_assoc in R. unfold bind at 1 in R.
  destruct (lookup (fedora_branch args) (release_glob it)) as [glob|].
  2:{ unfold raise in R. injection R as <- _. exact I. }
  unfold ret at 1 in R. cbv beta iota in R.
  rewrite GateFacts.bind_assoc in R. unfold bind at 1 in R.
  unfold print_debug at 1, emit at 1 in R. cbv beta iota in R.
  cbn [locks pid_var ncmd trace] in R.
  rewrite GateFacts.bind_assoc in R.
  match type of R with
  | bind _ _ ?s = _ =>
      destruct (acquire_cases (lock_path args it) s)
        as [(s6 & Ha & Hl & content & p & Hc & Hp & Hal)
           | [(e & s6 & Ha) | (s6 & Ha)]];
      unfold bind at 1 in R; rewrite Ha in R
  end.
  - injection R as <- <-. right. split; [exact Hl|]. eauto.
  - injection R as <- _. exact I.
  - cbv beta in R.
    match type of R with
    | ?m s6 = _ =>
        assert (exits_unlocked (lock_path args it) m) as Hx;
        [| assert (finishes_unlocked (lock_path args it) m) as Hf ]
    end.
    + apply IsolationFacts.exits_bind; [|intros d; apply after_decision_exits].
      unfold checkout, current_version, find_newest, switch_branch_and_reset.
      repeat first
        [ apply fetch_json_exits | apply newest_loop_exits | exits_step ].
    + apply LockFacts.finishes_bind. intros d.
      apply LockFacts.after_decision_finishes.
    + specialize (Hx s6). specialize (Hf s6). rewrite R in Hx, Hf. cbn [fst snd] in *.
      destruct r as [x| |e]; [left; now apply (Hf x) | left; now apply Hx | exact I].
Qed.

End Isolation.

(** X20. Whatever the outside world answers, the turn of a package leaves the
    lock file of every other package as it was; and unless it raises, it
    ends either with its own lock file removed, or, having found it held
    by a live process, with every lock file as it was. *)
Theorem turn_settles_its_lock {E : Extern} (args : Args) (w : World) (it : Item)
  (st : St) :
  let lock := lock_path args it in
  let run := package_body args w it st in
  (forall q, q <> lock -> lookup q (locks (snd run)) = lookup q (locks st)) /\
  match fst run with
  | Raise _ => True
  | _ =>
      lookup lock (locks (snd run)) = None \/
      (locks (snd run) = locks st /\
       exists content p,
         lookup lock (locks st) = Some content /\
         py_int content = Some p /\ w_proc_alive w p = true)
  end.
Proof.
  cbv zeta. split.
  - intros q Hq. now apply package_body_keeps.
  - apply package_body_settles.
Qed.

(** X21. A run of the loop that ends without an exception leaves no lock file
    of its own: a lock file that exists at the end was there at the start,
    with the same content. *)
Theorem loop_leaves_no_lock {E : Extern} (args : Args) (todo : list (Item * World))
  (st st' : St) :
  package_loop args todo st = (None, st') ->
  forall q, lookup q (locks st') = None \/ lookup q (locks st') = lookup q (locks st).
Proof.
  revert st; induction todo as [|[it w] todo IH]; intros st; cbn [package_loop].
  - intros [= <-] q. now right.
  - destruct (selected args it); [|apply IH].
    pose proof (package_body_keeps args w it st) as K.
    pose proof (package_body_settles args w it st) as S0.
    destruct (package_body args w it st) as [r st1]. cbn [fst snd] in *.
    assert (match r with Raise _ => True | _ =>
              forall q, lookup q (locks st1) = None \/
                        lookup q (locks st1) = lookup q (locks st) end) as T.
    { destruct r as [x| |e]; [| |exact I]; intros q;
        (destruct (String.eqb q (lock_path args it)) eqn:Q;
         [ apply String.eqb_eq in Q; subst q;
           destruct S0 as [S0 | [S0 _]]; [now left | right; now rewrite S0]
         | apply String.eqb_neq in Q; right; now apply K ]). }
    destruct r as [x| |e]; [| |discriminate];
      intros H q; destruct (IH _ H q) as [H1 | H1]; auto;
      rewrite H1; apply T.
Qed.

(** ** The tarball *)

Section Tarball.
Context {E : Extern}.
Variable args : Args.
Variable w : World.
Variable it : Item.

Lemma gated_then (P g : Event -> bool) (A B : Type) (m : M A) (k : A -> M B) :
  gated P g m -> (forall x, emits P (k x)) -> gated P g (bind m k).
Proof.
  intros Hm Hk st. destruct (Hm st) as (a & b & Ht & Ha & Hb). unfold bind.
  destruct (m st) as [[x| |e] st1]; cbn [snd] in *; [|now exists a, b..].
  destruct (Hk x st1) as (c & Hc & Hp).
  destruct Hb as [-> | Hb].
  - exists (a ++ c)%list, []. rewrite Hc, Ht, !app_nil_r, <- app_assoc.
    split; [reflexivity|]. split; [now rewrite forallb_app, Ha, Hp | now left].
  - exists a, (b ++ c)%list. rewrite Hc, Ht, <- !app_assoc. auto.
Qed.

Lemma upload_gated (d : Decision) (nv nvt : string) :
  gated (fun e => negb (is_cmd "fedpkg" "new-sources" e)) is_tarball_ok
        (apply_update args w it d nv nvt).
Proof.
  unfold apply_update.
  apply GateFacts.gated_bind; [solve [emits_auto] | intros _].
  apply gated_then.
  2:{ intros _. unfold prep_spec, publish, sync_to_rawhide_branch,
        switch_branch_and_reset. emits_auto. }
  unfold fetch_tarball.
  destruct (truthy nv); [|apply GateFacts.gated_emits; emits_auto].
  do 2 (apply GateFacts.gated_bind; [solve [emits_auto] | intros ?]).
  destruct (w_tarball_present w); [apply GateFacts.gated_emits; emits_auto|].
  apply GateFacts.gated_bind; [solve [emits_auto] | intros _].
  apply GateFacts.gated_open.
  - intros st. destruct (w_tarball_ok w).
    + eexists. split; [reflexivity|]. split; reflexivity.
    + unfold bind, print_fail, emit, continue, unlock_file. cbv beta iota.
      cbn [locks trace].
      match goal with
      | |- context [lookup ?p ?m] => destruct (lookup p m)
      end; cbn [fst snd trace];
        (eexists; split; [rewrite <- ?app_assoc; reflexivity|];
         split; [reflexivity | discriminate]).
  - intros _. emits_auto.
Qed.

End Tarball.

(** X22. In the turn of a package the new sources are uploaded only after the
    tarball has been downloaded in this turn: no [fedpkg new-sources]
    before a download that succeeded, and none at all when the tarball
    was already there. *)
Theorem upload_only_after_download {E : Extern} (args : Args) (w : World)
  (it : Item) (st : St) :
  exists evs,
    trace (snd (package_body args w it st)) = (trace st ++ evs)%list /\
    preceded_by is_tarball_ok (is_cmd "fedpkg" "new-sources") false evs = true.
Proof.
  assert (gated (fun e => negb (is_cmd "fedpkg" "new-sources" e)) is_tarball_ok
                (package_body args w it)) as G0.
  { apply package_body_gated.
    - intros e. now apply GateFacts.quiet_not_cmd.
    - intros d nv nvt. apply upload_gated. }
  destruct (G0 st) as (a & b & Ht & _).
  exists (a ++ b)%list. split; [exact Ht|].
  eapply GateFacts.gated_preceded with (m := package_body args w it);
    [ intros e; reflexivity | exact G0 | exact Ht ].
Qed.

(** ** What a decision rests on *)

(** X23. A decision is reached only with the version of the spec file read and
    the JSON fetched; its newest remote version is one of the published
    versions, accepted by the glob of the branch and never the initial
    ['0']; and it asks for an update exactly when the normalised newest
    remote version compares above the version of the spec file, the
    update being to that newest version. *)
Theorem update_only_when_newer {E : Extern} (args : Args) (w : World) (it : Item)
  (st st1 : St) (d : Decision) :
  resolve args w it st = (Val d, st1) ->
  w_spec_version w = Some (d_version d) /\
  w_json w = Some (d_json d) /\
  (exists glob vs,
     lookup (fedora_branch args) (release_glob it) = Some glob /\
     j_versions (d_json d) = Some vs /\
     In (d_newest d) vs /\ version_valid glob (d_newest d) = true) /\
  d_newest d <> "0" /\
  match d_new d with
  | Some (nv, nvt) =>
      nv = d_newest d /\ nvt = tilde nv /\
      (labelCompare nvt (d_version d) > 0)%Z
  | None => (labelCompare (tilde (d_newest d)) (d_version d) <= 0)%Z
  end.
Proof.
  intros Hres.
  destruct (DecisionFacts.resolve_inv _ _ _ _ Hres)
    as (glob & vs & G & _ & Hv & _ & _ & J & V & _ & N0 & Hin & Hval & _ & Hnew).
  split; [exact Hv|]. split; [exact J|].
  split; [exists glob, vs; auto|]. split; [exact N0|].
  rewrite Hnew.
  destruct (labelCompare (tilde (d_newest d)) (d_version d) >? 0)%Z eqn:C.
  - apply Z.gtb_lt in C. repeat split; lia.
  - assert (~ (labelCompare (tilde (d_newest d)) (d_version d) > 0)%Z) as C'.
    { intros X. apply Z.gt_lt, Z.gtb_lt in X. congruence. }
    lia.
Qed.

(** ** A simulated run *)

Section Simulated.
Context {E : Extern}.
Variable args : Args.
Variable w : World.
Variable it : Item.

Lemma unfinished_bind (A B : Type) (m : M A) (k : A -> M B) :
  (forall x st y, fst (k x st) <> Val y) ->
  forall st y, fst (bind m k st) <> Val y.
Proof.
  intros Hk st y. unfold bind.
  destruct (m st) as [[x| |e] st1]; cbn [fst]; [apply Hk | discriminate..].
Qed.

Lemma unfinished_exit (A B : Type) (m : M A) (k : A -> M B) :
  (forall st, exists st', m st = (Next, st')) ->
  forall st y, fst (bind m k st) <> Val y.
Proof.
  intros Hm st y. unfold bind. destruct (Hm st) as (st' & ->). discriminate.
Qed.

Lemma simulate_unfinished (st : St) (y : unit) :
  simulate args = true -> fst (package_body args w it st) <> Val y.
Proof.
  intros Hsim. revert st y. unfold package_body.
  apply unfinished_bind. intros d. unfold after_decision.
  apply unfinished_bind. intros _. unfold after_installed_check.
  apply unfinished_bind. intros new.
  apply unfinished_bind. intros _. unfold apply_update.
  do 3 (apply unfinished_bind; intros ?). unfold publish. rewrite Hsim.
  repeat first
    [ apply unfinished_exit; solve [exits_now]
    | apply unfinished_bind; intros ? ].
Qed.

Lemma preceded_by_none (g p : Event -> bool) (evs : list Event) (seen : bool) :
  preceded_by g p seen evs = true -> seen = false -> existsb g evs = false ->
  existsb p evs = false.
Proof.
  revert seen; induction evs as [|e r IH]; intros seen H Hs Hg; [reflexivity|].
  subst seen. cbn [preceded_by existsb orb] in *.
  apply orb_false_iff in Hg as [Ge Gr]. rewrite Ge in H.
  apply andb_true_iff in H as [He Hr]. rewrite orb_false_r in He.
  apply negb_true_iff in He. rewrite He. cbn [orb].
  now apply (IH false).
Qed.

End Simulated.

(** X24. With [--simulate] the turn of a package never runs to its end: it
    stops at the latest where it would push.  It uploads no sources,
    pushes nothing and starts no build, whatever the outside world
    answers. *)
Theorem simulate_ends_before_push {E : Extern} (args : Args) (w : World)
  (it : Item) (st : St) :
  simulate args = true ->
  let run := package_body args w it st in
  (forall y, fst run <> Val y) /\
  exists evs,
    trace (snd run) = (trace st ++ evs)%list /\
    existsb (is_cmd "fedpkg" "new-sources") evs = false /\
    existsb (is_cmd "git" "push") evs = false /\
    existsb (is_cmd "fedpkg" "build") evs = false.
Proof.
  intros Hsim run. subst run. split.
  - intros y. now apply simulate_unfinished.
  - destruct (@simulate_stays_local E args w it Hsim st) as (evs & Ht & Hl).
    exists evs. split; [exact Ht|].
    assert (existsb (is_cmd "fedpkg" "new-sources") evs = false /\
            existsb (is_cmd "git" "push") evs = false) as [Hn Hp].
    { clear Ht. induction evs as [|e r IH]; [now split|].
      cbn [forallb existsb] in *. apply andb_true_iff in Hl as [He Hr].
      destruct (IH Hr) as [-> ->]. unfold local_only in He.
      apply negb_true_iff, orb_false_iff in He as [-> ->]. now split. }
    split; [exact Hn|]. split; [exact Hp|].
    assert (preceded_by (is_cmd_ok "git" "push") (is_cmd "fedpkg" "build") false evs
            = true) as Hb.
    { eapply GateFacts.gated_preceded with (m := package_body args w it);
        [ intros e; reflexivity | | exact Ht ].
      apply package_body_gated; [|apply build_gated].
      intros e. now apply GateFacts.quiet_not_cmd. }
    apply (@preceded_by_none _ _ _ _ Hb eq_refl).
    clear - Hp. induction evs as [|e r IH]; [reflexivity|].
    cbn [existsb] in *. apply orb_false_iff in Hp as [He Hr].
    rewrite (IH Hr), orb_false_r.
    unfold is_cmd_ok, is_cmd in *. destruct e as [| cwd argv rc | | | | |]; trivial.
    destruct argv as [|x [|y' r']]; trivial. now rewrite He.
Qed.

(** ** Without the sync to rawhide *)

Section NoSync.
Context {E : Extern}.
Variable args : Args.
Variable w : World.
Variable it : Item.

Hypothesis no_sync :
  no_rawhide_sync args = true \/ fedora_branch args = "rawhide".

Lemma sync_test_false :
  negb (no_rawhide_sync args) && negb (String.eqb (fedora_branch args) "rawhide")
  = false.
Proof.
  destruct no_sync as [-> | ->]; [reflexivity|].
  rewrite String.eqb_refl. apply andb_false_r.
Qed.

Lemma no_sync_stays_on_branch :
  emits (fun e => negb (is_cmd "git" "merge" e || is_cmd "git" "cherry-pick" e))
        (package_body args w it).
Proof.
  unfold package_body. apply MonadFacts.emits_bind.
  { apply MonadFacts.emits_weaken with (P := quiet); [|apply resolve_quiet].
    intros e Q.
    pose proof (@GateFacts.quiet_not_cmd "git" "merge" e eq_refl Q) as H1.
    pose proof (@GateFacts.quiet_not_cmd "git" "cherry-pick" e eq_refl Q) as H2.
    apply negb_true_iff in H1, H2. now rewrite H1, H2. }
  intros d. unfold after_decision, installed_check, after_installed_check,
    need_update, major_guard, apply_update, fetch_tarball, prep_spec, publish.
  rewrite sync_test_false.
  emits_auto.
Qed.

Lemma no_sync_no_build :
  no_build args = true ->
  emits (fun e => negb (is_cmd "fedpkg" "build" e)) (package_body args w it).
Proof.
  intros Hb. unfold package_body. apply MonadFacts.emits_bind.
  { apply MonadFacts.emits_weaken with (P := quiet); [|apply resolve_quiet].
    intros e. now apply GateFacts.quiet_not_cmd. }
  intros d. unfold after_decision, installed_check, after_installed_check,
    need_update, major_guard, apply_update, fetch_tarball, prep_spec, publish.
  rewrite sync_test_false, Hb. cbn [negb].
  emits_auto.
Qed.

End NoSync.

(** X25. With [--no-rawhide-sync], or on the rawhide branch itself, the turn
    of a package runs no [git merge] and no [git cherry-pick], and with
    [--no-build] as well it starts no build at all.  (With the sync,
    [sync_to_rawhide_branch] starts a build of its own, [--no-build] or
    not.) *)
Theorem without_rawhide_sync {E : Extern} (args : Args) (w : World) (it : Item) :
  no_rawhide_sync args = true \/ fedora_branch args = "rawhide" ->
  emits (fun e => negb (is_cmd "git" "merge" e || is_cmd "git" "cherry-pick" e))
        (package_body args w it) /\
  (no_build args = true ->
   emits (fun e => negb (is_cmd "fedpkg" "build" e)) (package_body args w it)).
Proof.
  intros H. split.
  - now apply no_sync_stays_on_branch.
  - now apply no_sync_no_build.
Qed.

(** ** The checkout comes first *)

Section Checkout.
Context {E : Extern}.
Variable args : Args.
Variable w : World.
Variable it : Item.

Lemma checkout_opens (pkg lock pkg_cache : string) (st : St) :
  exists evs,
    trace (snd (checkout args w pkg lock pkg_cache st)) = (trace st ++ evs)%list /\
    forallb (fun e => negb (is_json_fetch e || updating e)) evs = true /\
    (forall x, fst (checkout args w pkg lock pkg_cache st) = Val x ->
       existsb (ran_ok ["git"; "reset"; "--hard"; "origin/" ++ fedora_branch args])
               evs = true).
Proof.
  unfold checkout, switch_branch_and_reset, bind, run_command, ret, print_fail,
    emit, continue, unlock_file.
  destruct (w_checked_out w); cbn [negb fst snd ncmd trace locks];
    repeat match goal with
           | |- context [(?r =? 0)%Z] =>
               let E' := fresh "E" in
               destruct (r =? 0)%Z eqn:E'; cbn [negb fst snd ncmd trace locks]
           | |- context [match lookup ?p ?m with _ => _ end] =>
               destruct (lookup p m); cbn [negb fst snd ncmd trace locks]
           end;
    (eexists; split; [rewrite <- ?app_assoc; reflexivity|];
     split; [reflexivity|]; try discriminate;
     intros _ _; cbn [app existsb ran_ok];
     rewrite argv_eqb_refl;
     repeat match goal with
            | H : (?r =? 0)%Z = _ |- context [(?r =? 0)%Z] => rewrite H
            end;
     cbn; now rewrite ?orb_true_r).
Qed.

Lemma reset_gated :
  gated (fun e => negb (is_json_fetch e || updating e))
        (ran_ok ["git"; "reset"; "--hard"; "origin/" ++ fedora_branch args])
        (package_body args w it).
Proof.
  unfold package_body, resolve. cbv zeta.
  do 6 (apply GateFacts.gated_assoc;
        apply GateFacts.gated_bind; [solve [emits_auto] | intros ?]; cbv beta).
  apply GateFacts.gated_assoc. apply GateFacts.gated_open.
  { apply checkout_opens. }
  intros _. apply MonadFacts.emits_bind.
  - unfold current_version, find_newest.
    unfold print_debug, print_info, print_fail.
    repeat first
      [ apply open_of_quiet, fetch_json_quiet
      | apply open_of_quiet, newest_loop_quiet
      | emits_step ].
  - intros d. unfold after_decision, installed_check, after_installed_check,
      need_update, major_guard.
    unfold print_debug, print_info, print_fail.
    repeat first [ apply apply_update_open | emits_step ].
Qed.

End Checkout.

(** X26. In the turn of a package nothing is fetched from GNOME and nothing of
    the package is changed before the work tree has been reset to
    [origin/<branch>] with success: no download of [cache.json] or of a
    tarball, no rewrite of the spec file and none of the commands of the
    update. *)
Theorem nothing_before_the_reset {E : Extern} (args : Args) (w : World) (it : Item)
  (st : St) :
  exists evs,
    trace (snd (package_body args w it st)) = (trace st ++ evs)%list /\
    preceded_by (ran_ok ["git"; "reset"; "--hard"; "origin/" ++ fedora_branch args])
                (fun e => is_json_fetch e || updating e) false evs = true.
Proof.
  pose proof (reset_gated args w it) as G0.
  destruct (G0 st) as (a & b & Ht & _).
  exists (a ++ b)%list. split; [exact Ht|].
  eapply GateFacts.gated_preceded with (m := package_body args w it);
    [ intros e; reflexivity | exact G0 | exact Ht ].
Qed.

(** ** These properties at work *)

(** The lock file that process 999 left behind for [glib2]. *)
Lemma acquire_reclaims_stale_lock_witness :
  (lookup "cache/glib2-mclazy.lock" (locks Scenario.two_locks) = Some "999" /\
   py_int "999" = Some 999%Z /\
   w_proc_alive Scenario.world_a 999 = false) /\
  (fst (acquire Scenario.world_a "cache/glib2-mclazy.lock" Scenario.two_locks)
     = Val tt /\
   trace (snd (acquire Scenario.world_a "cache/glib2-mclazy.lock"
                 Scenario.two_locks)) =
     [ELog Fail "Process with PID %i locked but did not release" [AInt 999];
      ELockWrite "cache/glib2-mclazy.lock" "4242"]).
Proof.
  assert (lookup "cache/glib2-mclazy.lock" (locks Scenario.two_locks) = Some "999")
    as H1 by reflexivity.
  assert (py_int "999" = Some 999%Z) as H2 by (vm_compute; reflexivity).
  assert (w_proc_alive Scenario.world_a 999 = false) as H3 by reflexivity.
  split; [exact (conj H1 (conj H2 H3))|].
  pose proof (@acquire_reclaims_stale_lock Scenario.world_a
                "cache/glib2-mclazy.lock" "999" 999 Scenario.two_locks H1 H2 H3)
    as (T1 & T2 & _).
  split; [exact T1 | exact T2].
Defined.

(** Two runs of the script on [glib2], the second one started while the
    first is still at work. *)
Lemma acquire_excludes_second_run_witness :
  (lookup "cache/glib2-mclazy.lock" (locks initial) = None /\
   locks (snd (acquire Scenario.world_a "cache/glib2-mclazy.lock" initial)) =
     locks (snd (acquire Scenario.world_a "cache/glib2-mclazy.lock" initial)) /\
   w_proc_alive (Cases.second_run Scenario.world_a) (w_pid Scenario.world_a) = true) /\
  fst (acquire (Cases.second_run Scenario.world_a) "cache/glib2-mclazy.lock"
         (snd (acquire Scenario.world_a "cache/glib2-mclazy.lock" initial))) = Next.
Proof.
  assert (lookup "cache/glib2-mclazy.lock" (locks initial) = None) as H1
    by reflexivity.
  assert (locks (snd (acquire Scenario.world_a "cache/glib2-mclazy.lock" initial)) =
          locks (snd (acquire Scenario.world_a "cache/glib2-mclazy.lock" initial)))
    as H2 by reflexivity.
  assert (w_proc_alive (Cases.second_run Scenario.world_a) (w_pid Scenario.world_a)
          = true) as H3 by reflexivity.
  split; [exact (conj H1 (conj H2 H3))|].
  pose proof (@acquire_excludes_second_run Scenario.world_a
                (Cases.second_run Scenario.world_a) "cache/glib2-mclazy.lock"
                initial
                (snd (acquire Scenario.world_a "cache/glib2-mclazy.lock" initial))
                H1 H2 H3) as (_ & T).
  exact (f_equal fst T).
Defined.

(** The lock file of [Scenario.garbage_lock], met by the first package
    of a run. *)
Lemma acquire_unparsable_lock_witness :
  (lookup "cache/gnome-shell-mclazy.lock" (locks Scenario.garbage_lock)
     = Some "locked" /\
   py_int "locked" = None) /\
  acquire Scenario.world_344 "cache/gnome-shell-mclazy.lock" Scenario.garbage_lock
    = (Raise UnboundLocalError, Scenario.garbage_lock).
Proof.
  assert (lookup "cache/gnome-shell-mclazy.lock" (locks Scenario.garbage_lock)
          = Some "locked") as H1 by reflexivity.
  assert (py_int "locked" = None) as H2 by (vm_compute; reflexivity).
  split; [exact (conj H1 H2)|].
  exact (@acquire_unparsable_lock Scenario.world_344
           "cache/gnome-shell-mclazy.lock" "locked" Scenario.garbage_lock H1 H2).
Defined.

(** §8 once the spec file is at 3.44.1. *)
Lemma up_to_date_package_untouched_witness :
  (@resolve Model.extern Scenario.args Cases.world_up_to_date Scenario.item_344
            initial =
     (Val Cases.decision_up_to_date,
      snd (@resolve Model.extern Scenario.args Cases.world_up_to_date
                    Scenario.item_344 initial)) /\
   (Model.rpmvercmp (tilde (d_newest Cases.decision_up_to_date))
                    (d_version Cases.decision_up_to_date) <= 0)%Z) /\
  (fst (@package_body Model.extern Scenario.args Cases.world_up_to_date
                      Scenario.item_344 initial) = Next /\
   lookup (lock_path Scenario.args Scenario.item_344)
     (locks (snd (@package_body Model.extern Scenario.args Cases.world_up_to_date
                                Scenario.item_344 initial))) = None).
Proof.
  assert (@resolve Model.extern Scenario.args Cases.world_up_to_date
            Scenario.item_344 initial =
          (Val Cases.decision_up_to_date,
           snd (@resolve Model.extern Scenario.args Cases.world_up_to_date
                         Scenario.item_344 initial))) as H1
    by (vm_compute; reflexivity).
  assert (Model.rpmvercmp (tilde (d_newest Cases.decision_up_to_date))
                          (d_version Cases.decision_up_to_date) <= 0)%Z as H2
    by (vm_compute; discriminate).
  split; [exact (conj H1 H2)|].
  pose proof (@up_to_date_package_untouched Model.extern Scenario.args
                Cases.world_up_to_date Scenario.item_344 initial _
                Cases.decision_up_to_date H1 H2) as T.
  cbv zeta in T. destruct T as (_ & Hn & _ & Hl). exact (conj Hn Hl).
Defined.

(** §8 with the defaults of the command line, which build in mock. *)
Lemma commit_only_after_mock_build_witness :
  no_mockbuild Scenario.args = false /\
  exists evs,
    trace (snd (@package_body Model.extern Scenario.args Scenario.world_344
                              Scenario.item_344 initial)) =
      (trace initial ++ evs)%list /\
    preceded_by (is_cmd_ok "fedpkg" "mockbuild") (is_cmd "git" "commit") false evs
      = true.
Proof.
  assert (no_mockbuild Scenario.args = false) as H1 by reflexivity.
  split; [exact H1|].
  exact (@commit_only_after_mock_build Model.extern Scenario.args
           Scenario.world_344 Scenario.item_344 initial H1).
Defined.

(** An update to a version [4], which has no dot, of a spec file with a
    [Source0:] line: the three lines before it are in the temporary
    file. *)
Lemma prep_spec_needs_majorminor_witness :
  ("4" <> "" /\
   (majorminor (d_version_dot Scenario.decision_4) = None \/ majorminor "4" = None)) /\
  fst (@prep_spec Model.extern Scenario.world_4 "cache/gnome-shell/gnome-shell.spec"
                  Scenario.decision_4 "4" "4" initial) = Raise IndexError /\
  trace (snd (@prep_spec Model.extern Scenario.world_4
                "cache/gnome-shell/gnome-shell.spec" Scenario.decision_4 "4" "4"
                initial)) =
    [ESpecWrite "cache/gnome-shell/gnome-shell.spec.tmp"
       ["Name:           gnome-shell" ++ nl;
        "Version:        4" ++ nl;
        "Release:" ++ String Py.tab ("0%{?dist}" ++ nl)]].
Proof.
  assert ("4" <> "") as H1 by discriminate.
  assert (majorminor (d_version_dot Scenario.decision_4) = None \/
          majorminor "4" = None) as H2 by (right; reflexivity).
  split; [exact (conj H1 H2)|].
  pose proof (@prep_spec_needs_majorminor Model.extern Scenario.world_4
                "cache/gnome-shell/gnome-shell.spec" Scenario.decision_4
                "4" "4" initial H1 H2) as T.
  cbv zeta in T. decide_test T. destruct T as (T & _).
  split; [exact T | vm_compute; reflexivity].
Defined.

(** A [Version:] line rewritten twice. *)
Lemma replace_spec_value_last_wins_witness :
  (Py.contains_char " " ("3.44.1" ++ nl) = false /\
   Py.contains_char Py.tab ("3.44.1" ++ nl) = false) /\
  replace_spec_value
    (replace_spec_value ("Version:        3.44.0" ++ nl) ("3.44.1" ++ nl))
    ("3.44.2" ++ nl) =
  replace_spec_value ("Version:        3.44.0" ++ nl) ("3.44.2" ++ nl).
Proof.
  assert (Py.contains_char " " ("3.44.1" ++ nl) = false) as H1 by reflexivity.
  assert (Py.contains_char Py.tab ("3.44.1" ++ nl) = false) as H2 by reflexivity.
  split; [exact (conj H1 H2)|].
  exact (@replace_spec_value_last_wins ("Version:        3.44.0" ++ nl)
           ("3.44.1" ++ nl) ("3.44.2" ++ nl) H1 H2).
Defined.

Lemma plain_version_unchanged_witness :
  plain_version "3.44.1" = true /\
  tilde "3.44.1" = "3.44.1" /\ version_dot_of "3.44.1" = "3.44.1".
Proof.
  assert (plain_version "3.44.1" = true) as H1 by reflexivity.
  split; [exact H1|].
  exact (@plain_version_unchanged "3.44.1" H1).
Defined.

(** The two packages of [Scenario.two_locks]: both lock files were left
    behind, and both are gone after the loop. *)
Lemma loop_leaves_no_lock_witness :
  @package_loop Model.extern Scenario.args Cases.two_packages Scenario.two_locks =
    (None, snd (@package_loop Model.extern Scenario.args Cases.two_packages
                              Scenario.two_locks)) /\
  (lookup "cache/glib2-mclazy.lock"
     (locks (snd (@package_loop Model.extern Scenario.args Cases.two_packages
                                Scenario.two_locks))) = None \/
   lookup "cache/glib2-mclazy.lock"
     (locks (snd (@package_loop Model.extern Scenario.args Cases.two_packages
                                Scenario.two_locks))) =
   lookup "cache/glib2-mclazy.lock" (locks Scenario.two_locks)).
Proof.
  assert (@package_loop Model.extern Scenario.args Cases.two_packages
            Scenario.two_locks =
          (None, snd (@package_loop Model.extern Scenario.args Cases.two_packages
                                    Scenario.two_locks))) as H1
    by (vm_compute; reflexivity).
  split; [exact H1|].
  exact (@loop_leaves_no_lock Model.extern Scenario.args Cases.two_packages
           Scenario.two_locks _ H1 "cache/glib2-mclazy.lock").
Defined.

(** The decision of §8. *)
Lemma update_only_when_newer_witness :
  @resolve Model.extern Scenario.args Scenario.world_344 Scenario.item_344 initial =
    (Val Scenario.decision_344,
     snd (@resolve Model.extern Scenario.args Scenario.world_344
                   Scenario.item_344 initial)) /\
  (w_spec_version Scenario.world_344 = Some (d_version Scenario.decision_344) /\
   d_newest Scenario.decision_344 <> "0").
Proof.
  assert (@resolve Model.extern Scenario.args Scenario.world_344 Scenario.item_344
            initial =
          (Val Scenario.decision_344,
           snd (@resolve Model.extern Scenario.args Scenario.world_344
                         Scenario.item_344 initial))) as H1
    by (vm_compute; reflexivity).
  split; [exact H1|].
  pose proof (@update_only_when_newer Model.extern Scenario.args Scenario.world_344
                Scenario.item_344 initial _ Scenario.decision_344 H1)
    as (T1 & _ & _ & T2 & _).
  exact (conj T1 T2).
Defined.

(** §8 with [--simulate]. *)
Lemma simulate_ends_before_push_witness :
  simulate (Scenario.args_with true false false) = true /\
  fst (@package_body Model.extern (Scenario.args_with true false false)
                     Scenario.world_344 Scenario.item_344 initial) <> Val tt.
Proof.
  assert (simulate (Scenario.args_with true false false) = true) as H1
    by reflexivity.
  split; [exact H1|].
  pose proof (@simulate_ends_before_push Model.extern
                (Scenario.args_with true false false) Scenario.world_344
                Scenario.item_344 initial H1) as T.
  cbv zeta in T. destruct T as (T & _). exact (T tt).
Defined.

(** §8 on rawhide, where there is nothing to sync. *)
Lemma without_rawhide_sync_witness :
  (no_rawhide_sync Scenario.args = true \/ fedora_branch Scenario.args = "rawhide") /\
  emits (fun e => negb (is_cmd "git" "merge" e || is_cmd "git" "cherry-pick" e))
        (@package_body Model.extern Scenario.args Scenario.world_344
                       Scenario.item_344).
Proof.
  assert (no_rawhide_sync Scenario.args = true \/
          fedora_branch Scenario.args = "rawhide") as H1 by (right; reflexivity).
  split; [exact H1|].
  exact (proj1 (@without_rawhide_sync Model.extern Scenario.args Scenario.world_344
                  Scenario.item_344 H1)).
Defined.

(** On [f42] with [--no-build] and the sync to rawhide, a build is
    started all the same: the one of [sync_to_rawhide_branch]. *)
Example no_build_still_builds_rawhide :
  let run := @package_body Model.extern Cases.args_f42_no_build Scenario.world_344
                           Cases.item_f42 initial in
  fst run = Val tt /\
  existsb (ran ["fedpkg"; "build"; "--nowait"]) (trace (snd run)) = true.
Proof. vm_compute. split; reflexivity. Qed.
